(** * DiTing: job orchestration core

    A shallow embedding of the task registry ([app/core/task_manager.py]),
    the ASR routing client ([app/asr/client.py]), the download retry
    wrapper ([app/downloaders/_utils.py]), the media cache service
    ([app/services/media_cache.py], [app/db/media_cache_entries.py]) and
    the transcription pipeline ([app/services/transcription/pipeline.py]).

    Conventions.
    - Python [str] values are byte strings ([string]); [None] is [None].
    - Clock readings ([time.time()], [datetime.now()]) and stored
      timestamps are integers (seconds); every operation that reads the
      clock takes the reading as the argument [now].
    - A raised exception is a value of [exn] carried by [Raise]; mutable
      objects (the registry, the tables, the file system) are passed
      explicitly. *)

From stdpp Require Import gmap strings list fin_maps pretty sorting.
From Stdlib Require Import ZArith Lia Ascii QArith Qround.
#[local] Close Scope Q_scope.

(** ** Python values and exceptions *)

Module Py.

(** An exception instance: the name of its class and [str(e)]. *)
Record exn := Exn { exn_type : string; exn_msg : string }.

Inductive result (A : Type) : Type :=
| Ok (a : A)
| Raise (e : exn).
Arguments Ok {A} a.
Arguments Raise {A} e.

Definition RuntimeError (msg : string) : exn := Exn "RuntimeError" msg.
Definition Exception (msg : string) : exn := Exn "Exception" msg.
Definition TaskCancelledException (msg : string) : exn :=
  Exn "TaskCancelledException" msg.

(** [isinstance(e, TaskCancelledException)]: the class has no subclass. *)
Definition is_TaskCancelled (e : exn) : bool :=
  bool_decide (exn_type e = "TaskCancelledException").

(** Truth value of an optional string: [None] and [""] are falsy. *)
Definition truthy (o : option string) : bool :=
  match o with
  | Some s => negb (bool_decide (s = ""))
  | None => false
  end.

Definition str_truthy (s : string) : bool := negb (bool_decide (s = "")).

(** [str(n)] for an integer. *)
Definition str_of_Z (n : Z) : string := pretty n.

End Py.
Export Py.

(** ** Task registry: app/core/task_manager.py *)

Module TaskManager.

Inductive task_status : Type :=
| processing | cancelling | cancelled | completed | failed.

#[global] Instance task_status_eq_dec : EqDecision task_status.
Proof. solve_decision. Defined.

(** The dictionary stored per task id. [cancel_event] is the state of
    the [threading.Event]; [end_time] is absent until the task finishes. *)
Record task : Type := Task {
  status : task_status;
  progress : Z;
  message : string;
  cancel_event : bool;
  start_time : Z;
  end_time : option Z;
  meta : gmap string string
}.

Record registry : Type := Registry {
  tasks : gmap Z task;
  _finished_ids : list Z
}.

Definition MAX_HISTORY : nat := 20.

Definition empty : registry := Registry ∅ [].

Definition start_task (task_id : Z) (m : option (gmap string string))
    (now : Z) (r : registry) : registry :=
  Registry
    (<[task_id := Task processing 0 "Starting..." false now None
                       (default ∅ m)]> (tasks r))
    (_finished_ids r).

Definition update_progress (task_id : Z) (p : Z) (msg : option string)
    (r : registry) : registry :=
  match tasks r !! task_id with
  | Some t =>
      let t1 := Task (status t) p (message t) (cancel_event t)
                     (start_time t) (end_time t) (meta t) in
      let t2 := match msg with
                | Some m => if str_truthy m
                            then Task (status t1) (progress t1) m
                                      (cancel_event t1) (start_time t1)
                                      (end_time t1) (meta t1)
                            else t1
                | None => t1
                end in
      Registry (<[task_id := t2]> (tasks r)) (_finished_ids r)
  | None => r
  end.

Definition get_task_status (task_id : Z) (r : registry) : option task :=
  tasks r !! task_id.

Definition cancel_task (task_id : Z) (r : registry) : bool * registry :=
  match tasks r !! task_id with
  | Some t =>
      (true,
       Registry
         (<[task_id := Task cancelling (progress t) (message t) true
                            (start_time t) (end_time t) (meta t)]> (tasks r))
         (_finished_ids r))
  | None => (false, r)
  end.

Definition is_cancelled (task_id : Z) (r : registry) : bool :=
  match tasks r !! task_id with
  | Some t => cancel_event t
  | None => false
  end.

Definition check_cancel (task_id : Z) (r : registry) : result unit :=
  if is_cancelled task_id r
  then Raise (TaskCancelledException
                ("Task " +:+ str_of_Z task_id +:+ " cancelled by user"))
  else Ok tt.

(** The [while len(self._finished_ids) > self.MAX_HISTORY] loop: pop the
    oldest finished id and drop its record. *)
Fixpoint evict_oldest (ids : list Z) (ts : gmap Z task)
    : list Z * gmap Z task :=
  match ids with
  | [] => ([], ts)
  | old_id :: rest =>
      if decide (MAX_HISTORY < length ids)%nat
      then evict_oldest rest (delete old_id ts)
      else (ids, ts)
  end.

Definition finish_task (task_id : Z) (now : Z) (r : registry) : registry :=
  match tasks r !! task_id with
  | Some t =>
      let t1 := if decide (status t = cancelled ∨ status t = failed)
                then t
                else Task completed 100 (message t) (cancel_event t)
                          (start_time t) (end_time t) (meta t) in
      let t2 := Task (status t1) (progress t1) (message t1) (cancel_event t1)
                     (start_time t1) (Some now) (meta t1) in
      let '(ids, ts) := evict_oldest (_finished_ids r ++ [task_id])
                                     (<[task_id := t2]> (tasks r)) in
      Registry ts ids
  | None => r
  end.

(** [deque.remove(x)]: drop the first occurrence, if any. *)
Fixpoint deque_remove (x : Z) (ids : list Z) : list Z :=
  match ids with
  | [] => []
  | y :: rest => if decide (x = y) then rest else y :: deque_remove x rest
  end.

Definition remove_task (task_id : Z) (r : registry) : registry :=
  Registry (delete task_id (tasks r)) (deque_remove task_id (_finished_ids r)).

(** The registry's operations as requests, serialised by the lock. *)
Inductive op : Type :=
| OpStart (task_id : Z) (m : option (gmap string string)) (now : Z)
| OpProgress (task_id : Z) (p : Z) (msg : option string)
| OpCancel (task_id : Z)
| OpFinish (task_id : Z) (now : Z)
| OpRemove (task_id : Z).

Definition run_op (o : op) (r : registry) : registry :=
  match o with
  | OpStart i m now => start_task i m now r
  | OpProgress i p msg => update_progress i p msg r
  | OpCancel i => (cancel_task i r).2
  | OpFinish i now => finish_task i now r
  | OpRemove i => remove_task i r
  end.

Definition run_ops (os : list op) (r : registry) : registry :=
  foldl (fun acc o => run_op o acc) r os.

End TaskManager.

(** ** ASR routing client: app/asr/client.py *)

Module ASRClient.

(** The part of the client's state that engine selection reads:
    [self.availability] and the runtime configuration [self.config]. *)
Record config : Type := Config {
  priority : list string;
  strict_mode : bool;
  active_engine : option string;
  disabled_engines : list string
}.

Record client : Type := Client {
  availability : gmap string bool;
  cfg : config;
  (* queue depth advertised in the last /health payload, per engine *)
  _last_health : gmap string Z
}.

(** [self.availability.get(engine, False)] *)
Definition available (c : client) (engine : string) : bool :=
  default false (availability c !! engine).

Definition _check_availability (c : client) (engine : string)
    : result string :=
  if available c engine then Ok engine
  else Raise (RuntimeError ("Engine '" +:+ engine +:+ "' is offline.")).

(** [e in disabled_list and e != active] *)
Definition skipped (c : client) (e : string) : bool :=
  bool_decide (e ∈ disabled_engines (cfg c))
  && negb (bool_decide (Some e = active_engine (cfg c))).

(** The [for e in self.config["priority"]] loop. *)
Fixpoint scan_priority (c : client) (l : list string) : option string :=
  match l with
  | [] => None
  | e :: rest =>
      if skipped c e then scan_priority c rest
      else if available c e then Some e
      else scan_priority c rest
  end.

Definition select_worker (c : client) (preferred_engine : option string)
    : result string :=
  if truthy preferred_engine then
    _check_availability c (default "" preferred_engine)
  else
    let strict := strict_mode (cfg c) in
    let active := active_engine (cfg c) in
    if strict && truthy active then
      match _check_availability c (default "" active) with
      | Ok e => Ok e
      | Raise _ =>
          Raise (RuntimeError ("Strict Mode: Active engine '"
                               +:+ default "" active +:+ "' is offline."))
      end
    else
      match scan_priority c (priority (cfg c)) with
      | Some e => Ok e
      | None =>
          if truthy active && available c (default "" active)
          then Ok (default "" active)
          else Raise (RuntimeError
            "No available ASR engines (checked priority list and skipped disabled ones).")
      end.

End ASRClient.

(** ** Download helpers: app/downloaders/_utils.py *)

Module Downloaders.

(** [str.lower()] on the ASCII letters; other bytes are left as they are. *)
Definition lower_ascii (c : Ascii.ascii) : Ascii.ascii :=
  let n := Ascii.nat_of_ascii c in
  if (65 <=? n)%nat && (n <=? 90)%nat then Ascii.ascii_of_nat (n + 32) else c.

Fixpoint lower (s : string) : string :=
  match s with
  | EmptyString => EmptyString
  | String c rest => String (lower_ascii c) (lower rest)
  end.

(** [needle in hay] *)
Fixpoint contains (needle hay : string) : bool :=
  String.prefix needle hay
  || match hay with
     | EmptyString => false
     | String _ rest => contains needle rest
     end.

Definition check_and_reraise_cancel (e : exn) : result bool :=
  let error_str := lower (exn_msg e) in
  if contains "cancelled" error_str
     || bool_decide (exn_type e = "TaskCancelledException")
  then Raise e
  else Ok false.

Definition NETWORK_KEYWORDS : list string :=
  ["timeout"; "connection"; "network"; "timed out"; "urlopen"].

(** [any(kw in error_str for kw in NETWORK_KEYWORDS)] *)
Definition is_network (e : exn) : bool :=
  let error_str := lower (exn_msg e) in
  existsb (fun kw => contains kw error_str) NETWORK_KEYWORDS.

(** What the wrapper does, in order: invocations of the wrapped function
    (numbered by attempt) and calls of [time.sleep]. *)
Inductive event : Type :=
| Call (attempt : nat)
| Sleep (seconds : Z).

(** The wrapped function is called with the same arguments at every
    attempt; [func attempt] is the outcome of that invocation: a path,
    [None], or an exception. *)
Definition wrapped : Type := nat -> result (option string).

(** [for attempt in range(max_retries)], with [remaining] iterations
    left. *)
Fixpoint wrapper_loop (func : wrapped) (max_retries : nat) (retry_delay : Z)
    (remaining attempt : nat) (log : list event)
    : result (option string) * list event :=
  match remaining with
  | O => (Ok None, log)
  | S remaining' =>
      let log1 := log ++ [Call attempt] in
      match func attempt with
      | Ok v => (Ok v, log1)
      | Raise e =>
          match check_and_reraise_cancel e with
          | Raise e' => (Raise e', log1)
          | Ok _ =>
              if is_network e
                 && (Z.of_nat attempt <? Z.of_nat max_retries - 1)%Z
              then
                let wait_time := (retry_delay * 2 ^ Z.of_nat attempt)%Z in
                wrapper_loop func max_retries retry_delay remaining'
                             (S attempt) (log1 ++ [Sleep wait_time])
              else (Ok None, log1)
          end
      end
  end.

Definition retry_on_network_error (max_retries : nat) (retry_delay : Z)
    (func : wrapped) : result (option string) * list event :=
  wrapper_loop func max_retries retry_delay max_retries 0 [].

(** The decorator as every downloader applies it:
    [@retry_on_network_error(max_retries=3, retry_delay=5)]. *)
Definition retry_default (func : wrapped) : result (option string) * list event :=
  retry_on_network_error 3 5 func.

End Downloaders.

(** ** Python string and path functions used by the cache service *)

Module PyStr.

Definition chars (s : string) : list Ascii.ascii :=
  String.list_ascii_of_string s.
Definition str (l : list Ascii.ascii) : string :=
  String.string_of_list_ascii l.

(** [s.startswith(p)] *)
Definition startswith (s p : string) : bool := String.prefix p s.

(** [s.split(sep)] for a one-character separator; [cur] is the current
    field, reversed. *)
Fixpoint split_chars (sep : Ascii.ascii) (l cur : list Ascii.ascii)
    : list (list Ascii.ascii) :=
  match l with
  | [] => [rev cur]
  | c :: r =>
      if decide (c = sep) then rev cur :: split_chars sep r []
      else split_chars sep r (c :: cur)
  end.

Definition split (sep : Ascii.ascii) (s : string) : list string :=
  map str (split_chars sep (chars s) []).

(** ASCII white space, as [str.strip()] and [int()] skip it. *)
Definition is_space (c : Ascii.ascii) : bool :=
  let n := Ascii.nat_of_ascii c in
  ((9 <=? n) && (n <=? 13) || (28 <=? n) && (n <=? 32))%nat.

Fixpoint lstrip (l : list Ascii.ascii) : list Ascii.ascii :=
  match l with
  | [] => []
  | c :: r => if is_space c then lstrip r else l
  end.

Definition strip (l : list Ascii.ascii) : list Ascii.ascii :=
  rev (lstrip (rev (lstrip l))).

Definition digit_val (c : Ascii.ascii) : option Z :=
  let n := Ascii.nat_of_ascii c in
  if ((48 <=? n) && (n <=? 57))%nat then Some (Z.of_nat n - 48)%Z else None.

(** Decimal digits, with single underscores allowed between digits. *)
Fixpoint parse_digits (l : list Ascii.ascii) (acc : Z) (after_digit : bool)
    : option Z :=
  match l with
  | [] => if after_digit then Some acc else None
  | c :: r =>
      match digit_val c with
      | Some d => parse_digits r (acc * 10 + d)%Z true
      | None =>
          if decide (c = "_"%char) then
            if after_digit then parse_digits r acc false else None
          else None
      end
  end.

(** [int(s)] for a string of ASCII characters: [None] stands for
    [ValueError]. *)
Definition int (s : string) : option Z :=
  match strip (chars s) with
  | c :: r =>
      if decide (c = "-"%char) then Z.opp <$> parse_digits r 0 false
      else if decide (c = "+"%char) then parse_digits r 0 false
      else parse_digits (c :: r) 0 false
  | [] => None
  end.

(** [s.rfind(c)]: the last index of [c], or -1. *)
Fixpoint rfind_from (c : Ascii.ascii) (l : list Ascii.ascii) (i last : Z) : Z :=
  match l with
  | [] => last
  | x :: r => rfind_from c r (i + 1)%Z (if decide (x = c) then i else last)
  end.

Definition rfind (c : Ascii.ascii) (l : list Ascii.ascii) : Z :=
  rfind_from c l 0 (-1).

(** [os.path.splitext(p)[1]] on POSIX: the extension starts at the last
    dot of the last path component, unless only dots precede it there. *)
Definition splitext_ext (p : string) : string :=
  let l := chars p in
  let sepIndex := rfind "/"%char l in
  let dotIndex := rfind "."%char l in
  if (sepIndex <? dotIndex)%Z then
    let name := take (Z.to_nat (dotIndex - (sepIndex + 1)))
                     (drop (Z.to_nat (sepIndex + 1)) l) in
    if existsb (fun ch => negb (bool_decide (ch = "."%char))) name
    then str (drop (Z.to_nat dotIndex) l)
    else ""
  else "".

(** [os.path.basename(p)] on POSIX. *)
Definition basename (p : string) : string :=
  let l := chars p in
  str (drop (Z.to_nat (rfind "/"%char l + 1)) l).

(** [s.replace("\\", "/")] *)
Definition backslash_to_slash (s : string) : string :=
  str (map (fun c => if decide (c = "\"%char) then "/"%char else c) (chars s)).

(** [os.path.join(a, b)] on POSIX. *)
Definition path_join (a b : string) : string :=
  if String.prefix "/" b then b
  else if bool_decide (a = "") then b
  else if bool_decide (last (chars a) = Some "/"%char) then a +:+ b
  else a +:+ "/" +:+ b.

End PyStr.

(** ** MD5 ([hashlib.md5(...).hexdigest()]), RFC 1321 *)

Module MD5.
Local Open Scope Z_scope.

(** 32-bit words are integers kept below 2^32 by [mask32]. *)

Definition mask32 (x : Z) : Z := Z.land x 0xffffffff.
Definition not32 (x : Z) : Z := Z.lxor x 0xffffffff.
Definition rotl32 (x c : Z) : Z :=
  mask32 (Z.lor (Z.shiftl x c) (Z.shiftr x (32 - c))).

Definition K : list Z :=
  [0xd76aa478; 0xe8c7b756; 0x242070db; 0xc1bdceee;
   0xf57c0faf; 0x4787c62a; 0xa8304613; 0xfd469501;
   0x698098d8; 0x8b44f7af; 0xffff5bb1; 0x895cd7be;
   0x6b901122; 0xfd987193; 0xa679438e; 0x49b40821;
   0xf61e2562; 0xc040b340; 0x265e5a51; 0xe9b6c7aa;
   0xd62f105d; 0x02441453; 0xd8a1e681; 0xe7d3fbc8;
   0x21e1cde6; 0xc33707d6; 0xf4d50d87; 0x455a14ed;
   0xa9e3e905; 0xfcefa3f8; 0x676f02d9; 0x8d2a4c8a;
   0xfffa3942; 0x8771f681; 0x6d9d6122; 0xfde5380c;
   0xa4beea44; 0x4bdecfa9; 0xf6bb4b60; 0xbebfbc70;
   0x289b7ec6; 0xeaa127fa; 0xd4ef3085; 0x04881d05;
   0xd9d4d039; 0xe6db99e5; 0x1fa27cf8; 0xc4ac5665;
   0xf4292244; 0x432aff97; 0xab9423a7; 0xfc93a039;
   0x655b59c3; 0x8f0ccc92; 0xffeff47d; 0x85845dd1;
   0x6fa87e4f; 0xfe2ce6e0; 0xa3014314; 0x4e0811a1;
   0xf7537e82; 0xbd3af235; 0x2ad7d2bb; 0xeb86d391].

Definition R : list Z :=
  [7; 12; 17; 22; 7; 12; 17; 22; 7; 12; 17; 22; 7; 12; 17; 22;
   5; 9; 14; 20; 5; 9; 14; 20; 5; 9; 14; 20; 5; 9; 14; 20;
   4; 11; 16; 23; 4; 11; 16; 23; 4; 11; 16; 23; 4; 11; 16; 23;
   6; 10; 15; 21; 6; 10; 15; 21; 6; 10; 15; 21; 6; 10; 15; 21].

Definition state : Type := Z * Z * Z * Z.

Definition round (M : list Z) (st : state) (i : nat) : state :=
  let '(a, b, c, d) := st in
  let iz := Z.of_nat i in
  let '(f, g) :=
    if iz <? 16 then (Z.lor (Z.land b c) (Z.land (not32 b) d), iz)
    else if iz <? 32 then
      (Z.lor (Z.land d b) (Z.land (not32 d) c), (5 * iz + 1) mod 16)
    else if iz <? 48 then (Z.lxor (Z.lxor b c) d, (3 * iz + 5) mod 16)
    else (Z.lxor c (Z.lor b (not32 d)), (7 * iz) mod 16) in
  let f' := mask32 (f + a + nth i K 0 + nth (Z.to_nat g) M 0) in
  (d, mask32 (b + rotl32 f' (nth i R 0)), b, c).

(** Little-endian 32-bit words of a block of bytes. *)
Fixpoint words (bytes : list Z) (n : nat) : list Z :=
  match n with
  | O => []
  | S n' =>
      match bytes with
      | b0 :: b1 :: b2 :: b3 :: rest =>
          (b0 + 256 * b1 + 65536 * b2 + 16777216 * b3) :: words rest n'
      | _ => []
      end
  end.

Definition block (st : state) (bytes : list Z) : state :=
  let M := words bytes 16 in
  let '(a, b, c, d) := foldl (round M) st (seq 0 64) in
  let '(a0, b0, c0, d0) := st in
  (mask32 (a0 + a), mask32 (b0 + b), mask32 (c0 + c), mask32 (d0 + d)).

Fixpoint blocks (n : nat) (st : state) (bytes : list Z) : state :=
  match n with
  | O => st
  | S n' => blocks n' (block st (take 64 bytes)) (drop 64 bytes)
  end.

Definition le_bytes (n : nat) (x : Z) : list Z :=
  map (fun i => Z.land (Z.shiftr x (8 * Z.of_nat i)) 255) (seq 0 n).

Definition pad (bytes : list Z) : list Z :=
  let len := Z.of_nat (length bytes) in
  let zeros := Z.to_nat ((55 - len) mod 64) in
  bytes ++ [128] ++ replicate zeros 0 ++ le_bytes 8 (8 * len).

Definition hex_digit (x : Z) : Ascii.ascii :=
  Ascii.ascii_of_nat (Z.to_nat (if x <? 10 then 48 + x else 87 + x)).

Definition hex_byte (x : Z) : list Ascii.ascii :=
  [hex_digit (Z.shiftr x 4); hex_digit (Z.land x 15)].

Definition bytes_of_string (s : string) : list Z :=
  map (fun c => Z.of_nat (Ascii.nat_of_ascii c)) (String.list_ascii_of_string s).

(** [hashlib.md5(s.encode("utf-8")).hexdigest()] *)
Definition hexdigest (s : string) : string :=
  let padded := pad (bytes_of_string s) in
  let '(a, b, c, d) :=
    blocks (length padded / 64)
           (0x67452301, 0xefcdab89, 0x98badcfe, 0x10325476) padded in
  String.string_of_list_ascii
    (concat (map hex_byte (le_bytes 4 a ++ le_bytes 4 b
                           ++ le_bytes 4 c ++ le_bytes 4 d))).

End MD5.

(** ** Tables and files the cache service works on *)

Module Store.

(** A row of [media_cache_entries]; UNIQUE(source_id, quality). *)
Record cache_entry : Type := CacheEntry {
  source_id : string;
  quality : string;
  media_path : string;
  file_size : Z;
  cached_at : Z
}.

(** The columns of [video_meta] (PRIMARY KEY source_id) the cache
    service reads: a NULL column is [None]. *)
Record video_meta_row : Type := VideoMeta {
  video_title : option string;
  cache_policy : option string;
  cache_expires_at : option Z
}.

(** The columns of [transcriptions] the pipeline and the cache use. *)
Record transcription : Type := Transcription {
  source : string;
  raw_text : string;
  tstatus : string;
  asr_model : string;
  is_subtitle : bool
}.

(** The database and the file system. [media_cache_entries] lists the
    rows in rowid order. [files] maps the path of every regular file to
    its size in bytes; a path is taken relative to the working directory,
    so [os.path.join(os.getcwd(), p)] names the file [p], and paths are
    compared as written ([os.path.normpath] is the identity on the paths
    the service builds). Directories are not represented: a move into the
    cache directory succeeds. *)
Record store : Type := MkStore {
  media_cache_entries : list cache_entry;
  video_meta : gmap string video_meta_row;
  transcriptions : gmap Z transcription;
  system_configs : gmap string string;
  files : gmap string Z
}.

Definition set_entries (l : list cache_entry) (st : store) : store :=
  MkStore l (video_meta st) (transcriptions st) (system_configs st) (files st).
Definition set_video_meta (m : gmap string video_meta_row) (st : store) : store :=
  MkStore (media_cache_entries st) m (transcriptions st) (system_configs st)
          (files st).
Definition set_transcriptions (m : gmap Z transcription) (st : store) : store :=
  MkStore (media_cache_entries st) (video_meta st) m (system_configs st)
          (files st).
Definition set_files (m : gmap string Z) (st : store) : store :=
  MkStore (media_cache_entries st) (video_meta st) (transcriptions st)
          (system_configs st) m.

(** [os.path.exists], [os.path.getsize], [os.remove]. *)
Definition exists_ (p : string) (st : store) : bool :=
  bool_decide (is_Some (files st !! p)).
Definition getsize (p : string) (st : store) : Z :=
  default 0%Z (files st !! p).
Definition remove (p : string) (st : store) : store :=
  set_files (delete p (files st)) st.

(** [shutil.move(src, dst)] of a regular file. *)
Definition move (src dst : string) (st : store) : store :=
  match files st !! src with
  | Some size => set_files (<[dst := size]> (delete src (files st))) st
  | None => st
  end.

(** app/db/system_config.py *)
Definition get_system_config (key default_ : string) (st : store) : string :=
  default default_ (system_configs st !! key).

(** app/db/media_cache_entries.py *)
Definition same_key (s q : string) (e : cache_entry) : bool :=
  bool_decide (source_id e = s) && bool_decide (quality e = q).

Definition get_cache_entry (s q : string) (st : store) : option cache_entry :=
  find (same_key s q) (media_cache_entries st).

(** INSERT ... ON CONFLICT(source_id, quality) DO UPDATE *)
Definition upsert_cache_entry (s q path : string) (size now : Z) (st : store)
    : store :=
  let row := CacheEntry s q path size now in
  match get_cache_entry s q st with
  | Some _ =>
      set_entries (map (fun e => if same_key s q e then row else e)
                       (media_cache_entries st)) st
  | None => set_entries (media_cache_entries st ++ [row]) st
  end.

Definition delete_cache_entry (s q : string) (st : store) : store :=
  set_entries (filter (fun e => same_key s q e = false)
                      (media_cache_entries st)) st.

(** The row with the greatest [cached_at] (ORDER BY cached_at DESC
    LIMIT 1); among equal timestamps, the first in rowid order. *)
Fixpoint latest (l : list cache_entry) : option cache_entry :=
  match l with
  | [] => None
  | e :: rest =>
      match latest rest with
      | Some e' => if (cached_at e <? cached_at e')%Z then Some e' else Some e
      | None => Some e
      end
  end.

Definition priorities (priority_mode : string) : list string :=
  if bool_decide (priority_mode = "transcription")
  then ["audio_only"; "worst"; "medium"; "best"; "video"]
  else ["best"; "medium"; "video"; "worst"; "audio_only"].

Fixpoint first_live (s : string) (qs : list string) (st : store)
    : option (string * string) :=
  match qs with
  | [] => None
  | q :: rest =>
      match get_cache_entry s q st with
      | Some row =>
          if str_truthy (media_path row) && exists_ (media_path row) st
          then Some (media_path row, q)
          else first_live s rest st
      | None => first_live s rest st
      end
  end.

Definition get_best_cache_path (s priority_mode : string) (st : store)
    : option (string * string) :=
  match first_live s (priorities priority_mode) st with
  | Some r => Some r
  | None =>
      match latest (filter (fun e => bool_decide (source_id e = s))
                           (media_cache_entries st)) with
      | Some row =>
          if str_truthy (media_path row) && exists_ (media_path row) st
          then Some (media_path row, quality row)
          else None
      | None => None
      end
  end.

(** COALESCE(SUM(file_size), 0) over all rows ([get_cache_stats]). *)
Definition total_size (l : list cache_entry) : Z :=
  foldr (fun e acc => (file_size e + acc)%Z) 0%Z l.

End Store.

(** ** Media cache service: app/services/media_cache.py *)

Module MediaCacheService.
Import Store.

(** [settings.MEDIA_CACHE_DIR] *)
Definition MEDIA_CACHE_DIR : string := "data/media_cache".

Definition get_retention_policy (st : store) : string * Z :=
  let policy_str := get_system_config "media_retention_policy" "keep_days:3" st in
  if PyStr.startswith policy_str "keep_days:" then
    match PyStr.int (default "" (PyStr.split ":"%char policy_str !! 1%nat)) with
    | Some days => ("keep_days", days)
    | None => ("delete_after_asr", 0%Z)
    end
  else (policy_str, 0%Z).

Definition should_keep (st : store) : bool :=
  negb (bool_decide ((get_retention_policy st).1 = "delete_after_asr")).

(** The pair [(path, quality)], or [None] for [(None, None)]. *)
Definition find_existing_cache (src : option string) (q : option string)
    (mode : string) (st : store) : option (string * string) :=
  if negb (truthy src) then None
  else
    let s := default "" src in
    if truthy q then
      let qual := default "" q in
      match get_cache_entry s qual st with
      | Some entry =>
          if str_truthy (media_path entry) && exists_ (media_path entry) st
          then Some (media_path entry, qual)
          else None
      | None => None
      end
    else get_best_cache_path s mode st.

Definition _reset_expired_policy (s : string) (now : Z) (st : store) : store :=
  match video_meta st !! s with
  | Some m =>
      match cache_policy m, cache_expires_at m with
      | Some pol, Some expires_dt =>
          if bool_decide (pol = "custom") && (expires_dt <? now)%Z
          then set_video_meta
                 (<[s := VideoMeta (video_title m) None None]> (video_meta st)) st
          else st
      | _, _ => st
      end
  | None => st
  end.

Definition new_filename (temp_path : string) (transcription_id : Z)
    (src : option string) (q : string) : string :=
  if truthy src then
    let source_hash := MD5.hexdigest (default "" src) in
    let ext := PyStr.splitext_ext temp_path in
    if str_truthy q && negb (bool_decide (q = "best"))
    then source_hash +:+ "_" +:+ q +:+ ext
    else source_hash +:+ ext
  else
    str_of_Z transcription_id +:+ "_" +:+ PyStr.basename temp_path.

Definition target_path_of (name : string) : string :=
  PyStr.path_join MEDIA_CACHE_DIR name.

Definition relative_path_of (name : string) : string :=
  PyStr.backslash_to_slash
    (PyStr.path_join (PyStr.path_join "data" "media_cache") name).

Definition cache_file (temp_path : option string) (transcription_id : Z)
    (src : option string) (q : string) (now : Z) (st : store)
    : option string * store :=
  if negb (truthy temp_path) || negb (exists_ (default "" temp_path) st)
  then (None, st)
  else
    let temp := default "" temp_path in
    let name := new_filename temp transcription_id src q in
    let target_path := target_path_of name in
    let relative_path := relative_path_of name in
    let st1 := if exists_ target_path st && truthy src
               then remove temp st
               else move temp target_path st in
    let size := if exists_ target_path st1 then getsize target_path st1
                else 0%Z in
    let source_id_ :=
      if negb (truthy src) && negb (bool_decide (transcription_id = 0%Z)) then
        match transcriptions st1 !! transcription_id with
        | Some row => Some (source row)
        | None => src
        end
      else src in
    let st2 := if truthy source_id_
               then _reset_expired_policy (default "" source_id_) now
                      (upsert_cache_entry (default "" source_id_) q
                                          relative_path size now st1)
               else st1 in
    (Some relative_path, st2).

Definition assign_cache (transcription_id : Z) (relative_path q : string)
    (now : Z) (st : store) : store :=
  match transcriptions st !! transcription_id with
  | Some row =>
      let size := if exists_ relative_path st then getsize relative_path st
                  else 0%Z in
      upsert_cache_entry (source row) q relative_path size now st
  | None => st
  end.

Definition cleanup_or_delete (temp_path : option string) (transcription_id : Z)
    (src : option string) (q : string) (now : Z) (st : store) : store :=
  if negb (truthy temp_path) then st
  else if negb (exists_ (default "" temp_path) st) then st
  else if should_keep st
       then (cache_file temp_path transcription_id src q now st).2
       else remove (default "" temp_path) st.

(** *** Garbage collection *)

Inductive reason : Type :=
| GlobalPolicyExpiry
| CustomPolicyExpired (expires_at : option Z)
| GlobalDeleteAfterASR
| GlobalKeepDays (days : Z).

(** The dictionaries [get_gc_candidates] returns. *)
Record candidate : Type := Candidate {
  cand_source_id : string;
  cand_quality : string;
  cand_media_path : string;
  cand_filesize : Z;
  cand_title : string;
  cand_reason : reason;
  cand_policy : string
}.

(** Columns of the LEFT JOIN with [video_meta]. *)
Definition vm_policy (st : store) (e : cache_entry) : option string :=
  video_meta st !! source_id e ≫= cache_policy.
Definition vm_expires (st : store) (e : cache_entry) : option Z :=
  video_meta st !! source_id e ≫= cache_expires_at.
Definition vm_title (st : store) (e : cache_entry) : option string :=
  video_meta st !! source_id e ≫= video_title.

(** [vm.cache_policy IS NOT 'keep_forever' OR vm.cache_policy IS NULL] *)
Definition not_keep_forever (st : store) (e : cache_entry) : bool :=
  negb (bool_decide (vm_policy st e = Some "keep_forever")).

(** [vm.cache_policy = 'custom' AND vm.cache_expires_at < now] *)
Definition custom_expired (now : Z) (st : store) (e : cache_entry) : bool :=
  bool_decide (vm_policy st e = Some "custom")
  && match vm_expires st e with
     | Some t => (t <? now)%Z
     | None => false
     end.

(** [vm.cache_policy IS NULL AND e.cached_at < cutoff], when the global
    policy has a cutoff. *)
Definition global_expired (now : Z) (st : store) (e : cache_entry) : bool :=
  let '(policy, days) := get_retention_policy st in
  if bool_decide (policy = "keep_days") && (0 <? days)%Z then
    bool_decide (vm_policy st e = None)
    && (cached_at e <? now - days * 86400)%Z
  else if bool_decide (policy = "delete_after_asr") then
    bool_decide (vm_policy st e = None) && (cached_at e <? now - 3600)%Z
  else false.

Definition gc_where (now : Z) (st : store) (e : cache_entry) : bool :=
  not_keep_forever st e && (custom_expired now st e || global_expired now st e).

Definition to_candidate (st : store) (e : cache_entry) : candidate :=
  let '(policy, days) := get_retention_policy st in
  let size := if bool_decide (file_size e = 0%Z) && exists_ (media_path e) st
              then getsize (media_path e) st
              else file_size e in
  let why :=
    if bool_decide (vm_policy st e = Some "custom")
    then CustomPolicyExpired (vm_expires st e)
    else if bool_decide (policy = "delete_after_asr") then GlobalDeleteAfterASR
    else if bool_decide (policy = "keep_days") then GlobalKeepDays days
    else GlobalPolicyExpiry in
  Candidate (source_id e) (quality e) (media_path e) size
            (if truthy (vm_title st e) then default "" (vm_title st e)
             else source_id e)
            why
            (if truthy (vm_policy st e) then default "" (vm_policy st e)
             else "global").

Definition get_gc_candidates (now : Z) (st : store) : list candidate :=
  map (to_candidate st)
      (List.filter (fun e => negb (bool_decide (vm_policy st e = Some "keep_forever")))
                   (List.filter (gc_where now st) (media_cache_entries st))).

(** Running totals [(deleted_count, freed_bytes)] and the store. *)
Definition gc_state : Type := (Z * Z) * store.

(** Pass 1: the body of [for item in candidates]. *)
Definition gc_delete_candidate (target_source_ids : option (list string))
    (acc : gc_state) (item : candidate) : gc_state :=
  let '((deleted_count, freed_bytes), st) := acc in
  let skip := match target_source_ids with
              | Some ids => negb (bool_decide (cand_source_id item ∈ ids))
              | None => false
              end in
  if skip then acc
  else
    let st1 := delete_cache_entry (cand_source_id item) (cand_quality item) st in
    if exists_ (cand_media_path item) st1
    then ((deleted_count + 1, freed_bytes + cand_filesize item)%Z,
          remove (cand_media_path item) st1)
    else ((deleted_count, freed_bytes), st1).

Definition gc_expired (target_source_ids : option (list string)) (now : Z)
    (acc : gc_state) : gc_state :=
  foldl (gc_delete_candidate target_source_ids) acc
        (get_gc_candidates now acc.2).

(** Pass 2: a regular file directly inside the cache directory whose
    path no row records. *)
Fixpoint drop_prefix (p s : string) : option string :=
  match p, s with
  | EmptyString, _ => Some s
  | String a p', String b s' => if decide (a = b) then drop_prefix p' s' else None
  | String _ _, EmptyString => None
  end.

Definition in_cache_dir (p : string) : bool :=
  match drop_prefix (MEDIA_CACHE_DIR +:+ "/") p with
  | Some name => negb (Downloaders.contains "/" name)
  | None => false
  end.

Definition is_orphan (st : store) (p : string) : bool :=
  in_cache_dir p
  && negb (bool_decide (p ∈ map media_path (media_cache_entries st))).

Definition gc_orphans (acc : gc_state) : gc_state :=
  let '((deleted_count, freed_bytes), st) := acc in
  let orphans := filter (fun kv => is_orphan st kv.1 = true) (files st) in
  ((deleted_count + Z.of_nat (size orphans),
    freed_bytes + map_fold (fun _ sz a => sz + a) 0 orphans)%Z,
   set_files (filter (fun kv => is_orphan st kv.1 = false) (files st)) st).

(** Pass 3: rows ordered by [cached_at] ascending (a stable insertion
    sort), then the eviction loop. *)
Fixpoint insert_by_cached_at (e : cache_entry) (l : list cache_entry)
    : list cache_entry :=
  match l with
  | [] => [e]
  | x :: rest =>
      if (cached_at e <? cached_at x)%Z then e :: l
      else x :: insert_by_cached_at e rest
  end.

Definition sort_by_cached_at (l : list cache_entry) : list cache_entry :=
  foldr insert_by_cached_at [] l.

Definition capacity_candidates (st : store) : list cache_entry :=
  sort_by_cached_at (List.filter (not_keep_forever st) (media_cache_entries st)).

Fixpoint capacity_loop (rows : list cache_entry) (bytes_to_free : Z)
    (freed_in_capacity_check : Z) (acc : gc_state) : gc_state :=
  match rows with
  | [] => acc
  | row :: rest =>
      if (bytes_to_free <=? freed_in_capacity_check)%Z then acc
      else
        let '((deleted_count, freed_bytes), st) := acc in
        let st1 := delete_cache_entry (source_id row) (quality row) st in
        if exists_ (media_path row) st1 then
          let size := getsize (media_path row) st1 in
          capacity_loop rest bytes_to_free (freed_in_capacity_check + size)%Z
            ((deleted_count + 1, freed_bytes + size)%Z,
             remove (media_path row) st1)
        else
          capacity_loop rest bytes_to_free freed_in_capacity_check
            ((deleted_count, freed_bytes), st1)
  end.

Section RunGc.

(** [float(s)]: [None] when it raises [ValueError]. The decimal syntax
    of floats is not modelled; the value read is a rational. *)
Variable float_of_str : string -> option Q.

Definition capacity_gb (st : store) : Q :=
  default 0%Q (float_of_str (get_system_config "media_cache_capacity_gb" "0" st)).

(** [int(capacity_gb * 1024 * 1024 * 1024)] *)
Definition limit_bytes (st : store) : Z :=
  Qfloor (capacity_gb st * inject_Z 1073741824)%Q.

Definition gc_capacity (acc : gc_state) : gc_state :=
  let st := acc.2 in
  if Qlt_le_dec 0 (capacity_gb st) then
    let current_size := total_size (media_cache_entries st) in
    if (limit_bytes st <? current_size)%Z then
      capacity_loop (capacity_candidates st)
                    (current_size - limit_bytes st)%Z 0%Z acc
    else acc
  else acc.

Definition run_gc (target_source_ids : option (list string)) (now : Z)
    (st : store) : gc_state :=
  let acc1 := gc_expired target_source_ids now ((0, 0)%Z, st) in
  match target_source_ids with
  | None => gc_capacity (gc_orphans acc1)
  | Some _ => acc1
  end.

End RunGc.

End MediaCacheService.

(** ** Transcription pipeline: app/services/transcription/pipeline.py *)

Module Pipeline.
Import Store.

(** The process-wide objects the pipeline works on: the database and
    file system, [task_manager], [asr_client], and the clock. *)
Record world : Type := World {
  db : store;
  registry : TaskManager.registry;
  asr : ASRClient.client;
  clock : Z
}.

Definition set_db (d : store) (w : world) : world :=
  World d (registry w) (asr w) (clock w).
Definition set_registry (r : TaskManager.registry) (w : world) : world :=
  World (db w) r (asr w) (clock w).

(** The local variables the [finally] block reads. *)
Record locals : Type := Locals {
  audio_path : option string;
  using_cache : bool;
  is_temp_derived : bool
}.

Definition pstate : Type := locals * world.

(** Computations of the coroutine: they update the locals and the
    world, and end with a value or a raised exception. *)
Definition M (A : Type) : Type := pstate -> result A * pstate.

#[global] Instance M_ret : MRet M := fun A a s => (Ok a, s).
#[global] Instance M_bind : MBind M := fun A B f m s =>
  match m s with
  | (Ok a, s1) => f a s1
  | (Raise e, s1) => (Raise e, s1)
  end.

Definition raise {A : Type} (e : exn) : M A := fun s => (Raise e, s).

(** [try: body except Exception: handler] *)
Definition try_except {A : Type} (body : M A) (handler : exn -> M A) : M A :=
  fun s =>
    match body s with
    | (Ok a, s1) => (Ok a, s1)
    | (Raise e, s1) => handler e s1
    end.

Definition get_locals : M locals := fun s => (Ok s.1, s).
Definition get_world : M world := fun s => (Ok s.2, s).
Definition set_locals (l : locals) : M unit := fun s => (Ok tt, (l, s.2)).
Definition modify_world (f : world -> world) : M unit :=
  fun s => (Ok tt, (s.1, f s.2)).
Definition when (b : bool) (m : M unit) : M unit := if b then m else mret tt.

(** An awaited collaborator: it may change the world (other coroutines
    run meanwhile) and returns or raises. *)
Definition call {A : Type} (f : world -> result A * world) : M A :=
  fun s => let '(r, w) := f s.2 in (r, (s.1, w)).

(** A call that may raise, on the registry or the client. *)
Definition lift_result {A : Type} (f : world -> result A) : M A :=
  fun s => (f s.2, s).

(** app/db/transcriptions.py: UPDATE ... WHERE id = ? *)
Definition update_task_status (item_id : Z) (v : string) (w : world) : world :=
  set_db (set_transcriptions
            (alter (fun r => Transcription (source r) (raw_text r) v
                                           (asr_model r) (is_subtitle r))
                   item_id (transcriptions (db w))) (db w)) w.
Definition update_transcription_text (item_id : Z) (v : string) (w : world)
    : world :=
  set_db (set_transcriptions
            (alter (fun r => Transcription (source r) v (tstatus r)
                                           (asr_model r) (is_subtitle r))
                   item_id (transcriptions (db w))) (db w)) w.
Definition update_transcription_asr_model (item_id : Z) (v : string) (w : world)
    : world :=
  set_db (set_transcriptions
            (alter (fun r => Transcription (source r) (raw_text r) (tstatus r)
                                           v (is_subtitle r))
                   item_id (transcriptions (db w))) (db w)) w.
Definition update_transcription_is_subtitle (item_id : Z) (v : bool) (w : world)
    : world :=
  set_db (set_transcriptions
            (alter (fun r => Transcription (source r) (raw_text r) (tstatus r)
                                           (asr_model r) v)
                   item_id (transcriptions (db w))) (db w)) w.

Definition start_task (task_id : Z) (m : gmap string string) (w : world) : world :=
  set_registry (TaskManager.start_task task_id (Some m) (clock w) (registry w)) w.
Definition update_progress (task_id : Z) (p : Z) (msg : string) (w : world)
    : world :=
  set_registry (TaskManager.update_progress task_id p (Some msg) (registry w)) w.
Definition finish_task (task_id : Z) (w : world) : world :=
  set_registry (TaskManager.finish_task task_id (clock w) (registry w)) w.
Definition check_cancel (task_id : Z) : M unit :=
  lift_result (fun w => TaskManager.check_cancel task_id (registry w)).

(** The arguments of [run_transcription_pipeline] that are data. *)
Record args : Type := Args {
  transcription_id : Z;
  source_key : string;
  source_label : string;
  task_type : string;
  use_uvr : bool;
  language : string;
  prompt : option string;
  output_format : option string;
  only_get_subtitles : bool;
  auto_analyze_prompt : option string
}.

(** The callables the pipeline awaits: its [downloader] and
    [pre_asr_hook] arguments, [run_cancellable_process] on
    [separate_vocals], [_run_asr_with_cancel] and
    [_trigger_auto_analysis]. *)
Record collaborators : Type := Collaborators {
  downloader : Z -> world -> result string * world;
  pre_asr_hook : option (Z -> world -> result (option string) * world);
  separate_vocals : Z -> option string -> world -> result (option string) * world;
  run_asr : Z -> option string -> string -> option string -> string ->
            world -> result string * world;
  trigger_auto_analysis : Z -> string -> world -> result unit * world
}.

Section Run.
Variable env : collaborators.
Variable a : args.

#[local] Abbreviation tid := (transcription_id a).

(** 1. Check Cache *)
Definition check_cache : M unit :=
  w ← get_world;
  match MediaCacheService.find_existing_cache (Some (source_key a)) None
          "transcription" (db w) with
  | Some (cached_rel_path, cached_quality) =>
      if exists_ cached_rel_path (db w) then
        set_locals (Locals (Some cached_rel_path) true false);;
        modify_world (fun w =>
          set_db (MediaCacheService.assign_cache tid cached_rel_path
                    cached_quality (clock w) (db w)) w);;
        modify_world (update_progress tid 30
          ("Using cached media (" +:+ cached_quality +:+ ")..."))
      else mret tt
  | None => mret tt
  end.

(** 1.5 Pre-ASR hook; the result is [true] when the pipeline returned
    from inside it. *)
Definition hook_stage : M bool :=
  l ← get_locals;
  match pre_asr_hook env with
  | Some hook =>
      if negb (using_cache l) then
        try_except
          (skipped_result ← call (hook tid);
           if truthy skipped_result then
             let text := default "" skipped_result in
             modify_world (update_transcription_text tid text);;
             modify_world (update_transcription_asr_model tid "Subtitle");;
             modify_world (update_transcription_is_subtitle tid true);;
             modify_world (update_task_status tid "completed");;
             modify_world (finish_task tid);;
             when (truthy (auto_analyze_prompt a))
                  (call (trigger_auto_analysis env tid text));;
             mret true
           else mret false)
          (fun _ => mret false)
      else mret false
  | None => mret false
  end.

(** 2. Download (if not cached) *)
Definition download_stage : M unit :=
  l ← get_locals;
  if negb (using_cache l) then
    modify_world (update_progress tid 0
      ("Downloading (" +:+ source_label a +:+ ")..."));;
    p ← call (downloader env tid);
    l ← get_locals;
    set_locals (Locals (Some p) (using_cache l) (is_temp_derived l))
  else mret tt.

(** 3. UVR *)
Definition uvr_stage : M unit :=
  if use_uvr a then
    modify_world (update_progress tid 30 "Separating Vocals (UVR5)...");;
    w ← get_world;
    (if TaskManager.is_cancelled tid (registry w)
     then raise (TaskCancelledException "") else mret tt);;
    l ← get_locals;
    vocal_path ← call (separate_vocals env tid (audio_path l));
    w ← get_world;
    if truthy vocal_path && exists_ (default "" vocal_path) (db w) then
      l ← get_locals;
      when (negb (using_cache l)
            && truthy (audio_path l)
            && exists_ (default "" (audio_path l)) (db w))
           (modify_world (fun w =>
              set_db (remove (default "" (audio_path l)) (db w)) w));;
      set_locals (Locals vocal_path false true)
    else mret tt
  else mret tt.

(** 4. ASR: the progress message, then the remote call. *)
Definition asr_msg (w : world) : string :=
  match ASRClient.select_worker (asr w) None with
  | Ok engine_key =>
      let queue_depth := default 0%Z (ASRClient._last_health (asr w) !! engine_key) in
      if (0 <? queue_depth)%Z
      then "Queued (" +:+ str_of_Z queue_depth +:+ " ahead)..."
      else "Transcribing (" +:+ engine_key +:+ ")..."
  | Raise _ => "Transcribing..."
  end.

Definition final_format : string :=
  if truthy (output_format a) then default "" (output_format a)
  else if bool_decide (task_type a = "subtitle") then "srt" else "text".

Definition asr_stage : M unit :=
  let val := if use_uvr a then 50%Z else 30%Z in
  w ← get_world;
  modify_world (update_progress tid val (asr_msg w));;
  l ← get_locals;
  raw_text ← call (run_asr env tid (audio_path l) (language a) (prompt a)
                           final_format);
  (* 5. Finalize *)
  modify_world (update_progress tid 95 "Finalizing...");;
  modify_world (update_transcription_text tid raw_text);;
  modify_world (update_task_status tid "completed");;
  when (truthy (auto_analyze_prompt a))
       (call (trigger_auto_analysis env tid raw_text));;
  modify_world (finish_task tid).

(** The body of the [try] block. *)
Definition pipeline_body : M unit :=
  modify_world (update_task_status tid "processing");;
  modify_world (start_task tid
    (<["title" := "[" +:+ source_label a +:+ "] Transcription"]>
       (<["source" := source_key a]> ∅)));;
  check_cache;;
  returned ← hook_stage;
  if returned : bool then mret tt
  else
    (if only_get_subtitles a
     then raise (Exception "只获取字幕模式下未能找到或不支持提取原生字幕")
     else mret tt);;
    download_stage;;
    check_cancel tid;;
    uvr_stage;;
    check_cancel tid;;
    asr_stage.

(** The [except] clauses. *)
Definition handle (e : exn) (w : world) : world :=
  if is_TaskCancelled e then
    finish_task tid
      (update_transcription_text tid "Task Cancelled"
         (update_task_status tid "cancelled" w))
  else
    finish_task tid
      (update_transcription_text tid ("Error: " +:+ exn_msg e)
         (update_task_status tid "failed" w)).

(** 6. Cleanup: the [finally] block. *)
Definition cleanup (l : locals) (w : world) : world :=
  if is_temp_derived l then
    if truthy (audio_path l) && exists_ (default "" (audio_path l)) (db w)
    then set_db (remove (default "" (audio_path l)) (db w)) w
    else w
  else if negb (using_cache l) then
    set_db (MediaCacheService.cleanup_or_delete (audio_path l) tid
              (Some (source_key a)) "audio_only" (clock w) (db w)) w
  else w.

Definition initial_locals : locals := Locals None false false.

Definition run_transcription_pipeline (w : world) : world :=
  match pipeline_body (initial_locals, w) with
  | (Ok _, (l, w1)) => cleanup l w1
  | (Raise e, (l, w1)) => cleanup l (handle e w1)
  end.

End Run.

End Pipeline.

(** ** Runtime configuration of the ASR client: app/asr/client.py *)

Module ASRClientConfig.
Import Store ASRClient.

(** app/db/system_config.py: INSERT OR REPLACE *)
Definition set_system_config (key value : string) (st : store) : store :=
  MkStore (media_cache_entries st) (video_meta st) (transcriptions st)
          (<[key := value]> (system_configs st)) (files st).

(** [str(b).lower()] *)
Definition str_lower_of_bool (b : bool) : string :=
  if b then "true" else "false".

Section Config.

(** The keys of [settings.ASR_WORKERS], in the order of the dictionary. *)
Variable workers : list string.

(** [json.dumps] and [json.loads] on the values the client stores,
    lists of strings; [None] stands for an exception of [json.loads]. *)
Variable json_dumps : list string -> string.
Variable json_loads : string -> option (list string).

(** [e in self.workers or e == "bailian"] *)
Definition known_engine (e : string) : bool :=
  bool_decide (e ∈ workers) || bool_decide (e = "bailian").

(** The [for w in self.workers] loop of [update_config]. *)
Definition add_missing (valid_prio : list string) (ws : list string)
    : list string :=
  foldl (fun acc w => if bool_decide (w ∈ acc) then acc else acc ++ [w])
        valid_prio ws.

Definition new_priority (priority : list string) : list string :=
  let valid_prio := List.filter known_engine priority in
  let valid_prio := add_missing valid_prio workers in
  if bool_decide ("bailian" ∈ valid_prio) then valid_prio
  else valid_prio ++ ["bailian"].

Definition _save_config_to_db (c : config) (st : store) : store :=
  let st1 := set_system_config "asr_priority" (json_dumps (priority c)) st in
  let st2 := set_system_config "asr_strict_mode"
               (str_lower_of_bool (strict_mode c)) st1 in
  let st3 := set_system_config "asr_disabled_engines"
               (json_dumps (disabled_engines c)) st2 in
  if truthy (active_engine c)
  then set_system_config "asr_active_engine" (default "" (active_engine c)) st3
  else st3.

(** An argument left at [None] keeps the configured value. *)
Definition update_config (priority_ : option (list string))
    (strict_mode_ : option bool) (active_engine_ : option string)
    (disabled_engines_ : option (list string)) (c : config) (st : store)
    : config * store :=
  let c1 := match priority_ with
            | Some p => Config (new_priority p) (strict_mode c)
                               (active_engine c) (disabled_engines c)
            | None => c
            end in
  let c2 := match strict_mode_ with
            | Some b => Config (priority c1) b (active_engine c1)
                               (disabled_engines c1)
            | None => c1
            end in
  let c3 := match active_engine_ with
            | Some e => if known_engine e
                        then Config (priority c2) (strict_mode c2) (Some e)
                                    (disabled_engines c2)
                        else c2
            | None => c2
            end in
  let c4 := match disabled_engines_ with
            | Some d => Config (priority c3) (strict_mode c3)
                               (active_engine c3) d
            | None => c3
            end in
  (c4, _save_config_to_db c4 st).

(** [_load_config_from_db], on the configuration built so far. A
    [json.loads] that fails on the priority ends the loading (the outer
    [except]); one that fails on the disabled engines gives []. A
    configuration without the key "disabled_engines" reads as []. *)
Definition _load_config_from_db (c : config) (st : store) : config :=
  let saved_priority := system_configs st !! "asr_priority" in
  let after_priority :=
    if truthy saved_priority
    then match json_loads (default "" saved_priority) with
         | Some p => Some (Config p (strict_mode c) (active_engine c)
                                  (disabled_engines c))
         | None => None
         end
    else Some c in
  match after_priority with
  | None => c
  | Some c1 =>
      let c2 := match system_configs st !! "asr_strict_mode" with
                | Some saved_strict =>
                    Config (priority c1)
                           (bool_decide (Downloaders.lower saved_strict = "true"))
                           (active_engine c1) (disabled_engines c1)
                | None => c1
                end in
      let saved_engine := system_configs st !! "asr_active_engine" in
      let c3 := if truthy saved_engine
                then Config (priority c2) (strict_mode c2) saved_engine
                            (disabled_engines c2)
                else c2 in
      let saved_disabled := system_configs st !! "asr_disabled_engines" in
      Config (priority c3) (strict_mode c3) (active_engine c3)
             (if truthy saved_disabled
              then default [] (json_loads (default "" saved_disabled))
              else [])
  end.

End Config.

End ASRClientConfig.

(** ** Manual deletion and integrity checks of the media cache:
    app/services/media_cache.py, app/db/media_cache_entries.py *)

Module MediaCacheIntegrity.
Import Store MediaCacheService.

#[global] Instance cache_entry_eq_dec : EqDecision cache_entry.
Proof. solve_decision. Defined.

(** ORDER BY cached_at DESC; rows with equal timestamps come in an
    order SQLite does not fix, here the one of this insertion sort. *)
Fixpoint insert_by_cached_at_desc (e : cache_entry) (l : list cache_entry)
    : list cache_entry :=
  match l with
  | [] => [e]
  | x :: rest =>
      if (cached_at x <? cached_at e)%Z then e :: l
      else x :: insert_by_cached_at_desc e rest
  end.

(** app/db/media_cache_entries.py *)
Definition get_cache_entries (s : string) (st : store) : list cache_entry :=
  foldr insert_by_cached_at_desc []
        (List.filter (fun e => bool_decide (source_id e = s))
                     (media_cache_entries st)).

(** DELETE ... WHERE source_id = ?; the result is [cursor.rowcount]. *)
Definition delete_all_cache_entries (s : string) (st : store) : Z * store :=
  (Z.of_nat (length (List.filter (fun e => bool_decide (source_id e = s))
                                 (media_cache_entries st))),
   set_entries (List.filter (fun e => negb (bool_decide (source_id e = s)))
                            (media_cache_entries st)) st).

(** The body of [for entry in entries] in [delete_cache_for_video]. *)
Definition delete_entry_file (acc : bool * store) (entry : cache_entry)
    : bool * store :=
  let '(deleted, st) := acc in
  if exists_ (media_path entry) st
  then (true, remove (media_path entry) st)
  else (deleted, st).

Definition delete_cache_for_video (s : string) (st : store) : bool * store :=
  let entries := get_cache_entries s st in
  let '(deleted, st1) := foldl delete_entry_file (false, st) entries in
  (deleted, (delete_all_cache_entries s st1).2).

(** [scan_integrity]: the rows whose file is missing, and the files of
    the cache directory that no row records, each with its size. The
    files are listed in the order of [os.listdir], which is not fixed;
    here it is the order of the map. The [id] column of a row is not
    represented. *)
Definition db_orphans (st : store) : list cache_entry :=
  List.filter (fun e => negb (exists_ (media_path e) st)) (media_cache_entries st).

Definition fs_orphans (st : store) : list (string * Z) :=
  map_to_list (filter (fun kv => is_orphan st kv.1 = true) (files st)).

Definition scan_integrity (st : store)
    : list cache_entry * list (string * Z) :=
  (db_orphans st, fs_orphans st).

(** [delete_db_orphans()], as [sync_integrity] calls it: every row of
    the report is deleted. (The selection by [target_ids] needs the
    [id] column.) *)
Definition delete_db_orphans (st : store) : Z * store :=
  let candidates := (scan_integrity st).1 in
  (Z.of_nat (length candidates),
   set_entries (list_difference (media_cache_entries st) candidates) st).

(** The file name of a path of the cache directory. *)
Definition filename_of (path : string) : string :=
  default path (drop_prefix (MEDIA_CACHE_DIR +:+ "/") path).

(** The body of [for item in candidates] in [delete_fs_orphans]. *)
Definition delete_fs_orphan (target_filenames : option (list string))
    (acc : (Z * Z) * store) (item : string * Z) : (Z * Z) * store :=
  let '((count, freed), st) := acc in
  let skip := match target_filenames with
              | Some names => negb (bool_decide (filename_of item.1 ∈ names))
              | None => false
              end in
  if skip then acc
  else if exists_ item.1 st
       then ((count + 1, freed + item.2)%Z, remove item.1 st)
       else acc.

Definition delete_fs_orphans (target_filenames : option (list string))
    (st : store) : (Z * Z) * store :=
  foldl (delete_fs_orphan target_filenames) ((0, 0)%Z, st)
        (scan_integrity st).2.

(** The dictionary [sync_integrity] returns; [details] holds the
    texts of its "action" entries. *)
Record sync_report : Type := SyncReport {
  db_cleaned : Z;
  orphans_found : Z;
  fs_cleaned : Z;
  details : list string
}.

Definition sync_integrity (delete_orphans : bool) (st : store)
    : sync_report * store :=
  let '(db_cleaned_, st1) := delete_db_orphans st in
  let orphans_found_ := Z.of_nat (length (scan_integrity st1).2) in
  let '((fs_cleaned_count, fs_cleaned_bytes), st2) :=
    if delete_orphans then delete_fs_orphans None st1
    else ((0, 0)%Z, st1) in
  let details1 :=
    if (0 <? db_cleaned_)%Z
    then ["Removed " +:+ str_of_Z db_cleaned_ +:+ " missing DB entries"]
    else [] in
  let details2 :=
    if (0 <? fs_cleaned_count)%Z
    then ["Deleted " +:+ str_of_Z fs_cleaned_count +:+ " orphan files ("
          +:+ str_of_Z fs_cleaned_bytes +:+ " bytes)"]
    else if (0 <? orphans_found_)%Z
    then ["Found " +:+ str_of_Z orphans_found_
          +:+ " orphan files (files not in DB)"]
    else [] in
  (SyncReport db_cleaned_ orphans_found_ fs_cleaned_count
              (details1 ++ details2),
   st2).

End MediaCacheIntegrity.

(** * Vocabulary of the statements *)

Module TaskManagerSpec.
Import TaskManager.

(** The record [finish_task] writes for a task found as [t]. *)
Definition finished_record (t : task) (now : Z) : task :=
  Task (if decide (status t = cancelled ∨ status t = failed)
        then status t else completed)
       (if decide (status t = cancelled ∨ status t = failed)
        then progress t else 100%Z)
       (message t) (cancel_event t) (start_time t) (Some now) (meta t).

(** The flag of a registered task, once set, is set in every later
    record of that task. *)
Definition flagged (i : Z) (r : registry) : Prop :=
  ∀ t, tasks r !! i = Some t → cancel_event t = true.

Definition other_jobs : list op :=
  flat_map (fun i => [OpStart i None 0; OpFinish i 1])
           (map Z.of_nat (seq 2 20)).


End TaskManagerSpec.

Module ASRClientSpec.
Import ASRClient.

(** Three workers in priority order: "A" is down, "B" and "C" are up;
    "A" is the pinned active engine and nothing is disabled. *)
Definition abc (strict : bool) : client :=
  Client (<["A" := false]> (<["B" := true]> (<["C" := true]> ∅)))
         (Config ["A"; "B"; "C"] strict (Some "A") [])
         ∅.

End ASRClientSpec.

Module DownloadersSpec.
Import Downloaders.

(** The test [check_and_reraise_cancel] makes. *)
Definition is_cancellation (e : exn) : bool :=
  contains "cancelled" (lower (exn_msg e))
  || bool_decide (exn_type e = "TaskCancelledException").

(** What the wrapper returns when the invocation with outcome [o] is
    its last one. *)
Definition final_result (o : result (option string)) : result (option string) :=
  match o with
  | Ok v => Ok v
  | Raise e => if is_cancellation e then Raise e else Ok None
  end.

(** Attempts [first .. last], with the back-off sleeps between them. *)
Definition attempts_log (retry_delay : Z) (first last : nat) : list event :=
  flat_map (fun j => [Call j; Sleep (retry_delay * 2 ^ Z.of_nat j)])
           (seq first (last - first))
  ++ [Call last].

End DownloadersSpec.

Module MediaCacheSpec.
Import Store MediaCacheService.

(** The text of [s] before its first colon: what [split(":")] gives as
    the field that starts [s]. *)
Definition until_colon (s : string) : string :=
  default "" (head (PyStr.split ":"%char s)).


(** A store with two temporary downloads of the source "S". *)
Definition st_two_temps : store :=
  MkStore [] ∅ (<[7%Z := Transcription "S" "" "queued" "" false]> ∅) ∅
          (<["/tmp/a.mp3" := 10%Z]> (<["/tmp/b.m4a" := 20%Z]> (<["/tmp/c.mp3" := 30%Z]> ∅))).


End MediaCacheSpec.

Module GcSpec.
Import Store MediaCacheService.

Definition key (e : cache_entry) : string * string := (source_id e, quality e).

(** The store is consistent when the rows respect UNIQUE(source_id,
    quality), record pairwise different paths, and every recorded file
    is on disk with the recorded size. *)
Record consistent (st : store) : Prop := Consistent {
  keys_unique : NoDup (key <$> media_cache_entries st);
  paths_unique : NoDup (media_path <$> media_cache_entries st);
  files_present : ∀ e, e ∈ media_cache_entries st →
                       files st !! media_path e = Some (file_size e)
}.

Definition distinct_timestamps (st : store) : Prop :=
  NoDup (cached_at <$> media_cache_entries st).

(** What a pass does to the store when it deletes the row [e]. *)
Definition evict (e : cache_entry) (st : store) : store :=
  remove (media_path e) (delete_cache_entry (source_id e) (quality e) st).

Definition evict_all (l : list cache_entry) (st : store) : store :=
  foldl (fun s e => evict e s) st l.

(** The store after the expiry pass and the orphan pass of a full GC. *)
Definition after_expiry_and_orphans (now : Z) (st : store) : store :=
  (gc_orphans (gc_expired None now ((0, 0)%Z, st))).2.

Definition older_or_same (a b : cache_entry) : Prop :=
  (cached_at a <= cached_at b)%Z.

(** The rows the expiry pass of a full GC deletes. *)
Definition expired_rows (now : Z) (st : store) : list cache_entry :=
  List.filter (fun e => negb (bool_decide (vm_policy st e = Some "keep_forever")))
              (List.filter (gc_where now st) (media_cache_entries st)).

(** [float(s)] on integer literals, enough for the configurations used
    as examples here. *)
Definition float_of_int_str (s : string) : option Q := inject_Z <$> PyStr.int s.

Definition GB : Z := 1073741824.

(** Always keep; budget 1 GB; the oldest entry (3 GB) is pinned with
    keep_forever, the newer one (1 GB) is not. *)
Definition st_over_budget : store :=
  MkStore [CacheEntry "A" "best" "data/media_cache/a.mp4" (3 * GB) 100;
           CacheEntry "B" "best" "data/media_cache/b.mp4" GB 200]
          (<["A" := VideoMeta None (Some "keep_forever") None]> ∅)
          ∅
          (<["media_retention_policy" := "always_keep"]>
             (<["media_cache_capacity_gb" := "1"]> ∅))
          (<["data/media_cache/a.mp4" := (3 * GB)%Z]>
             (<["data/media_cache/b.mp4" := GB]> ∅)).

(** Budget 2 GB; three unpinned entries of 1 GB each and a pinned one. *)
Definition st_three : store :=
  MkStore [CacheEntry "B" "best" "data/media_cache/b.mp4" GB 200;
           CacheEntry "A" "best" "data/media_cache/a.mp4" 5 100;
           CacheEntry "C" "best" "data/media_cache/c.mp4" GB 300;
           CacheEntry "D" "best" "data/media_cache/d.mp4" GB 400]
          (<["A" := VideoMeta None (Some "keep_forever") None]> ∅)
          ∅
          (<["media_retention_policy" := "always_keep"]>
             (<["media_cache_capacity_gb" := "2"]> ∅))
          (<["data/media_cache/a.mp4" := 5%Z]>
             (<["data/media_cache/b.mp4" := GB]>
                (<["data/media_cache/c.mp4" := GB]>
                   (<["data/media_cache/d.mp4" := GB]> ∅)))).

End GcSpec.

Module PipelineSpec.
Import Store Pipeline.

(** What the [except] clauses write into the job's row. *)
Definition outcome_row (e : exn) (r : transcription) : transcription :=
  if is_TaskCancelled e
  then Transcription (source r) "Task Cancelled" "cancelled"
                     (asr_model r) (is_subtitle r)
  else Transcription (source r) ("Error: " +:+ exn_msg e) "failed"
                     (asr_model r) (is_subtitle r).

(** A job for the source "S" from Bilibili, registered as row 7. *)
Definition job (uvr : bool) : args :=
  Args 7 "S" "Bilibili" "transcribe" uvr "zh" None None false None.

Definition w0 : world :=
  World (MkStore [] ∅ (<[7%Z := Transcription "S" "" "queued" "" false]> ∅) ∅ ∅)
        TaskManager.empty
        (ASRClient.Client (<["sensevoice" := true]> ∅)
           (ASRClient.Config ["sensevoice"] false (Some "sensevoice") []) ∅)
        100.

(** The same world with the audio of "S" already cached. *)
Definition w_cached : world :=
  World (MkStore [CacheEntry "S" "audio_only" "data/media_cache/s_audio_only.mp3" 10 50]
                 ∅ (<[7%Z := Transcription "S" "" "queued" "" false]> ∅) ∅
                 (<["data/media_cache/s_audio_only.mp3" := 10%Z]> ∅))
        TaskManager.empty
        (ASRClient.Client (<["sensevoice" := true]> ∅)
           (ASRClient.Config ["sensevoice"] false (Some "sensevoice") []) ∅)
        100.

Definition write_file (p : string) (size : Z) (w : world) : world :=
  set_db (set_files (<[p := size]> (files (db w))) (db w)) w.

(** A downloader that stores 10 bytes and returns their path. *)
Definition download_ok (_ : Z) (w : world) : result string * world :=
  (Ok "data/temp_downloads/x.mp3", write_file "data/temp_downloads/x.mp3" 10 w).

Definition download_fails (_ : Z) (w : world) : result string * world :=
  (Raise (Exception "Failed to download audio from Bilibili"), w).

(** The download succeeds while a cancel request for the job arrives. *)
Definition download_then_cancel (tid : Z) (w : world) : result string * world :=
  (Ok "data/temp_downloads/x.mp3",
   set_registry (TaskManager.cancel_task tid (registry w)).2
                (write_file "data/temp_downloads/x.mp3" 10 w)).

Definition no_vocals (_ : Z) (_ : option string) (w : world)
    : result (option string) * world := (Ok None, w).

(** Vocal isolation writes a new file next to its input. *)
Definition vocals_ok (_ : Z) (p : option string) (w : world)
    : result (option string) * world :=
  (Ok (Some "data/temp_downloads/x_(Vocals).wav"),
   write_file "data/temp_downloads/x_(Vocals).wav" 7 w).

(** [separate_vocals] without the separator installed: it returns its
    input path. *)
Definition vocals_unavailable (_ : Z) (p : option string) (w : world)
    : result (option string) * world := (Ok p, w).

Definition asr_hello (_ : Z) (_ : option string) (_ : string)
    (_ : option string) (_ : string) (w : world) : result string * world :=
  (Ok "hello", w).

Definition analysis_ok (_ : Z) (_ : string) (w : world) : result unit * world :=
  (Ok tt, w).

Definition hook_raises (_ : Z) (w : world) : result (option string) * world :=
  (Raise (Exception "subtitle request failed"), w).

Definition env_of (d : Z -> world -> result string * world)
    (h : option (Z -> world -> result (option string) * world))
    (v : Z -> option string -> world -> result (option string) * world)
    : collaborators :=
  Collaborators d h v asr_hello analysis_ok.

(** The world the [finally] block starts from: the body's last world,
    after the [except] clause when the body raised. *)
Definition before_cleanup (a : args) (r : result unit * pstate) : world :=
  match r.1 with
  | Ok _ => r.2.2
  | Raise e => handle a e r.2.2
  end.

(** The locals never call for [cleanup_or_delete]. *)
Definition no_handover (l : locals) : Prop :=
  using_cache l = true ∨ is_temp_derived l = true.

(** A computation keeps [no_handover] locals, however it ends. *)
Definition keeps_no_handover {A : Type} (m : M A) : Prop :=
  ∀ s, no_handover s.1 → no_handover (m s).2.1.

(** Everything after the cache check. *)
Definition after_check_cache (env : collaborators) (a : args) : M unit :=
  returned ← hook_stage env a;
  if returned : bool then mret tt
  else
    (if only_get_subtitles a
     then raise (Exception "只获取字幕模式下未能找到或不支持提取原生字幕")
     else mret tt);;
    download_stage env a;;
    check_cancel (transcription_id a);;
    uvr_stage env a;;
    check_cancel (transcription_id a);;
    asr_stage env a.

(** The world in which the cache check runs. *)
Definition started (a : args) (w : world) : world :=
  start_task (transcription_id a)
    (<["title" := "[" +:+ source_label a +:+ "] Transcription"]>
       (<["source" := source_key a]> ∅))
    (update_task_status (transcription_id a) "processing" w).

End PipelineSpec.

Module TaskManagerSpecMore.
Import TaskManager.

(** No cancel request is recorded for task [i]. *)
Definition unflagged (i : Z) (r : registry) : Prop :=
  ∀ t, tasks r !! i = Some t → cancel_event t = false.

(** Task [i] is registered and waits in no history slot. *)
Definition running (i : Z) (r : registry) : Prop :=
  is_Some (tasks r !! i) ∧ i ∉ _finished_ids r.

(** Twenty-five jobs, each started and then finished. *)
Definition many_jobs : list op :=
  flat_map (fun i => [OpStart i None 0; OpFinish i 1])
           (map Z.of_nat (seq 100 25)).

End TaskManagerSpecMore.

Module ASRClientSpecMore.
Import Store ASRClient ASRClientConfig.

(** Every engine of [l] is skipped or offline. *)
Definition none_usable (c : client) (l : list string) : Prop :=
  Forall (fun x => skipped c x = true ∨ available c x = false) l.

(** Engine names separated by commas, as a stand-in for JSON text in
    examples whose names hold no comma. *)
Definition commas (l : list string) : string := String.concat "," l.
Definition uncommas (s : string) : option (list string) :=
  if bool_decide (s = "") then Some [] else Some (PyStr.split ","%char s).

Definition empty_store : store := MkStore [] ∅ ∅ ∅ ∅.

End ASRClientSpecMore.

Module DownloadersSpecMore.
Import Downloaders.

(** How often the wrapped function was invoked, and the seconds slept. *)
Definition calls (log : list event) : nat :=
  length (List.filter (fun ev => match ev with Call _ => true | Sleep _ => false end) log).

Definition slept (log : list event) : Z :=
  foldr (fun ev acc => match ev with Call _ => acc | Sleep s => (s + acc)%Z end) 0%Z log.

(** A download that meets a network error at every attempt. *)
Definition always_times_out : wrapped :=
  fun _ => Raise (Exception "HTTPSConnectionPool: Read timed out.").

End DownloadersSpecMore.

Module MediaCacheSpecMore.
Import Store MediaCacheService MediaCacheIntegrity.

(** The row for [(s, q)] points to a file that is on disk. *)
Definition live (s q : string) (st : store) : Prop :=
  ∃ e, get_cache_entry s q st = Some e
       ∧ media_path e ≠ "" ∧ exists_ (media_path e) st = true.

(** No row for [(s, q)] points to a file that is on disk. *)
Definition not_live (s q : string) (st : store) : Prop :=
  ∀ e, get_cache_entry s q st = Some e →
       media_path e = "" ∨ exists_ (media_path e) st = false.

(** Every row has its file, and every file of the cache directory has
    a row. *)
Definition no_db_orphan (st : store) : Prop :=
  ∀ e, e ∈ media_cache_entries st → exists_ (media_path e) st = true.

Definition no_fs_orphan (st : store) : Prop :=
  ∀ p, is_Some (files st !! p) → in_cache_dir p = true →
       ∃ e, e ∈ media_cache_entries st ∧ media_path e = p.

Definition no_backslash (s : string) : Prop := "\"%char ∉ PyStr.chars s.

Definition is_hex (c : Ascii.ascii) : Prop :=
  c ∈ PyStr.chars "0123456789abcdef".

(** The candidates the expiry pass of [run_gc] does not skip. *)
Definition targeted (target_source_ids : option (list string))
    (item : candidate) : bool :=
  match target_source_ids with
  | Some ids => bool_decide (cand_source_id item ∈ ids)
  | None => true
  end.

(** The items [delete_fs_orphans] does not skip. *)
Definition chosen (target_filenames : option (list string)) (item : string * Z)
    : bool :=
  match target_filenames with
  | Some names => bool_decide (filename_of item.1 ∈ names)
  | None => true
  end.

(** Two sources cached, one file lost, one file without row, and a
    download waiting outside the cache directory. *)
Definition st_messy : store :=
  MkStore [CacheEntry "A" "best" "data/media_cache/a.mp4" 5 100;
           CacheEntry "A" "audio_only" "data/media_cache/a_audio_only.mp3" 2 300;
           CacheEntry "B" "best" "data/media_cache/b.mp4" 7 200]
          ∅ ∅ ∅
          (<["data/media_cache/a.mp4" := 5%Z]>
             (<["data/media_cache/b.mp4" := 7%Z]>
                (<["data/media_cache/stray.tmp" := 9%Z]>
                   (<["data/temp_downloads/x.mp3" := 3%Z]> ∅)))).

(** Media is kept for two days; two entries without a policy of their
    own. *)
Definition st_keep_two_days : store :=
  MkStore [CacheEntry "A" "best" "data/media_cache/a.mp4" 5 100;
           CacheEntry "B" "best" "data/media_cache/b.mp4" 7 290000]
          ∅ ∅ (<["media_retention_policy" := "keep_days:2"]> ∅)
          (<["data/media_cache/a.mp4" := 5%Z]>
             (<["data/media_cache/b.mp4" := 7%Z]> ∅)).

(** A download of the source "S" waits in the temporary directory; the
    policy keeps media for three days. *)
Definition st_download : store :=
  MkStore [] (<["S" := VideoMeta (Some "Title") (Some "custom") (Some 50%Z)]> ∅)
          ∅ (<["media_retention_policy" := "keep_days:3"]> ∅)
          (<["data/temp_downloads/x.mp3" := 3%Z]> ∅).

End MediaCacheSpecMore.

Module PipelineSpecMore.
Import Store MediaCacheService Pipeline PipelineSpec.

(** The same collaborators with another downloader and another
    pre-ASR hook. *)
Definition with_download (env : collaborators)
    (d : Z -> world -> result string * world)
    (h : option (Z -> world -> result (option string) * world))
    : collaborators :=
  Collaborators d h (separate_vocals env) (run_asr env)
                (trigger_auto_analysis env).

(** The same collaborators with another downloader, vocal separation
    and ASR call. *)
Definition with_media_stages (env : collaborators)
    (d : Z -> world -> result string * world)
    (v : Z -> option string -> world -> result (option string) * world)
    (r : Z -> option string -> string -> option string -> string ->
         world -> result string * world)
    : collaborators :=
  Collaborators d (pre_asr_hook env) v r (trigger_auto_analysis env).

(** What the pipeline raises in 1.6. *)
Definition subtitles_missing : exn :=
  Exception "只获取字幕模式下未能找到或不支持提取原生字幕".

(** The pipeline from 1.6 on. *)
Definition after_hook (env : collaborators) (a : args) : M unit :=
  (if only_get_subtitles a then raise subtitles_missing else mret tt);;
  download_stage env a;;
  check_cancel (transcription_id a);;
  uvr_stage env a;;
  check_cancel (transcription_id a);;
  asr_stage env a.

(** What the pre-ASR hook stage writes when the hook returned [text]
    in the world [w1]. *)
Definition subtitles_outcome (a : args) (text : string) (w1 : world) : world :=
  finish_task (transcription_id a)
    (update_task_status (transcription_id a) "completed"
       (update_transcription_is_subtitle (transcription_id a) true
          (update_transcription_asr_model (transcription_id a) "Subtitle"
             (update_transcription_text (transcription_id a) text w1)))).

(** The status the [except] clauses write into the job's row. *)
Definition outcome_status (e : exn) : string :=
  if is_TaskCancelled e then "cancelled" else "failed".

(** A hook that finds subtitles. *)
Definition hook_subtitles (_ : Z) (w : world) : result (option string) * world :=
  (Ok (Some "[00:01] hello"), w).

(** A job that only asks for subtitles. *)
Definition job_subtitles_only : args :=
  Args 7 "S" "YouTube" "transcribe" false "zh" None None true None.

End PipelineSpecMore.

(** * Properties *)

Module TaskManagerFacts.
Import TaskManager TaskManagerSpec.

Lemma evict_oldest_lookup ids ts i :
  (evict_oldest ids ts).2 !! i = None ∨ (evict_oldest ids ts).2 !! i = ts !! i.
Proof.
  revert ts. induction ids as [|x ids IH]; intros ts; simpl; [by right|].
  case_decide; [|by right].
  destruct (IH (delete x ts)) as [Hl|Hl]; [by left|].
  rewrite Hl. destruct (decide (x = i)) as [->|Hne].
  - left. apply lookup_delete_eq.
  - right. by apply lookup_delete_ne.
Qed.

Lemma evict_oldest_keeps_last pre ts i :
  i ∉ pre → (evict_oldest (pre ++ [i]) ts).2 !! i = ts !! i.
Proof.
  revert ts. induction pre as [|x pre IH]; intros ts Hni; simpl.
  - done.
  - apply not_elem_of_cons in Hni as [Hne Hni].
    case_decide; [|done].
    rewrite IH; [|done]. by apply lookup_delete_ne.
Qed.

Lemma finish_task_tasks r j now t :
  tasks r !! j = Some t →
  tasks (finish_task j now r) =
  (evict_oldest (_finished_ids r ++ [j])
                (<[j := finished_record t now]> (tasks r))).2.
Proof.
  intros E. unfold finish_task, finished_record. rewrite E.
  destruct (decide (status t = cancelled ∨ status t = failed)); simpl;
    by destruct (evict_oldest _ _).
Qed.

Lemma finish_task_lookup r j now t i :
  tasks r !! j = Some t →
  tasks (finish_task j now r) !! i = None
  ∨ tasks (finish_task j now r) !! i
    = <[j := finished_record t now]> (tasks r) !! i.
Proof.
  intros E. rewrite (finish_task_tasks _ _ _ _ E).
  apply evict_oldest_lookup.
Qed.

Lemma cancel_task_flagged i r : flagged i (cancel_task i r).2.
Proof.
  unfold flagged, cancel_task. intros t.
  destruct (tasks r !! i) as [t0|] eqn:E; simpl.
  - rewrite lookup_insert_eq. by intros [= <-].
  - by rewrite E.
Qed.

Lemma run_op_flagged i o r :
  (∀ m now, o ≠ OpStart i m now) → flagged i r → flagged i (run_op o r).
Proof.
  intros Hns Hf t. destruct o as [j m now|j p msg|j|j now|j]; simpl.
  - unfold start_task; simpl. destruct (decide (j = i)) as [->|Hne].
    + by destruct (Hns m now).
    + rewrite lookup_insert_ne; [|done]. apply Hf.
  - unfold update_progress.
    destruct (tasks r !! j) as [t0|] eqn:E; simpl; [|apply Hf].
    destruct (decide (j = i)) as [->|Hne].
    + rewrite lookup_insert_eq. intros [= <-].
      specialize (Hf _ E).
      destruct msg as [m|]; simpl; [destruct (str_truthy m)|]; done.
    + rewrite lookup_insert_ne; [|done]. apply Hf.
  - unfold cancel_task.
    destruct (tasks r !! j) as [t0|] eqn:E; simpl; [|apply Hf].
    destruct (decide (j = i)) as [->|Hne].
    + rewrite lookup_insert_eq. by intros [= <-].
    + rewrite lookup_insert_ne; [|done]. apply Hf.
  - destruct (tasks r !! j) as [t0|] eqn:E.
    + destruct (finish_task_lookup r j now t0 i E) as [Hl|Hl]; rewrite Hl; [done|].
      destruct (decide (j = i)) as [->|Hne].
      * rewrite lookup_insert_eq. intros [= <-]. simpl. by apply Hf.
      * rewrite lookup_insert_ne; [|done]. apply Hf.
    + unfold finish_task. rewrite E. apply Hf.
  - unfold remove_task; simpl. destruct (decide (j = i)) as [->|Hne].
    + by rewrite lookup_delete_eq.
    + rewrite lookup_delete_ne; [|done]. apply Hf.
Qed.

Lemma run_ops_flagged i ops r :
  Forall (fun o => ∀ m now, o ≠ OpStart i m now) ops →
  flagged i r → flagged i (run_ops ops r).
Proof.
  revert r. induction ops as [|o ops IH]; intros r Hall Hf; [done|].
  inversion Hall as [|? ? Ho Hrest]; subst. simpl.
  apply IH; [done|]. by apply run_op_flagged.
Qed.


(** C5 (amended). Once [cancel_task id] has been called on a registered
    task, every later [check_cancel id] raises [TaskCancelledException]
    for as long as the task's record is in the registry, whatever
    progress updates, cancel requests, finishes and removals (of this or
    of other tasks) and starts of other tasks happen in between. The
    record leaves the registry when the bounded history evicts it or
    when it is removed; from then on [check_cancel id] returns. *)
Theorem cancel_flag_persists_while_registered (r : registry) (id : Z)
    (ops : list op) :
  is_Some (tasks r !! id) →
  Forall (fun o => ∀ m now, o ≠ OpStart id m now) ops →
  is_Some (tasks (run_ops ops (cancel_task id r).2) !! id) →
  check_cancel id (run_ops ops (cancel_task id r).2)
  = Raise (TaskCancelledException
             ("Task " +:+ str_of_Z id +:+ " cancelled by user")).
Proof.
  intros _ Hops [t Ht]. unfold check_cancel, is_cancelled. rewrite Ht.
  rewrite (run_ops_flagged id ops _ Hops (cancel_task_flagged id r) t Ht).
  done.
Qed.

Lemma cancel_flag_lost_after_history_eviction :
  let r0 := start_task 1 None 0 empty in
  let r1 := (cancel_task 1 r0).2 in
  let r2 := run_ops (OpFinish 1 1 :: other_jobs) r1 in
  is_cancelled 1 r1 = true ∧ check_cancel 1 r2 = Ok tt.
Proof. vm_compute. done. Qed.

Lemma cancel_flag_persists_witness :
  check_cancel 1
    (run_ops [OpProgress 1 50 (Some "half"); OpFinish 1 9; OpStart 2 None 3]
             (cancel_task 1 (start_task 1 None 0 empty)).2)
  = Raise (TaskCancelledException ("Task " +:+ str_of_Z 1 +:+ " cancelled by user")).
Proof.
  apply (cancel_flag_persists_while_registered (start_task 1 None 0 empty) 1).
  - vm_compute. eauto.
  - repeat constructor; intros m now; discriminate.
  - vm_compute. eauto.
Defined.




End TaskManagerFacts.

Module ASRClientFacts.
Import ASRClient ASRClientSpec.

Lemma scan_priority_first c l1 e l2 :
  Forall (fun x => skipped c x = true ∨ available c x = false) l1 →
  skipped c e = false → available c e = true →
  scan_priority c (l1 ++ e :: l2) = Some e.
Proof.
  intros Hpre Hs Ha. induction Hpre as [|x l1 [Hx|Hx] _ IH]; simpl.
  - by rewrite Hs, Ha.
  - by rewrite Hx.
  - rewrite Hx. by destruct (skipped c x).
Qed.

Lemma scan_priority_none c l :
  Forall (fun x => skipped c x = true ∨ available c x = false) l →
  scan_priority c l = None.
Proof.
  induction 1 as [|x l [Hx|Hx] _ IH]; simpl; [done|by rewrite Hx|].
  rewrite Hx. by destruct (skipped c x).
Qed.

(** C1. With no caller override and strict mode off, [select_worker]
    scans the priority list in order, skips an engine that is disabled
    unless it is the pinned active one, and returns the first available
    engine that is left: every engine before it in the list is skipped
    or down. In particular, for the priority list [A; B; C] with [A]
    down, [B] and [C] up and [B] not skipped, it returns [B]. With strict
    mode on and a pinned active engine [A] that is down it raises
    "Strict Mode: Active engine 'A' is offline." and never falls back. *)
Theorem select_worker_priority_fallback :
  (∀ (c : client) (l1 l2 : list string) (e : string),
     strict_mode (cfg c) = false →
     priority (cfg c) = l1 ++ e :: l2 →
     Forall (fun x => skipped c x = true ∨ available c x = false) l1 →
     skipped c e = false → available c e = true →
     select_worker c None = Ok e)
  ∧ (∀ (c : client) (A B C : string),
     strict_mode (cfg c) = false →
     priority (cfg c) = [A; B; C] →
     available c A = false → available c B = true → available c C = true →
     skipped c B = false →
     select_worker c None = Ok B)
  ∧ (∀ (c : client) (A : string),
     strict_mode (cfg c) = true →
     active_engine (cfg c) = Some A → A ≠ "" →
     available c A = false →
     select_worker c None
     = Raise (RuntimeError
                ("Strict Mode: Active engine '" +:+ A +:+ "' is offline."))).
Proof.
  assert (Hscan : ∀ (c : client) (l1 l2 : list string) (e : string),
     strict_mode (cfg c) = false →
     priority (cfg c) = l1 ++ e :: l2 →
     Forall (fun x => skipped c x = true ∨ available c x = false) l1 →
     skipped c e = false → available c e = true →
     select_worker c None = Ok e).
  { intros c l1 l2 e Hstrict Hprio Hpre Hs Ha.
    unfold select_worker. simpl. rewrite Hstrict. simpl.
    by rewrite Hprio, (scan_priority_first c l1 e l2 Hpre Hs Ha). }
  split; [exact Hscan|]. split.
  - intros c A B C Hstrict Hprio HA HB _ Hs.
    apply (Hscan c [A] [C] B); auto.
  - intros c A Hstrict Hact Hne HA.
    unfold select_worker, _check_availability. simpl.
    rewrite Hstrict, Hact. simpl.
    rewrite bool_decide_eq_false_2 by done. simpl. by rewrite HA.
Qed.

Lemma select_worker_priority_fallback_witness :
  select_worker (abc false) None = Ok "B"
  ∧ select_worker (abc true) None
    = Raise (RuntimeError "Strict Mode: Active engine 'A' is offline.").
Proof.
  split.
  - apply (proj1 (proj2 select_worker_priority_fallback) (abc false) "A" "B" "C");
      reflexivity.
  - apply (proj2 (proj2 select_worker_priority_fallback) (abc true) "A");
      [reflexivity|reflexivity|discriminate|reflexivity].
Defined.

End ASRClientFacts.

Module DownloadersFacts.
Import Downloaders DownloadersSpec.

Lemma check_and_reraise_cancel_spec e :
  check_and_reraise_cancel e = if is_cancellation e then Raise e else Ok false.
Proof. reflexivity. Qed.

Lemma wrapper_loop_spec (func : wrapped) (max_retries : nat) (retry_delay : Z) :
  ∀ (remaining attempt : nat) (log : list event),
    (attempt + remaining = max_retries)%nat → (0 < remaining)%nat →
    ∃ k : nat,
      (attempt ≤ k < max_retries)%nat
      ∧ (∀ j, (attempt ≤ j < k)%nat →
           ∃ e, func j = Raise e ∧ is_cancellation e = false
                ∧ is_network e = true)
      ∧ ((k < max_retries - 1)%nat → ∀ e, func k = Raise e →
           is_cancellation e = true ∨ is_network e = false)
      ∧ wrapper_loop func max_retries retry_delay remaining attempt log
        = (final_result (func k), log ++ attempts_log retry_delay attempt k).
Proof.
  induction remaining as [|remaining IH]; intros attempt log Hsum Hpos; [lia|].
  simpl. unfold attempts_log.
  destruct (func attempt) as [v|e] eqn:Ef.
  { exists attempt. rewrite Ef, Nat.sub_diag. simpl.
    split; [lia|]. split; [intros; lia|]. split; [|done]. by intros. }
  rewrite check_and_reraise_cancel_spec.
  destruct (is_cancellation e) eqn:Ec.
  { exists attempt. rewrite Ef, Nat.sub_diag. simpl. rewrite Ec.
    split; [lia|]. split; [intros; lia|]. split; [|done].
    intros _ e' [= <-]. by left. }
  destruct (is_network e) eqn:En; simpl.
  2:{ exists attempt. rewrite Ef, Nat.sub_diag. simpl. rewrite Ec.
      split; [lia|]. split; [intros; lia|]. split; [|done].
      intros _ e' [= <-]. by right. }
  destruct (Z.of_nat attempt <? Z.of_nat max_retries - 1)%Z eqn:Elt.
  2:{ exists attempt. rewrite Ef, Nat.sub_diag. simpl. rewrite Ec.
      split; [lia|]. split; [intros; lia|]. split; [|done].
      intros Hk. apply Z.ltb_ge in Elt. lia. }
  apply Z.ltb_lt in Elt.
  destruct (IH (S attempt) ((log ++ [Call attempt])
              ++ [Sleep (retry_delay * 2 ^ Z.of_nat attempt)]))
    as (k & Hk & Hpre & Hstop & Heq); [lia|lia|].
  exists k. split; [lia|]. split; [|split; [exact Hstop|]].
  - intros j Hj. destruct (decide (j = attempt)) as [->|Hne].
    + by exists e.
    + apply Hpre. lia.
  - rewrite Heq. f_equal. unfold attempts_log.
    replace (k - attempt)%nat with (S (k - S attempt)) by lia.
    simpl. by rewrite <- !app_assoc.
Qed.

(** C7. The retry wrapper as the downloaders use it (3 attempts, base
    delay 5 seconds) calls the wrapped function at most three times.
    The attempts before the last one, [k], all raised an error that is
    no cancellation and whose message contains a network keyword, and
    each was followed by a sleep of [5 * 2^j] seconds. When the wrapper
    stops before the third attempt on an exception, that exception is
    a cancellation or not a network error. The result is the value of
    attempt [k], or its cancellation re-raised, or [None] when attempt
    [k] failed otherwise. *)
Theorem retry_only_network_errors (func : wrapped) :
  ∃ k : nat,
    (k < 3)%nat
    ∧ (∀ j, (j < k)%nat →
         ∃ e, func j = Raise e ∧ is_cancellation e = false
              ∧ is_network e = true)
    ∧ ((k < 2)%nat → ∀ e, func k = Raise e →
         is_cancellation e = true ∨ is_network e = false)
    ∧ retry_default func
      = (final_result (func k), attempts_log 5 0 k).
Proof.
  destruct (wrapper_loop_spec func 3 5 3 0 []) as (k & Hk & Hpre & Hstop & Heq);
    [lia|lia|].
  exists k. split; [lia|]. split; [|split; [exact Hstop|exact Heq]].
  intros j Hj. apply Hpre. lia.
Qed.

Example retry_twice_then_success :
  retry_default (fun n => match n with
                          | 0 => Raise (Exception "Read timed out")
                          | 1 => Raise (Exception "Connection reset by peer")
                          | _ => Ok (Some "/tmp/x.mp3")
                          end)
  = (Ok (Some "/tmp/x.mp3"), [Call 0; Sleep 5; Call 1; Sleep 10; Call 2]).
Proof. reflexivity. Qed.

Example no_retry_on_http_error :
  retry_default (fun _ => Raise (Exception "HTTP Error 404: Not Found"))
  = (Ok None, [Call 0]).
Proof. reflexivity. Qed.

Example no_retry_on_cancel :
  retry_default (fun _ => Raise (TaskCancelledException "Task 3 cancelled by user"))
  = (Raise (TaskCancelledException "Task 3 cancelled by user"), [Call 0]).
Proof. reflexivity. Qed.

End DownloadersFacts.

Module MD5Facts.

Example md5_empty : MD5.hexdigest "" = "d41d8cd98f00b204e9800998ecf8427e".
Proof. vm_compute. reflexivity. Qed.

Example md5_abc : MD5.hexdigest "abc" = "900150983cd24fb0d6963f7d28e17f72".
Proof. vm_compute. reflexivity. Qed.

(** An input of 70 bytes: two blocks. *)
Example md5_two_blocks :
  MD5.hexdigest "https://www.bilibili.com/video/BV1xx411c7mD?p=2&t=0123456789abcdefghij"
  = "6e00a2f10ad2a61608cd6effaa0f2986".
Proof. vm_compute. reflexivity. Qed.

End MD5Facts.

Module MediaCacheFacts.
Import Store MediaCacheService MediaCacheSpec.

Lemma split_chars_nonempty sep l cur : PyStr.split_chars sep l cur ≠ [].
Proof.
  revert cur. induction l as [|c l IH]; intros cur; simpl; [done|].
  case_decide; [done|apply IH].
Qed.

Lemma keep_days_second_field N :
  PyStr.split ":"%char ("keep_days:" +:+ N) !! 1%nat = Some (until_colon N).
Proof.
  unfold until_colon, PyStr.split, PyStr.chars. simpl.
  change ("" +:+ N) with N.
  pose proof (split_chars_nonempty ":"%char (String.list_ascii_of_string N) []) as Hne.
  by destruct (PyStr.split_chars ":" (String.list_ascii_of_string N) []).
Qed.

Lemma split_chars_no_sep sep l cur :
  sep ∉ l → PyStr.split_chars sep l cur = [rev cur ++ l].
Proof.
  revert cur. induction l as [|c l IH]; intros cur Hni; simpl.
  - by rewrite app_nil_r.
  - apply not_elem_of_cons in Hni as [Hne Hni].
    case_decide; [congruence|]. rewrite IH; [|done]. simpl.
    by rewrite <- app_assoc.
Qed.

Lemma until_colon_no_colon N :
  ":"%char ∉ PyStr.chars N → until_colon N = N.
Proof.
  intros Hni. unfold until_colon, PyStr.split.
  rewrite split_chars_no_sep; [|done]. simpl.
  apply String.string_of_list_ascii_of_string.
Qed.



(** *** Rows *)

Lemma find_same_key_map s q row l :
  same_key s q row = true →
  is_Some (find (same_key s q) l) →
  find (same_key s q) (map (fun e => if same_key s q e then row else e) l)
  = Some row.
Proof.
  intros Hrow. induction l as [|x l IH]; simpl; [by intros [? ?]|].
  destruct (same_key s q x) eqn:Ex; simpl.
  - by rewrite Hrow.
  - rewrite Ex. apply IH.
Qed.

Lemma find_same_key_app_new s q row l :
  same_key s q row = true →
  find (same_key s q) l = None →
  find (same_key s q) (l ++ [row]) = Some row.
Proof.
  intros Hrow. induction l as [|x l IH]; simpl; [by rewrite Hrow|].
  destruct (same_key s q x); [done|apply IH].
Qed.

Lemma same_key_refl s q p sz t : same_key s q (CacheEntry s q p sz t) = true.
Proof. unfold same_key. simpl. by rewrite !bool_decide_eq_true_2. Qed.

Lemma get_cache_entry_upsert s q p sz now st :
  get_cache_entry s q (upsert_cache_entry s q p sz now st)
  = Some (CacheEntry s q p sz now).
Proof.
  unfold upsert_cache_entry, get_cache_entry.
  destruct (find (same_key s q) (media_cache_entries st)) eqn:E; simpl.
  - apply find_same_key_map; [apply same_key_refl|by rewrite E].
  - apply find_same_key_app_new; [apply same_key_refl|done].
Qed.

Lemma files_upsert s q p sz now st :
  files (upsert_cache_entry s q p sz now st) = files st.
Proof. unfold upsert_cache_entry. by destruct (get_cache_entry s q st). Qed.

Lemma files_reset s now st : files (_reset_expired_policy s now st) = files st.
Proof.
  unfold _reset_expired_policy.
  destruct (video_meta st !! s) as [m|]; [|done].
  destruct (cache_policy m), (cache_expires_at m); try done.
  by destruct (_ && _).
Qed.

Lemma entries_reset s now st :
  media_cache_entries (_reset_expired_policy s now st) = media_cache_entries st.
Proof.
  unfold _reset_expired_policy.
  destruct (video_meta st !! s) as [m|]; [|done].
  destruct (cache_policy m), (cache_expires_at m); try done.
  by destruct (_ && _).
Qed.

Lemma exists_true p st : exists_ p st = true ↔ is_Some (files st !! p).
Proof. unfold exists_. apply bool_decide_eq_true. Qed.

Lemma truthy_Some s : s ≠ "" → truthy (Some s) = true.
Proof. intros Hne. simpl. by rewrite bool_decide_eq_false_2. Qed.

(** [cache_file] for a source id that is given. *)
Lemma cache_file_with_source temp tid src q now st :
  src ≠ "" → temp ≠ "" → exists_ temp st = true →
  let name := new_filename temp tid (Some src) q in
  let st1 := if exists_ (target_path_of name) st then remove temp st
             else move temp (target_path_of name) st in
  cache_file (Some temp) tid (Some src) q now st
  = (Some (relative_path_of name),
     _reset_expired_policy src now
       (upsert_cache_entry src q (relative_path_of name)
          (if exists_ (target_path_of name) st1
           then getsize (target_path_of name) st1 else 0%Z) now st1)).
Proof.
  intros Hsrc Htemp Hex. unfold cache_file.
  rewrite (truthy_Some _ Htemp), (truthy_Some _ Hsrc). cbn [from_option id negb orb].
  rewrite Hex. cbn [negb andb orb]. rewrite andb_true_r.
  rewrite (truthy_Some _ Hsrc). reflexivity.
Qed.

Lemma new_filename_same_ext t1 t2 i1 i2 src q :
  src ≠ "" → PyStr.splitext_ext t1 = PyStr.splitext_ext t2 →
  new_filename t1 i1 (Some src) q = new_filename t2 i2 (Some src) q.
Proof.
  intros Hsrc Hext. unfold new_filename.
  rewrite (truthy_Some _ Hsrc). by rewrite Hext.
Qed.

(** C3 (amended). For a source id that is not empty, two calls of
    [cache_file] with the same source and quality and two existing
    temporary files with the same extension, neither of them the cache
    target itself: the second call returns the same relative path,
    changes the file system only by deleting its temporary input, and
    leaves the path and the size recorded in the cache entry unchanged;
    the one cached artifact keeps the recorded size. *)
Theorem cache_file_twice_same_extension (st : store) (src q temp1 temp2 : string)
    (tid1 tid2 now1 now2 : Z) :
  src ≠ "" → temp1 ≠ "" → temp2 ≠ "" →
  PyStr.splitext_ext temp1 = PyStr.splitext_ext temp2 →
  temp1 ≠ target_path_of (new_filename temp1 tid1 (Some src) q) →
  temp2 ≠ target_path_of (new_filename temp1 tid1 (Some src) q) →
  exists_ temp1 st = true →
  exists_ temp2 (cache_file (Some temp1) tid1 (Some src) q now1 st).2 = true →
  let c1 := cache_file (Some temp1) tid1 (Some src) q now1 st in
  let c2 := cache_file (Some temp2) tid2 (Some src) q now2 c1.2 in
  c2.1 = c1.1
  ∧ files c2.2 = delete temp2 (files c1.2)
  ∧ ∃ e1 e2,
      get_cache_entry src q c1.2 = Some e1
      ∧ get_cache_entry src q c2.2 = Some e2
      ∧ media_path e2 = media_path e1
      ∧ file_size e2 = file_size e1
      ∧ files c2.2 !! target_path_of (new_filename temp1 tid1 (Some src) q)
        = Some (file_size e1).
Proof.
  intros Hsrc Ht1 Ht2 Hext Hne1 Hne2 Hex1 Hex2 c1 c2.
  subst c2 c1. revert Hex2.
  rewrite (cache_file_with_source temp1 tid1 src q now1 st Hsrc Ht1 Hex1).
  cbn [fst snd].
  set (name := new_filename temp1 tid1 (Some src) q) in *.
  set (target := target_path_of name) in *.
  set (st1 := if exists_ target st then remove temp1 st else move temp1 target st).
  assert (∃ sz, files st1 !! target = Some sz) as [sz Hsz].
  { subst st1. destruct (exists_ target st) eqn:Et.
    - apply exists_true in Et as [sz Hsz]. exists sz.
      unfold remove. simpl. by rewrite lookup_delete_ne.
    - apply exists_true in Hex1 as [sz Hsz]. exists sz.
      unfold move. rewrite Hsz. simpl. apply lookup_insert_eq. }
  assert (Hext1 : exists_ target st1 = true) by (apply exists_true; eauto).
  assert (Hgs : getsize target st1 = sz) by (unfold getsize; by rewrite Hsz).
  rewrite Hext1, Hgs.
  set (stA := _reset_expired_policy src now1 _).
  assert (HfilesA : files stA = files st1).
  { subst stA. by rewrite files_reset, files_upsert. }
  intros Hex2.
  rewrite (cache_file_with_source temp2 tid2 src q now2 stA Hsrc Ht2 Hex2).
  rewrite <- (new_filename_same_ext temp1 temp2 tid1 tid2 src q Hsrc Hext).
  fold name. fold target. cbn [fst snd].
  assert (HextA : exists_ target stA = true).
  { apply exists_true. rewrite HfilesA. eauto. }
  rewrite HextA.
  assert (HB : files (remove temp2 stA) !! target = Some sz).
  { unfold remove. simpl. rewrite lookup_delete_ne; [|done]. by rewrite HfilesA. }
  assert (HextB : exists_ target (remove temp2 stA) = true) by (apply exists_true; eauto).
  rewrite HextB. unfold getsize. rewrite HB. cbn [from_option id].
  split; [done|]. split.
  { by rewrite files_reset, files_upsert. }
  exists (CacheEntry src q (relative_path_of name) sz now1),
         (CacheEntry src q (relative_path_of name) sz now2).
  assert (Hreset : ∀ s now st', get_cache_entry src q (_reset_expired_policy s now st')
                                = get_cache_entry src q st').
  { intros. unfold get_cache_entry. by rewrite entries_reset. }
  subst stA. rewrite !Hreset.
  split; [apply get_cache_entry_upsert|].
  split; [apply get_cache_entry_upsert|].
  split; [done|]. split; [done|].
  by rewrite files_reset, files_upsert.
Qed.

Lemma cache_file_twice_witness :
  let c1 := cache_file (Some "/tmp/a.mp3") 7 (Some "S") "audio_only" 100 st_two_temps in
  let c2 := cache_file (Some "/tmp/c.mp3") 7 (Some "S") "audio_only" 200 c1.2 in
  c2.1 = c1.1
  ∧ files c2.2 = delete "/tmp/c.mp3" (files c1.2)
  ∧ ∃ e1 e2,
      get_cache_entry "S" "audio_only" c1.2 = Some e1
      ∧ get_cache_entry "S" "audio_only" c2.2 = Some e2
      ∧ media_path e2 = media_path e1
      ∧ file_size e2 = file_size e1
      ∧ files c2.2 !! target_path_of (new_filename "/tmp/a.mp3" 7 (Some "S") "audio_only")
        = Some (file_size e1).
Proof.
  apply (cache_file_twice_same_extension st_two_temps "S" "audio_only"
           "/tmp/a.mp3" "/tmp/c.mp3" 7 7 100 200);
    vm_compute; first [reflexivity | discriminate].
Defined.

Lemma cache_file_twice_different_extension :
  let c1 := cache_file (Some "/tmp/a.mp3") 7 (Some "S") "audio_only" 100 st_two_temps in
  let c2 := cache_file (Some "/tmp/b.m4a") 7 (Some "S") "audio_only" 200 c1.2 in
  files c2.2 !! "data/media_cache/5dbc98dcc983a70728bd082d1a47546e_audio_only.mp3" = Some 10%Z
  ∧ files c2.2 !! "data/media_cache/5dbc98dcc983a70728bd082d1a47546e_audio_only.m4a" = Some 20%Z
  ∧ get_cache_entry "S" "audio_only" c1.2
    = Some (CacheEntry "S" "audio_only"
              "data/media_cache/5dbc98dcc983a70728bd082d1a47546e_audio_only.mp3" 10 100)
  ∧ get_cache_entry "S" "audio_only" c2.2
    = Some (CacheEntry "S" "audio_only"
              "data/media_cache/5dbc98dcc983a70728bd082d1a47546e_audio_only.m4a" 20 200).
Proof. vm_compute. done. Qed.

(** *** Retention expiry *)

Lemma cand_fields st e :
  cand_source_id (to_candidate st e) = source_id e
  ∧ cand_quality (to_candidate st e) = quality e
  ∧ cand_media_path (to_candidate st e) = media_path e.
Proof. unfold to_candidate. by destruct (get_retention_policy st). Qed.

Lemma get_gc_candidates_elem now st c :
  c ∈ get_gc_candidates now st ↔
  ∃ e, c = to_candidate st e ∧ e ∈ media_cache_entries st
       ∧ gc_where now st e = true
       ∧ vm_policy st e ≠ Some "keep_forever".
Proof.
  unfold get_gc_candidates. rewrite list_elem_of_In, in_map_iff. split.
  - intros (e & <- & Hin). apply filter_In in Hin as [Hin Hkf].
    apply filter_In in Hin as [Hin Hw]. exists e.
    rewrite list_elem_of_In. repeat split; try done.
    apply negb_true_iff, bool_decide_eq_false in Hkf. done.
  - intros (e & -> & Hin & Hw & Hkf). exists e. split; [done|].
    apply filter_In. split.
    + apply filter_In. by rewrite <- list_elem_of_In.
    + by apply negb_true_iff, bool_decide_eq_false.
Qed.



End MediaCacheFacts.

Module GcFacts.
Import Store MediaCacheService MediaCacheSpec GcSpec MediaCacheFacts.

Lemma same_key_false_iff e x :
  same_key (source_id e) (quality e) x = false ↔ key x ≠ key e.
Proof.
  unfold same_key, key. rewrite andb_false_iff, !bool_decide_eq_false.
  split.
  - intros [Hn|Hn] [= H1 H2]; done.
  - intros Hne. destruct (decide (source_id x = source_id e)) as [Hs|Hs]; [|by left].
    right. intros Hq. apply Hne. by rewrite Hs, Hq.
Qed.

Lemma key_inj_on l x e :
  NoDup (key <$> l) → x ∈ l → e ∈ l → key x = key e → x = e.
Proof.
  intros Hnd Hx He Hk.
  apply list_elem_of_lookup in Hx as [i Hi]. apply list_elem_of_lookup in He as [j Hj].
  assert (i = j) as ->; [|congruence].
  eapply NoDup_lookup; [exact Hnd| |]; rewrite list_lookup_fmap.
  - by rewrite Hi.
  - by rewrite Hj, Hk.
Qed.

Lemma entries_evict e st :
  media_cache_entries (evict e st)
  = filter (fun x => same_key (source_id e) (quality e) x = false)
           (media_cache_entries st).
Proof. reflexivity. Qed.

Lemma files_evict e st : files (evict e st) = delete (media_path e) (files st).
Proof. reflexivity. Qed.

Lemma elem_of_entries_evict e st x :
  NoDup (key <$> media_cache_entries st) → e ∈ media_cache_entries st →
  x ∈ media_cache_entries (evict e st) ↔ x ∈ media_cache_entries st ∧ x ≠ e.
Proof.
  intros Hnd He. rewrite entries_evict, list_elem_of_filter, same_key_false_iff.
  split.
  - intros [Hk Hx]. split; [done|]. by intros ->.
  - intros [Hx Hne]. split; [|done]. intros Hk. apply Hne.
    by eapply key_inj_on.
Qed.

Lemma total_size_evict e st :
  NoDup (key <$> media_cache_entries st) → e ∈ media_cache_entries st →
  total_size (media_cache_entries (evict e st))
  = (total_size (media_cache_entries st) - file_size e)%Z.
Proof.
  rewrite entries_evict. generalize (media_cache_entries st). intros l.
  induction l as [|x l IH]; intros Hnd He; [by apply elem_of_nil in He|].
  rewrite fmap_cons in Hnd. apply NoDup_cons in Hnd as [Hx Hnd].
  destruct (decide (key x = key e)) as [Hk|Hk].
  - rewrite filter_cons_False by (by rewrite same_key_false_iff; intros H; apply H).
    assert (x = e) as ->.
    { apply elem_of_cons in He as [->|He]; [done|].
      exfalso. apply Hx. rewrite Hk. by apply list_elem_of_fmap_2. }
    assert (Hall : filter (fun x => same_key (source_id e) (quality e) x = false) l = l).
    { clear -Hx. induction l as [|y l IH]; [done|].
      rewrite fmap_cons in Hx. apply not_elem_of_cons in Hx as [Hne Hx].
      rewrite filter_cons_True by (by apply same_key_false_iff).
      by rewrite IH. }
    rewrite Hall. simpl. lia.
  - rewrite filter_cons_True by (by apply same_key_false_iff).
    apply elem_of_cons in He as [->|He]; [done|].
    simpl. rewrite IH; [lia|done|done].
Qed.

Lemma evict_consistent e st :
  consistent st → e ∈ media_cache_entries st → consistent (evict e st).
Proof.
  intros [Hk Hp Hf] He. split.
  - rewrite entries_evict. eapply sublist_NoDup; [exact Hk|apply fmap_sublist, sublist_filter].
  - rewrite entries_evict. eapply sublist_NoDup; [exact Hp|apply fmap_sublist, sublist_filter].
  - intros x Hx. apply elem_of_entries_evict in Hx as [Hx Hne]; [|done|done].
    rewrite files_evict, lookup_delete_ne; [by apply Hf|].
    intros Hpath. apply Hne. symmetry.
    apply list_elem_of_lookup in Hx as [i Hi]. apply list_elem_of_lookup in He as [j Hj].
    assert (i = j) as ->; [|congruence].
    eapply NoDup_lookup; [exact Hp| |]; rewrite list_lookup_fmap.
    + by rewrite Hi.
    + rewrite Hj. simpl. by rewrite Hpath.
Qed.

(** Deleting a list of rows that are all present. *)
Lemma evict_all_spec l st :
  consistent st → NoDup l → (∀ e, e ∈ l → e ∈ media_cache_entries st) →
  consistent (evict_all l st)
  ∧ (∀ x, x ∈ media_cache_entries (evict_all l st)
          ↔ x ∈ media_cache_entries st ∧ x ∉ l)
  ∧ media_cache_entries (evict_all l st) `sublist_of` media_cache_entries st
  ∧ total_size (media_cache_entries (evict_all l st))
    = (total_size (media_cache_entries st) - total_size l)%Z
  ∧ video_meta (evict_all l st) = video_meta st
  ∧ system_configs (evict_all l st) = system_configs st.
Proof.
  revert st. induction l as [|e l IH]; intros st Hc Hnd Hin.
  { simpl. split; [done|]. split; [|split; [done|split; [lia|done]]].
    intros x. split; [intros Hx; split; [done|apply not_elem_of_nil]|by intros [? _]]. }
  apply NoDup_cons in Hnd as [Hel Hnd].
  assert (He : e ∈ media_cache_entries st) by (apply Hin, list_elem_of_here).
  destruct (IH (evict e st)) as (Hc' & Hmem & Hsub & Htot & Hvm & Hcfg).
  { by apply evict_consistent. }
  { done. }
  { intros x Hx. apply elem_of_entries_evict; [apply Hc|done|].
    split; [apply Hin; by apply list_elem_of_further|]. by intros ->. }
  change (evict_all (e :: l) st) with (evict_all l (evict e st)).
  split; [done|]. split; [|split; [|split; [|split]]].
  - intros x. rewrite Hmem, elem_of_entries_evict; [|apply Hc|done].
    rewrite not_elem_of_cons. tauto.
  - etrans; [exact Hsub|]. rewrite entries_evict. apply sublist_filter.
  - rewrite Htot, total_size_evict; [|apply Hc|done]. simpl. lia.
  - by rewrite Hvm.
  - by rewrite Hcfg.
Qed.

Lemma remove_absent p st : exists_ p st = false → remove p st = st.
Proof.
  unfold exists_, remove. intros Hex%bool_decide_eq_false.
  rewrite delete_id; [by destruct st|].
  destruct (files st !! p) eqn:E; [|done]. exfalso. apply Hex. eauto.
Qed.

(** *** Pass 1 *)

Lemma gc_delete_candidate_store st0 acc e :
  (gc_delete_candidate None acc (to_candidate st0 e)).2 = evict e acc.2.
Proof.
  destruct acc as [[d f] st]. unfold gc_delete_candidate, evict.
  destruct (cand_fields st0 e) as (-> & -> & ->). simpl.
  destruct (exists_ _ _) eqn:Ex; simpl; [done|].
  by rewrite remove_absent.
Qed.

Lemma foldl_gc_delete_candidate st0 l acc :
  (foldl (gc_delete_candidate None) acc (map (to_candidate st0) l)).2
  = evict_all l acc.2.
Proof.
  revert acc. induction l as [|e l IH]; intros acc; [done|].
  simpl. rewrite IH, gc_delete_candidate_store. done.
Qed.

Lemma gc_expired_store now c st :
  (gc_expired None now (c, st)).2 = evict_all (expired_rows now st) st.
Proof. unfold gc_expired, get_gc_candidates. apply foldl_gc_delete_candidate. Qed.

Lemma expired_rows_spec now st e :
  e ∈ expired_rows now st →
  e ∈ media_cache_entries st ∧ vm_policy st e ≠ Some "keep_forever".
Proof.
  unfold expired_rows. rewrite list_elem_of_In, !filter_In.
  intros [[Hin _] Hkf]. rewrite list_elem_of_In. split; [done|].
  by apply negb_true_iff, bool_decide_eq_false in Hkf.
Qed.

Lemma NoDup_List_filter {A} (f : A → bool) (l : list A) :
  NoDup l → NoDup (List.filter f l).
Proof.
  induction 1 as [|x l Hx Hnd IH]; simpl; [constructor|].
  destruct (f x); [|done]. constructor; [|done].
  rewrite list_elem_of_In, filter_In, <- list_elem_of_In. by intros [? _].
Qed.

Lemma consistent_NoDup st : consistent st → NoDup (media_cache_entries st).
Proof. intros [Hk _ _]. by eapply NoDup_fmap_1. Qed.

Lemma expired_rows_NoDup now st : consistent st → NoDup (expired_rows now st).
Proof.
  intros Hc. unfold expired_rows. do 2 apply NoDup_List_filter.
  by apply consistent_NoDup.
Qed.

(** *** Pass 2 *)

Lemma gc_orphans_store acc :
  media_cache_entries (gc_orphans acc).2 = media_cache_entries acc.2
  ∧ video_meta (gc_orphans acc).2 = video_meta acc.2
  ∧ system_configs (gc_orphans acc).2 = system_configs acc.2
  ∧ ∀ e, e ∈ media_cache_entries acc.2 →
         files (gc_orphans acc).2 !! media_path e = files acc.2 !! media_path e.
Proof.
  destruct acc as [[d f] st]. unfold gc_orphans. simpl.
  split; [done|]. split; [done|]. split; [done|].
  intros e He.
  assert (Hno : is_orphan st (media_path e) = false).
  { unfold is_orphan. apply andb_false_iff. right.
    apply negb_false_iff, bool_decide_eq_true.
    apply list_elem_of_In, in_map, list_elem_of_In, He. }
  destruct (files st !! media_path e) as [sz|] eqn:E.
  - apply map_lookup_filter_Some. done.
  - apply map_lookup_filter_None. left. done.
Qed.

Lemma gc_orphans_consistent acc : consistent acc.2 → consistent (gc_orphans acc).2.
Proof.
  intros [Hk Hp Hf]. destruct (gc_orphans_store acc) as (He & _ & _ & Hfiles).
  split; rewrite ?He; [done|done|].
  intros e Hin. rewrite Hfiles; [|done]. by apply Hf.
Qed.

(** *** Pass 3: the order of the rows *)

Lemma insert_by_cached_at_perm e l : insert_by_cached_at e l ≡ₚ e :: l.
Proof.
  induction l as [|x l IH]; simpl; [done|].
  destruct (cached_at e <? cached_at x)%Z; [done|].
  rewrite IH. apply Permutation_swap.
Qed.

Lemma sort_by_cached_at_perm l : sort_by_cached_at l ≡ₚ l.
Proof.
  induction l as [|x l IH]; simpl; [done|].
  unfold sort_by_cached_at in *. simpl.
  by rewrite insert_by_cached_at_perm, IH.
Qed.

Lemma insert_by_cached_at_sorted e l :
  StronglySorted older_or_same l →
  StronglySorted older_or_same (insert_by_cached_at e l).
Proof.
  induction 1 as [|x l Hs IH Hall]; simpl.
  { repeat constructor. }
  destruct (cached_at e <? cached_at x)%Z eqn:Elt.
  - apply Z.ltb_lt in Elt. constructor; [by constructor|].
    constructor; [unfold older_or_same; lia|].
    eapply Forall_impl; [exact Hall|]. unfold older_or_same. intros y Hy. lia.
  - apply Z.ltb_ge in Elt. constructor; [done|].
    rewrite insert_by_cached_at_perm. constructor; [done|done].
Qed.

Lemma sort_by_cached_at_sorted l :
  StronglySorted older_or_same (sort_by_cached_at l).
Proof.
  induction l as [|x l IH]; [constructor|].
  unfold sort_by_cached_at in *. simpl. by apply insert_by_cached_at_sorted.
Qed.

Lemma capacity_candidates_elem st e :
  e ∈ capacity_candidates st ↔
  e ∈ media_cache_entries st ∧ vm_policy st e ≠ Some "keep_forever".
Proof.
  unfold capacity_candidates. rewrite sort_by_cached_at_perm.
  rewrite list_elem_of_In, filter_In, <- list_elem_of_In.
  unfold not_keep_forever. rewrite negb_true_iff, bool_decide_eq_false. done.
Qed.

Lemma capacity_candidates_NoDup st :
  consistent st → NoDup (capacity_candidates st).
Proof.
  intros Hc. unfold capacity_candidates. rewrite sort_by_cached_at_perm.
  apply NoDup_List_filter. by apply consistent_NoDup.
Qed.

(** *** Pass 3: the loop *)

Lemma capacity_loop_spec rows bytes_to_free :
  ∀ freed c st,
    consistent st → NoDup rows →
    (∀ e, e ∈ rows → e ∈ media_cache_entries st) →
    ∃ evicted kept,
      rows = evicted ++ kept
      ∧ (capacity_loop rows bytes_to_free freed (c, st)).2 = evict_all evicted st
      ∧ (kept = [] ∨ (bytes_to_free <= freed + total_size evicted)%Z)
      ∧ ∀ pre e post, evicted = pre ++ e :: post →
                      (freed + total_size pre < bytes_to_free)%Z.
Proof.
  induction rows as [|row rest IH]; intros freed c st Hc Hnd Hin.
  { exists [], []. split; [done|]. split; [done|]. split; [by left|].
    intros pre e post Heq. by destruct pre. }
  simpl. destruct (bytes_to_free <=? freed)%Z eqn:Ele.
  { apply Z.leb_le in Ele. exists [], (row :: rest).
    split; [done|]. split; [done|]. split; [right; simpl; lia|].
    intros pre e post Heq. by destruct pre. }
  apply Z.leb_gt in Ele. destruct c as [d f].
  apply NoDup_cons in Hnd as [Hrow Hnd].
  assert (Hr : row ∈ media_cache_entries st) by apply Hin, list_elem_of_here.
  assert (Hfile : files st !! media_path row = Some (file_size row)) by by apply Hc.
  assert (Hex : exists_ (media_path row)
                  (delete_cache_entry (source_id row) (quality row) st) = true).
  { unfold exists_. apply bool_decide_eq_true. simpl. eauto. }
  rewrite Hex.
  assert (Hsz : getsize (media_path row)
                  (delete_cache_entry (source_id row) (quality row) st)
                = file_size row).
  { unfold getsize. simpl. by rewrite Hfile. }
  rewrite Hsz.
  destruct (IH (freed + file_size row)%Z ((d + 1)%Z, (f + file_size row)%Z)
               (evict row st))
    as (evicted & kept & Hsplit & Hstore & Hstop & Hpre).
  { by apply evict_consistent. }
  { done. }
  { intros e He. apply elem_of_entries_evict; [apply Hc|done|].
    split; [by apply Hin, list_elem_of_further|]. by intros ->. }
  exists (row :: evicted), kept.
  split; [by rewrite Hsplit|]. split; [exact Hstore|]. split.
  - destruct Hstop as [->|Hstop]; [by left|]. right. simpl. lia.
  - intros pre e post Heq. destruct pre as [|p pre]; simpl in *; [lia|].
    injection Heq as <- Heq. specialize (Hpre _ _ _ Heq). lia.
Qed.

Lemma fmap_inj_on {A B} (f : A → B) (l : list A) x y :
  NoDup (f <$> l) → x ∈ l → y ∈ l → f x = f y → x = y.
Proof.
  intros Hnd Hx Hy Hf.
  apply list_elem_of_lookup in Hx as [i Hi]. apply list_elem_of_lookup in Hy as [j Hj].
  assert (i = j) as ->; [|congruence].
  eapply NoDup_lookup; [exact Hnd| |]; rewrite list_lookup_fmap.
  - by rewrite Hi.
  - rewrite Hj. simpl. by rewrite Hf.
Qed.

Lemma evict_all_files_none l st p :
  files st !! p = None → files (evict_all l st) !! p = None.
Proof.
  revert st. induction l as [|e l IH]; intros st Hp; [done|].
  apply (IH (evict e st)). rewrite files_evict.
  destruct (decide (media_path e = p)) as [->|Hne].
  - apply lookup_delete_eq.
  - by rewrite lookup_delete_ne.
Qed.

Lemma evict_all_files_gone l st e :
  e ∈ l → files (evict_all l st) !! media_path e = None.
Proof.
  revert st. induction l as [|a l IH]; intros st He; [by apply elem_of_nil in He|].
  apply elem_of_cons in He as [->|He].
  - apply (evict_all_files_none l (evict a st)). rewrite files_evict.
    apply lookup_delete_eq.
  - by apply (IH (evict a st)).
Qed.

(** C2 (amended). In a consistent store with pairwise different
    [cached_at] timestamps and a positive capacity budget, a full
    [run_gc] evicts, after its expiry and orphan passes, a prefix
    [evicted] of the rows that are not [keep_forever], ordered by
    [cached_at]: every evicted row is strictly older than every
    evictable row that is kept, and its file is deleted. A row is
    evicted only while the total size is still above the budget, and
    the pass ends with the total size at or under the budget, or with
    only [keep_forever] rows left. A row whose source is [keep_forever]
    is never evicted, and its file stays on disk. *)
Theorem run_gc_capacity_eviction (float_of_str : string → option Q)
    (st : store) (now : Z) :
  consistent st → distinct_timestamps st →
  (0 < capacity_gb float_of_str st)%Q →
  let st2 := after_expiry_and_orphans now st in
  let st3 := (run_gc float_of_str None now st).2 in
  let limit := limit_bytes float_of_str st in
  ∃ evicted kept,
    capacity_candidates st2 = evicted ++ kept
    ∧ (∀ x, x ∈ media_cache_entries st3
            ↔ x ∈ media_cache_entries st2 ∧ x ∉ evicted)
    ∧ (∀ e, e ∈ evicted → files st3 !! media_path e = None)
    ∧ (∀ e e', e ∈ evicted → e' ∈ kept → (cached_at e < cached_at e')%Z)
    ∧ (∀ pre e post, evicted = pre ++ e :: post →
         (limit < total_size (media_cache_entries st2) - total_size pre)%Z)
    ∧ ((total_size (media_cache_entries st3) <= limit)%Z
       ∨ ∀ x, x ∈ media_cache_entries st3 →
              vm_policy st x = Some "keep_forever")
    ∧ (∀ x, x ∈ media_cache_entries st →
            vm_policy st x = Some "keep_forever" →
            x ∈ media_cache_entries st3
            ∧ files st3 !! media_path x = Some (file_size x)).
Proof.
  intros Hc Hts Hcap st2 st3 limit.
  (* pass 1 *)
  pose (acc1 := gc_expired None now ((0, 0)%Z, st)).
  assert (Hacc1 : acc1.2 = evict_all (expired_rows now st) st)
    by apply gc_expired_store.
  destruct (evict_all_spec (expired_rows now st) st Hc
              (expired_rows_NoDup now st Hc)
              (fun e He => proj1 (expired_rows_spec now st e He)))
    as (Hc1 & Hmem1 & Hsub1 & _ & Hvm1 & Hcfg1).
  rewrite <- Hacc1 in Hc1, Hmem1, Hsub1, Hvm1, Hcfg1.
  (* pass 2 *)
  destruct (gc_orphans_store acc1) as (He2 & Hvm2 & Hcfg2 & _).
  pose proof (gc_orphans_consistent acc1 Hc1) as Hc2.
  change ((gc_orphans acc1).2) with st2 in He2, Hvm2, Hcfg2, Hc2.
  assert (Hvm : video_meta st2 = video_meta st) by (by rewrite Hvm2).
  assert (Hcfg : system_configs st2 = system_configs st) by (by rewrite Hcfg2).
  assert (Hpol : ∀ x, vm_policy st2 x = vm_policy st x).
  { intros x. unfold vm_policy. by rewrite Hvm. }
  assert (Hcap2 : capacity_gb float_of_str st2 = capacity_gb float_of_str st).
  { unfold capacity_gb, get_system_config. by rewrite Hcfg. }
  assert (Hlim2 : limit_bytes float_of_str st2 = limit).
  { unfold limit, limit_bytes. by rewrite Hcap2. }
  assert (Hts2 : NoDup (cached_at <$> media_cache_entries st2)).
  { rewrite He2. eapply sublist_NoDup; [exact Hts|]. by apply fmap_sublist. }
  assert (Hkeep2 : ∀ x, x ∈ media_cache_entries st →
            vm_policy st x = Some "keep_forever" → x ∈ media_cache_entries st2).
  { intros x Hx Hkf. rewrite He2. apply Hmem1. split; [done|].
    intros Hex. by apply expired_rows_spec in Hex as [_ Hn]. }
  (* pass 3 *)
  assert (Hrun : st3 = (gc_capacity float_of_str (gc_orphans acc1)).2) by done.
  assert (Hsorted := sort_by_cached_at_sorted
            (List.filter (not_keep_forever st2) (media_cache_entries st2))).
  fold (capacity_candidates st2) in Hsorted.
  assert (Hstrict : ∀ evicted kept, capacity_candidates st2 = evicted ++ kept →
            ∀ e e', e ∈ evicted → e' ∈ kept → (cached_at e < cached_at e')%Z).
  { intros evicted kept Hsplit e e' He He'.
    pose proof (capacity_candidates_NoDup st2 Hc2) as Hnd.
    rewrite Hsplit in Hsorted, Hnd.
    pose proof (StronglySorted_app_1_elem_of _ _ _ _ _ Hsorted He He') as Hle.
    unfold older_or_same in Hle.
    assert (cached_at e ≠ cached_at e'); [|lia].
    intros Heq. apply NoDup_app in Hnd as (_ & Hdisj & _).
    apply (Hdisj e He).
    assert (e = e') as ->; [|done].
    apply (fmap_inj_on cached_at (media_cache_entries st2)); [done| | |done].
    - apply (capacity_candidates_elem st2 e). rewrite Hsplit.
      apply elem_of_app. by left.
    - apply (capacity_candidates_elem st2 e'). rewrite Hsplit.
      apply elem_of_app. by right. }
  assert (Hfinish : ∀ evicted kept,
            capacity_candidates st2 = evicted ++ kept →
            st3 = evict_all evicted st2 →
            (kept = [] ∨ (total_size (media_cache_entries st2) - limit
                          <= total_size evicted)%Z) →
            (∀ pre e post, evicted = pre ++ e :: post →
               (limit < total_size (media_cache_entries st2) - total_size pre)%Z) →
            ∃ evicted kept,
    capacity_candidates st2 = evicted ++ kept
    ∧ (∀ x, x ∈ media_cache_entries st3
            ↔ x ∈ media_cache_entries st2 ∧ x ∉ evicted)
    ∧ (∀ e, e ∈ evicted → files st3 !! media_path e = None)
    ∧ (∀ e e', e ∈ evicted → e' ∈ kept → (cached_at e < cached_at e')%Z)
    ∧ (∀ pre e post, evicted = pre ++ e :: post →
         (limit < total_size (media_cache_entries st2) - total_size pre)%Z)
    ∧ ((total_size (media_cache_entries st3) <= limit)%Z
       ∨ ∀ x, x ∈ media_cache_entries st3 →
              vm_policy st x = Some "keep_forever")
    ∧ (∀ x, x ∈ media_cache_entries st →
            vm_policy st x = Some "keep_forever" →
            x ∈ media_cache_entries st3
            ∧ files st3 !! media_path x = Some (file_size x))).
  { intros evicted kept Hsplit Hst3 Hstop Hpre.
    assert (Hev_in : ∀ e, e ∈ evicted → e ∈ media_cache_entries st2
                                       ∧ vm_policy st e ≠ Some "keep_forever").
    { intros e He. rewrite <- Hpol. apply capacity_candidates_elem.
      rewrite Hsplit. apply elem_of_app. by left. }
    assert (Hnd : NoDup evicted).
    { pose proof (capacity_candidates_NoDup st2 Hc2) as Hnd.
      rewrite Hsplit in Hnd. by apply NoDup_app in Hnd as (? & _ & _). }
    destruct (evict_all_spec evicted st2 Hc2 Hnd (fun e He => proj1 (Hev_in e He)))
      as (Hc3 & Hmem3 & _ & Htot3 & _ & _).
    rewrite <- Hst3 in Hc3, Hmem3, Htot3.
    exists evicted, kept. split; [done|]. split; [done|]. split.
    { intros e He. rewrite Hst3. by apply evict_all_files_gone. }
    split; [by apply Hstrict|]. split; [done|]. split.
    - destruct Hstop as [->|Hstop]; [right|left; lia].
      intros x Hx. apply Hmem3 in Hx as [Hx2 Hnot].
      destruct (decide (vm_policy st x = Some "keep_forever")) as [|Hn]; [done|].
      exfalso. apply Hnot.
      assert (x ∈ capacity_candidates st2) as Hcand.
      { apply capacity_candidates_elem. by rewrite Hpol. }
      by rewrite Hsplit, app_nil_r in Hcand.
    - intros x Hx Hkf.
      assert (Hx3 : x ∈ media_cache_entries st3).
      { apply Hmem3. split; [by apply Hkeep2|].
        intros Hev. by apply Hev_in in Hev as [_ Hn]. }
      split; [done|]. by apply Hc3. }
  revert Hrun. unfold gc_capacity.
  destruct (gc_orphans acc1) as [c2 s2] eqn:E2. cbn [snd].
  assert (s2 = st2) as -> by (unfold st2, after_expiry_and_orphans; fold acc1; by rewrite E2).
  rewrite Hcap2, Hlim2.
  destruct (Qlt_le_dec 0 (capacity_gb float_of_str st)) as [_|Hle];
    [|exfalso; by apply (Qlt_not_le _ _ Hcap)].
  destruct (limit <? total_size (media_cache_entries st2))%Z eqn:Eover.
  - apply Z.ltb_lt in Eover. intros Hrun.
    destruct (capacity_loop_spec (capacity_candidates st2)
                (total_size (media_cache_entries st2) - limit)%Z 0%Z c2 st2 Hc2
                (capacity_candidates_NoDup st2 Hc2)
                (fun e He => proj1 (proj1 (capacity_candidates_elem st2 e) He)))
      as (evicted & kept & Hsplit & Hstore & Hstop & Hpre).
    apply (Hfinish evicted kept Hsplit).
    + by rewrite Hrun, Hstore.
    + destruct Hstop as [?|?]; [by left|right; lia].
    + intros pre e post Heq. specialize (Hpre _ _ _ Heq). lia.
  - apply Z.ltb_ge in Eover. intros Hrun.
    apply (Hfinish [] (capacity_candidates st2)); [done|done|right; simpl; lia|].
    intros pre e post Heq. by destruct pre.
Qed.

Lemma st_three_consistent : consistent st_three.
Proof.
  split.
  - apply (bool_decide_unpack _). vm_compute. exact I.
  - apply (bool_decide_unpack _). vm_compute. exact I.
  - intros e He.
    repeat (apply elem_of_cons in He as [->|He]; [vm_compute; reflexivity|]).
    by apply elem_of_nil in He.
Qed.

Lemma run_gc_keep_forever_over_budget :
  let st3 := (run_gc float_of_int_str None 1000 st_over_budget).2 in
  media_cache_entries st3
  = [CacheEntry "A" "best" "data/media_cache/a.mp4" (3 * GB) 100]
  ∧ (limit_bytes float_of_int_str st_over_budget
     < total_size (media_cache_entries st3))%Z.
Proof. vm_compute. done. Qed.

Lemma run_gc_capacity_eviction_witness :
  let st2 := after_expiry_and_orphans 1000 st_three in
  let st3 := (run_gc float_of_int_str None 1000 st_three).2 in
  let limit := limit_bytes float_of_int_str st_three in
  ∃ evicted kept,
    capacity_candidates st2 = evicted ++ kept
    ∧ (∀ x, x ∈ media_cache_entries st3
            ↔ x ∈ media_cache_entries st2 ∧ x ∉ evicted)
    ∧ (∀ e, e ∈ evicted → files st3 !! media_path e = None)
    ∧ (∀ e e', e ∈ evicted → e' ∈ kept → (cached_at e < cached_at e')%Z)
    ∧ (∀ pre e post, evicted = pre ++ e :: post →
         (limit < total_size (media_cache_entries st2) - total_size pre)%Z)
    ∧ ((total_size (media_cache_entries st3) <= limit)%Z
       ∨ ∀ x, x ∈ media_cache_entries st3 →
              vm_policy st_three x = Some "keep_forever")
    ∧ (∀ x, x ∈ media_cache_entries st_three →
            vm_policy st_three x = Some "keep_forever" →
            x ∈ media_cache_entries st3
            ∧ files st3 !! media_path x = Some (file_size x)).
Proof.
  apply (run_gc_capacity_eviction float_of_int_str st_three 1000).
  - exact st_three_consistent.
  - apply (bool_decide_unpack _). vm_compute. exact I.
  - vm_compute. reflexivity.
Defined.

End GcFacts.

Module PipelineFacts.
Import Store MediaCacheService Pipeline PipelineSpec MediaCacheFacts.

Lemma transcriptions_upsert s q p sz now st :
  transcriptions (upsert_cache_entry s q p sz now st) = transcriptions st.
Proof. unfold upsert_cache_entry. by destruct (get_cache_entry s q st). Qed.

Lemma transcriptions_reset s now st :
  transcriptions (_reset_expired_policy s now st) = transcriptions st.
Proof.
  unfold _reset_expired_policy.
  destruct (video_meta st !! s) as [m|]; [|done].
  destruct (cache_policy m), (cache_expires_at m); try done.
  by destruct (_ && _).
Qed.

Lemma transcriptions_move a b st : transcriptions (move a b st) = transcriptions st.
Proof. unfold move. by destruct (files st !! a). Qed.

Lemma transcriptions_cache_file temp tid src q now st :
  transcriptions (cache_file temp tid src q now st).2 = transcriptions st.
Proof.
  unfold cache_file. destruct (_ || _); [done|]. cbn [snd].
  set (st1 := if exists_ _ st && truthy src then remove _ st else move _ _ st).
  assert (H1 : transcriptions st1 = transcriptions st).
  { subst st1. destruct (_ && _); [reflexivity|apply transcriptions_move]. }
  set (sid := if negb (truthy src) && _ then _ else src).
  destruct (truthy sid); [|done].
  by rewrite transcriptions_reset, transcriptions_upsert.
Qed.

Lemma transcriptions_cleanup_or_delete temp tid src q now st :
  transcriptions (cleanup_or_delete temp tid src q now st) = transcriptions st.
Proof.
  unfold cleanup_or_delete.
  destruct (negb (truthy temp)); [done|].
  destruct (negb (exists_ _ _)); [done|].
  destruct (should_keep st); [apply transcriptions_cache_file|reflexivity].
Qed.

Lemma transcriptions_cleanup a l w :
  transcriptions (db (cleanup a l w)) = transcriptions (db w).
Proof.
  unfold cleanup. destruct (is_temp_derived l).
  - destruct (_ && _); reflexivity.
  - destruct (negb (using_cache l)); [|reflexivity].
    apply transcriptions_cleanup_or_delete.
Qed.

Lemma transcriptions_handle a e w :
  transcriptions (db (handle a e w)) !! transcription_id a
  = outcome_row e <$> transcriptions (db w) !! transcription_id a.
Proof.
  unfold handle, outcome_row.
  destruct (is_TaskCancelled e); simpl;
    rewrite !lookup_alter_eq; by destruct (transcriptions (db w) !! _).
Qed.

(** C4 (amended). When the body of the pipeline ends by raising the
    exception [e], the run is the cleanup stage applied to the world the
    handler leaves; and the job's row, when there is one, then holds:
    status "cancelled" and text "Task Cancelled" if [e] is a
    [TaskCancelledException], status "failed" and text "Error: <message
    of e>" otherwise. (An exception raised inside the pre-ASR hook stage
    does not end the body: it is caught and logged there.) *)
Theorem pipeline_failure_and_cancellation (env : collaborators) (a : args)
    (w : world) (e : exn) :
  let r := pipeline_body env a (initial_locals, w) in
  r.1 = Raise e →
  run_transcription_pipeline env a w = cleanup a r.2.1 (handle a e r.2.2)
  ∧ transcriptions (db (run_transcription_pipeline env a w)) !! transcription_id a
    = outcome_row e <$> transcriptions (db r.2.2) !! transcription_id a.
Proof.
  intros r Hbody.
  assert (Hrun : run_transcription_pipeline env a w
                 = cleanup a r.2.1 (handle a e r.2.2)).
  { unfold run_transcription_pipeline. fold r.
    destruct r as [out [l w1]]. simpl in *. by rewrite Hbody. }
  split; [done|].
  by rewrite Hrun, transcriptions_cleanup, transcriptions_handle.
Qed.

Section Keeps.
Context {A B : Type}.

Lemma keeps_ret (x : A) : keeps_no_handover (mret x : M A).
Proof. by intros s Hs. Qed.

Lemma keeps_raise (e : exn) : keeps_no_handover (raise e : M A).
Proof. by intros s Hs. Qed.

Lemma keeps_bind (m : M A) (f : A → M B) :
  keeps_no_handover m → (∀ x, keeps_no_handover (f x)) →
  keeps_no_handover (m ≫= f).
Proof.
  intros Hm Hf s Hs. unfold mbind, M_bind.
  specialize (Hm s Hs). destruct (m s) as [[x|e] s1]; [by apply Hf|done].
Qed.

Lemma keeps_try_except (m : M A) (h : exn → M A) :
  keeps_no_handover m → (∀ e, keeps_no_handover (h e)) →
  keeps_no_handover (try_except m h).
Proof.
  intros Hm Hh s Hs. unfold try_except.
  specialize (Hm s Hs). destruct (m s) as [[x|e] s1]; [done|by apply Hh].
Qed.

Lemma keeps_get_locals (f : locals → M B) :
  (∀ l, no_handover l → keeps_no_handover (f l)) →
  keeps_no_handover (get_locals ≫= f).
Proof. intros Hf s Hs. unfold mbind, M_bind, get_locals. by apply Hf. Qed.

Lemma keeps_call (f : world → result A * world) : keeps_no_handover (call f).
Proof. intros [l w] Hs. unfold call. simpl. by destruct (f w). Qed.

Lemma keeps_lift_result (f : world → result A) : keeps_no_handover (lift_result f).
Proof. by intros s Hs. Qed.

End Keeps.

Lemma keeps_get_world : keeps_no_handover get_world.
Proof. by intros s Hs. Qed.

Lemma keeps_modify_world f : keeps_no_handover (modify_world f).
Proof. by intros s Hs. Qed.

Lemma keeps_set_locals l : no_handover l → keeps_no_handover (set_locals l).
Proof. by intros Hl s Hs. Qed.

Lemma keeps_when b m : keeps_no_handover m → keeps_no_handover (when b m).
Proof. intros Hm. destruct b; [done|apply keeps_ret]. Qed.

Lemma keeps_if {A} (b : bool) (m1 m2 : M A) :
  keeps_no_handover m1 → keeps_no_handover m2 →
  keeps_no_handover (if b then m1 else m2).
Proof. by destruct b. Qed.

Ltac keeps_step :=
  first
    [ apply keeps_get_locals; intros ? ?
    | apply keeps_bind; [|intros ?]
    | apply keeps_try_except; [|intros ?]
    | apply keeps_if
    | apply keeps_when
    | apply keeps_ret | apply keeps_raise | apply keeps_call
    | apply keeps_lift_result | apply keeps_get_world
    | apply keeps_modify_world ].

Lemma keeps_hook_stage env a : keeps_no_handover (hook_stage env a).
Proof.
  unfold hook_stage. apply keeps_get_locals. intros l Hl.
  destruct (pre_asr_hook env) as [hook|]; [|apply keeps_ret].
  apply keeps_if; [|apply keeps_ret].
  apply keeps_try_except; [|intros; apply keeps_ret].
  apply keeps_bind; [apply keeps_call|]. intros r.
  apply keeps_if; [|apply keeps_ret].
  repeat keeps_step.
Qed.

Lemma keeps_download_stage env a : keeps_no_handover (download_stage env a).
Proof.
  unfold download_stage. apply keeps_get_locals. intros l Hl.
  apply keeps_if; [|apply keeps_ret].
  apply keeps_bind; [apply keeps_modify_world|]. intros _.
  apply keeps_bind; [apply keeps_call|]. intros p.
  apply keeps_get_locals. intros l' Hl'.
  apply keeps_set_locals. destruct Hl' as [Hu|Hd]; [by left|by right].
Qed.

Lemma keeps_uvr_stage env a : keeps_no_handover (uvr_stage env a).
Proof.
  unfold uvr_stage. apply keeps_if; [|apply keeps_ret].
  apply keeps_bind; [apply keeps_modify_world|]. intros _.
  apply keeps_bind; [apply keeps_get_world|]. intros w.
  apply keeps_bind; [apply keeps_if; [apply keeps_raise|apply keeps_ret]|]. intros _.
  apply keeps_get_locals. intros l Hl.
  apply keeps_bind; [apply keeps_call|]. intros vocal_path.
  apply keeps_bind; [apply keeps_get_world|]. intros w'.
  apply keeps_if; [|apply keeps_ret].
  apply keeps_get_locals. intros l' Hl'.
  apply keeps_bind; [apply keeps_when, keeps_modify_world|]. intros _.
  apply keeps_set_locals. by right.
Qed.

Lemma keeps_asr_stage env a : keeps_no_handover (asr_stage env a).
Proof.
  unfold asr_stage.
  apply keeps_bind; [apply keeps_get_world|]. intros w.
  apply keeps_bind; [apply keeps_modify_world|]. intros _.
  apply keeps_get_locals. intros l Hl.
  apply keeps_bind; [apply keeps_call|]. intros raw_text.
  repeat keeps_step.
Qed.

Lemma keeps_after_check_cache env a : keeps_no_handover (after_check_cache env a).
Proof.
  unfold after_check_cache.
  apply keeps_bind; [apply keeps_hook_stage|]. intros returned.
  apply keeps_if; [apply keeps_ret|].
  apply keeps_bind; [apply keeps_if; [apply keeps_raise|apply keeps_ret]|]. intros _.
  apply keeps_bind; [apply keeps_download_stage|]. intros _.
  apply keeps_bind; [apply keeps_lift_result|]. intros _.
  apply keeps_bind; [apply keeps_uvr_stage|]. intros _.
  apply keeps_bind; [apply keeps_lift_result|]. intros _.
  apply keeps_asr_stage.
Qed.

(** *** The cache check *)

Lemma get_cache_entry_ext s q st st' :
  media_cache_entries st = media_cache_entries st' →
  get_cache_entry s q st = get_cache_entry s q st'.
Proof. unfold get_cache_entry. by intros ->. Qed.

Lemma exists_ext p st st' : files st = files st' → exists_ p st = exists_ p st'.
Proof. unfold exists_. by intros ->. Qed.

Lemma first_live_ext s qs st st' :
  media_cache_entries st = media_cache_entries st' → files st = files st' →
  first_live s qs st = first_live s qs st'.
Proof.
  intros He Hf. induction qs as [|q qs IH]; simpl; [done|].
  rewrite (get_cache_entry_ext s q st st' He).
  destruct (get_cache_entry s q st'); [|done].
  by rewrite (exists_ext _ st st' Hf), IH.
Qed.

Lemma find_existing_cache_ext src q mode st st' :
  media_cache_entries st = media_cache_entries st' → files st = files st' →
  find_existing_cache src q mode st = find_existing_cache src q mode st'.
Proof.
  intros He Hf. unfold find_existing_cache, get_best_cache_path.
  rewrite (first_live_ext _ _ st st' He Hf), He.
  rewrite (get_cache_entry_ext _ _ st st' He).
  destruct (negb (truthy src)); [done|].
  destruct (truthy q).
  - destruct (get_cache_entry _ _ st'); [|done].
    by rewrite (exists_ext _ st st' Hf).
  - destruct (first_live _ _ st'); [done|].
    destruct (latest _); [|done]. by rewrite (exists_ext _ st st' Hf).
Qed.

Lemma first_live_exists s qs st p q :
  first_live s qs st = Some (p, q) → exists_ p st = true.
Proof.
  induction qs as [|q' qs IH]; simpl; [done|].
  destruct (get_cache_entry s q' st) as [row|]; [|done].
  destruct (str_truthy (media_path row) && exists_ (media_path row) st) eqn:E;
    [|done].
  intros [= <- <-]. by apply andb_true_iff in E as [_ ?].
Qed.

Lemma find_existing_cache_exists src q mode st p ql :
  find_existing_cache src q mode st = Some (p, ql) → exists_ p st = true.
Proof.
  unfold find_existing_cache, get_best_cache_path.
  destruct (negb (truthy src)); [done|].
  destruct (truthy q).
  - destruct (get_cache_entry _ _ st) as [row|]; [|done].
    destruct (str_truthy (media_path row) && exists_ (media_path row) st) eqn:E;
      [|done].
    intros [= <- <-]. by apply andb_true_iff in E as [_ ?].
  - destruct (first_live _ _ st) as [[p' q']|] eqn:E1.
    + intros [= <- <-]. by eapply first_live_exists.
    + destruct (latest _) as [row|]; [|done].
      destruct (str_truthy (media_path row) && exists_ (media_path row) st) eqn:E;
        [|done].
      intros [= <- <-]. by apply andb_true_iff in E as [_ ?].
Qed.

Lemma pipeline_body_unfold env a w :
  pipeline_body env a (initial_locals, w)
  = (check_cache a ≫= fun _ => after_check_cache env a)
      (initial_locals, started a w).
Proof. reflexivity. Qed.

Lemma cache_hit_no_handover env a w c q :
  find_existing_cache (Some (source_key a)) None "transcription" (db w)
  = Some (c, q) →
  no_handover (pipeline_body env a (initial_locals, w)).2.1.
Proof.
  intros Hhit. rewrite pipeline_body_unfold.
  assert (Hhit' : find_existing_cache (Some (source_key a)) None "transcription"
                    (db (started a w)) = Some (c, q)).
  { rewrite <- Hhit. by apply find_existing_cache_ext. }
  assert (Hex : exists_ c (db (started a w)) = true)
    by (by eapply find_existing_cache_exists).
  unfold mbind at 1. unfold M_bind.
  assert (Hcc : ∃ w', check_cache a (initial_locals, started a w)
                      = (Ok tt, (Locals (Some c) true false, w'))).
  { unfold check_cache. unfold mbind at 1. unfold M_bind, get_world.
    cbn [fst snd]. rewrite Hhit', Hex. eexists. reflexivity. }
  destruct Hcc as [w' ->].
  apply keeps_after_check_cache. by left.
Qed.

(** C8 (amended). The run always ends with the cleanup stage, applied to
    the locals the body ends with, after success and after a handled
    exception alike. When the working audio is a derived vocal track,
    cleanup deletes that file and changes nothing else. When it is
    neither derived nor a cache hit, cleanup hands it to
    [cleanup_or_delete] with quality "audio_only". After a cache hit,
    cleanup never calls [cleanup_or_delete]: it leaves the cache rows
    alone and every file other than the derived vocal track. *)
Theorem cleanup_stage_effects (env : collaborators) (a : args) (w : world) :
  let r := pipeline_body env a (initial_locals, w) in
  let l := r.2.1 in
  let wb := before_cleanup a r in
  let final := run_transcription_pipeline env a w in
  final = cleanup a l wb
  ∧ (is_temp_derived l = true →
     ∀ p, audio_path l = Some p → p ≠ "" →
          files (db final) = delete p (files (db wb))
          ∧ media_cache_entries (db final) = media_cache_entries (db wb))
  ∧ (is_temp_derived l = false → using_cache l = false →
     db final = cleanup_or_delete (audio_path l) (transcription_id a)
                  (Some (source_key a)) "audio_only" (clock wb) (db wb))
  ∧ (∀ c q,
       find_existing_cache (Some (source_key a)) None "transcription" (db w)
       = Some (c, q) →
       media_cache_entries (db final) = media_cache_entries (db wb)
       ∧ ∀ p, (is_temp_derived l = true → audio_path l ≠ Some p) →
              files (db final) !! p = files (db wb) !! p).
Proof.
  intros r l wb final.
  assert (Hfinal : final = cleanup a l wb).
  { unfold final, run_transcription_pipeline, wb, before_cleanup, l.
    fold r. by destruct r as [[u|e] [l' w1]]. }
  assert (Hderived : is_temp_derived l = true →
     ∀ p, audio_path l = Some p → p ≠ "" →
          files (db final) = delete p (files (db wb))
          ∧ media_cache_entries (db final) = media_cache_entries (db wb)).
  { intros Hd p Hp Hne. rewrite Hfinal. unfold cleanup. rewrite Hd, Hp.
    rewrite (truthy_Some _ Hne). cbn [from_option id andb].
    destruct (exists_ p (db wb)) eqn:Ex; [done|].
    split; [|done]. symmetry. apply delete_id.
    apply bool_decide_eq_false in Ex.
    destruct (files (db wb) !! p) eqn:E; [|done]. exfalso. apply Ex. eauto. }
  split; [done|]. split; [done|]. split.
  - intros Hd Hu. rewrite Hfinal. unfold cleanup. by rewrite Hd, Hu.
  - intros c q Hhit.
    pose proof (cache_hit_no_handover env a w c q Hhit) as Hno.
    fold r in Hno. fold l in Hno.
    destruct (is_temp_derived l) eqn:Hd.
    + destruct (audio_path l) as [v|] eqn:Hv.
      * destruct (decide (v = "")) as [->|Hne].
        { rewrite Hfinal. unfold cleanup. rewrite Hd, Hv. by simpl. }
        destruct (Hderived eq_refl v eq_refl Hne) as [Hf He].
        split; [done|]. intros p Hp. rewrite Hf.
        apply lookup_delete_ne. intros ->. by apply Hp.
      * rewrite Hfinal. unfold cleanup. rewrite Hd, Hv. by simpl.
    + destruct Hno as [Hu|?]; [|congruence].
      rewrite Hfinal. unfold cleanup. by rewrite Hd, Hu.
Qed.

Lemma pipeline_failure_witness :
  (let r := pipeline_body (env_of download_fails None no_vocals) (job false)
                          (initial_locals, w0) in
   let e := Exception "Failed to download audio from Bilibili" in
   run_transcription_pipeline (env_of download_fails None no_vocals) (job false) w0
   = cleanup (job false) r.2.1 (handle (job false) e r.2.2)
   ∧ transcriptions (db (run_transcription_pipeline
                           (env_of download_fails None no_vocals) (job false) w0))
       !! transcription_id (job false)
     = outcome_row e <$> transcriptions (db r.2.2) !! transcription_id (job false))
  ∧ (let r := pipeline_body (env_of download_then_cancel None no_vocals) (job false)
                            (initial_locals, w0) in
     let e := TaskCancelledException "Task 7 cancelled by user" in
     run_transcription_pipeline (env_of download_then_cancel None no_vocals)
                                (job false) w0
     = cleanup (job false) r.2.1 (handle (job false) e r.2.2)
     ∧ transcriptions (db (run_transcription_pipeline
                             (env_of download_then_cancel None no_vocals)
                             (job false) w0))
         !! transcription_id (job false)
       = outcome_row e <$> transcriptions (db r.2.2) !! transcription_id (job false)).
Proof.
  split.
  - apply (pipeline_failure_and_cancellation (env_of download_fails None no_vocals)
             (job false) w0 (Exception "Failed to download audio from Bilibili")).
    vm_compute. reflexivity.
  - apply (pipeline_failure_and_cancellation
             (env_of download_then_cancel None no_vocals) (job false) w0
             (TaskCancelledException "Task 7 cancelled by user")).
    vm_compute. reflexivity.
Defined.

Example download_error_marks_failed :
  transcriptions (db (run_transcription_pipeline
                        (env_of download_fails None no_vocals) (job false) w0))
    !! 7%Z
  = Some (Transcription "S" "Error: Failed to download audio from Bilibili"
                        "failed" "" false).
Proof. vm_compute. reflexivity. Qed.

Example cancel_at_checkpoint_marks_cancelled :
  transcriptions (db (run_transcription_pipeline
                        (env_of download_then_cancel None no_vocals) (job false) w0))
    !! 7%Z
  = Some (Transcription "S" "Task Cancelled" "cancelled" "" false).
Proof. vm_compute. reflexivity. Qed.

Lemma pre_asr_hook_error_is_swallowed :
  (hook_raises 7 (started (job false) w0)).1
  = Raise (Exception "subtitle request failed")
  ∧ transcriptions (db (run_transcription_pipeline
                          (env_of download_ok (Some hook_raises) no_vocals)
                          (job false) w0))
      !! 7%Z
    = Some (Transcription "S" "hello" "completed" "" false).
Proof. vm_compute. done. Qed.

Lemma cleanup_stage_witness :
  (let env := env_of download_ok None vocals_ok in
   let r := pipeline_body env (job true) (initial_locals, w_cached) in
   let wb := before_cleanup (job true) r in
   let final := run_transcription_pipeline env (job true) w_cached in
   (files (db final)
    = delete "data/temp_downloads/x_(Vocals).wav" (files (db wb))
    ∧ media_cache_entries (db final) = media_cache_entries (db wb))
   ∧ (media_cache_entries (db final) = media_cache_entries (db wb)
      ∧ ∀ p, (is_temp_derived r.2.1 = true → audio_path r.2.1 ≠ Some p) →
             files (db final) !! p = files (db wb) !! p))
  ∧ (let env := env_of download_ok None no_vocals in
     let r := pipeline_body env (job false) (initial_locals, w0) in
     let wb := before_cleanup (job false) r in
     db (run_transcription_pipeline env (job false) w0)
     = cleanup_or_delete (audio_path r.2.1) (transcription_id (job false))
         (Some (source_key (job false))) "audio_only" (clock wb) (db wb)).
Proof.
  split; [split|].
  - apply (proj1 (proj2 (cleanup_stage_effects
             (env_of download_ok None vocals_ok) (job true) w_cached)));
      [vm_compute; reflexivity|vm_compute; reflexivity|discriminate].
  - apply (proj2 (proj2 (proj2 (cleanup_stage_effects
             (env_of download_ok None vocals_ok) (job true) w_cached)))
             "data/media_cache/s_audio_only.mp3" "audio_only").
    vm_compute. reflexivity.
  - apply (proj1 (proj2 (proj2 (cleanup_stage_effects
             (env_of download_ok None no_vocals) (job false) w0))));
      vm_compute; reflexivity.
Defined.

Example cache_hit_survives_vocal_isolation :
  let final := run_transcription_pipeline (env_of download_ok None vocals_ok)
                 (job true) w_cached in
  files (db final) = files (db w_cached)
  ∧ media_path <$> media_cache_entries (db final)
    = ["data/media_cache/s_audio_only.mp3"].
Proof. vm_compute. done. Qed.

Lemma download_replaced_by_vocals_is_never_cached :
  let env := env_of download_ok None vocals_ok in
  let r := pipeline_body env (job true) (initial_locals, w0) in
  let final := run_transcription_pipeline env (job true) w0 in
  r.1 = Ok tt
  ∧ r.2.1 = Locals (Some "data/temp_downloads/x_(Vocals).wav") false true
  ∧ should_keep (db r.2.2) = true
  ∧ files (db r.2.2) !! "data/temp_downloads/x.mp3" = None
  ∧ media_cache_entries (db final) = []
  ∧ files (db final) = ∅.
Proof. vm_compute. done. Qed.

(** [separate_vocals] hands back its input when the separator is not
    installed; on a cache hit the cached file then counts as derived. *)
Example cache_hit_deleted_when_vocals_are_the_input :
  let final := run_transcription_pipeline
                 (env_of download_ok None vocals_unavailable) (job true) w_cached in
  files (db w_cached) !! "data/media_cache/s_audio_only.mp3" = Some 10%Z
  ∧ files (db final) !! "data/media_cache/s_audio_only.mp3" = None
  ∧ media_path <$> media_cache_entries (db final)
    = ["data/media_cache/s_audio_only.mp3"].
Proof. vm_compute. done. Qed.

End PipelineFacts.

Module TaskManagerFactsMore.
Import TaskManager TaskManagerSpec TaskManagerSpecMore TaskManagerFacts.

Lemma evict_oldest_length ids ts :
  (length (evict_oldest ids ts).1 ≤ MAX_HISTORY)%nat.
Proof.
  revert ts. induction ids as [|i ids IH]; intros ts; simpl; [unfold MAX_HISTORY; lia|].
  case_decide as Hlen; [apply IH|]. simpl. lia.
Qed.

Lemma evict_oldest_sublist ids ts :
  (evict_oldest ids ts).1 `suffix_of` ids.
Proof.
  revert ts. induction ids as [|i ids IH]; intros ts; simpl; [done|].
  case_decide as Hlen; [|done].
  by apply suffix_cons_r.
Qed.

Lemma evict_oldest_other ids ts i :
  i ∉ ids → (evict_oldest ids ts).2 !! i = ts !! i.
Proof.
  revert ts. induction ids as [|j ids IH]; intros ts Hi; simpl; [done|].
  apply not_elem_of_cons in Hi as [Hij Hi].
  case_decide as Hlen; [|done].
  rewrite IH by done. by apply lookup_delete_ne.
Qed.

Lemma deque_remove_length x ids :
  (length (deque_remove x ids) ≤ length ids)%nat.
Proof.
  induction ids as [|y ids IH]; simpl; [lia|].
  case_decide; simpl; lia.
Qed.

Lemma deque_remove_subseteq x ids i :
  i ∈ deque_remove x ids → i ∈ ids.
Proof.
  induction ids as [|y ids IH]; simpl; [done|].
  case_decide.
  - intros. by apply list_elem_of_further.
  - intros [->|Hi]%elem_of_cons; [apply list_elem_of_here|].
    apply list_elem_of_further. by apply IH.
Qed.

Lemma finish_task_finished_ids r j now t :
  tasks r !! j = Some t →
  _finished_ids (finish_task j now r)
  = (evict_oldest (_finished_ids r ++ [j])
                  (<[j := finished_record t now]> (tasks r))).1.
Proof.
  intros Hj. unfold finish_task. rewrite Hj.
  replace (Task _ _ _ _ _ (Some now) _) with (finished_record t now).
  - by destruct (evict_oldest _ _).
  - unfold finished_record. by case_decide.
Qed.

Lemma run_op_history_bounded o r :
  (length (_finished_ids r) ≤ MAX_HISTORY)%nat →
  (length (_finished_ids (run_op o r)) ≤ MAX_HISTORY)%nat.
Proof.
  intros Hr. destruct o as [i m now|i p msg|i|i now|i]; simpl.
  - done.
  - unfold update_progress. by destruct (tasks r !! i).
  - unfold cancel_task. by destruct (tasks r !! i).
  - destruct (tasks r !! i) as [t|] eqn:Hi.
    + rewrite (finish_task_finished_ids r i now t Hi). apply evict_oldest_length.
    + unfold finish_task. by rewrite Hi.
  - pose proof (deque_remove_length i (_finished_ids r)). lia.
Qed.

(** X1. The history of finished tasks never holds more than
    [MAX_HISTORY] ids: a registry whose history respects the bound
    respects it after any sequence of operations. *)
Theorem finished_history_stays_bounded (r : registry) (ops : list op) :
  (length (_finished_ids r) ≤ MAX_HISTORY)%nat →
  (length (_finished_ids (run_ops ops r)) ≤ MAX_HISTORY)%nat.
Proof.
  revert r. induction ops as [|o ops IH]; intros r Hr; [done|].
  simpl. apply IH. by apply run_op_history_bounded.
Qed.

Lemma finished_history_stays_bounded_witness :
  (length (_finished_ids (run_ops many_jobs empty)) ≤ MAX_HISTORY)%nat.
Proof.
  apply (finished_history_stays_bounded empty many_jobs).
  simpl. unfold MAX_HISTORY. lia.
Defined.

Lemma run_op_running i o r :
  (∀ now, o ≠ OpFinish i now) → o ≠ OpRemove i →
  running i r → running i (run_op o r).
Proof.
  intros Hfin Hrem [Hreg Hnot]. destruct o as [j m now|j p msg|j|j now|j]; simpl.
  - split; [|done]. simpl.
    destruct (decide (j = i)) as [->|Hne].
    + rewrite lookup_insert_eq. eauto.
    + by rewrite lookup_insert_ne.
  - unfold update_progress. destruct (tasks r !! j) as [t|] eqn:Hj; [|done].
    split; [|done]. simpl.
    destruct (decide (j = i)) as [->|Hne].
    + rewrite lookup_insert_eq. eauto.
    + by rewrite lookup_insert_ne.
  - unfold cancel_task. destruct (tasks r !! j) as [t|] eqn:Hj; [|done].
    split; [|done]. simpl.
    destruct (decide (j = i)) as [->|Hne].
    + rewrite lookup_insert_eq. eauto.
    + by rewrite lookup_insert_ne.
  - assert (Hne : j ≠ i) by (intros ->; by apply (Hfin now)).
    destruct (tasks r !! j) as [t|] eqn:Hj; [|unfold finish_task; by rewrite Hj].
    assert (Hnot' : i ∉ _finished_ids r ++ [j]).
    { rewrite elem_of_app, list_elem_of_singleton. intros [?|?]; [done|by subst]. }
    split.
    + rewrite (finish_task_tasks r j now t Hj).
      rewrite evict_oldest_other by done. by rewrite lookup_insert_ne.
    + rewrite (finish_task_finished_ids r j now t Hj). intros Hin.
      apply Hnot'. destruct (evict_oldest_sublist (_finished_ids r ++ [j])
        (<[j := finished_record t now]> (tasks r))) as [pre Hpre].
      rewrite Hpre. apply elem_of_app. by right.
  - assert (Hne : j ≠ i) by (intros ->; by apply Hrem).
    split; simpl.
    + by rewrite lookup_delete_ne.
    + intros Hin. apply Hnot. by apply (deque_remove_subseteq j).
Qed.

(** X2. A running task is never dropped from the registry: when task
    [i] is registered and not in the history, it is still registered
    (and still out of the history) after any sequence of operations
    that neither finishes nor removes [i], however many other tasks
    finish meanwhile. *)
Theorem running_task_is_never_evicted (i : Z) (r : registry) (ops : list op) :
  is_Some (tasks r !! i) → i ∉ _finished_ids r →
  Forall (fun o => (∀ now, o ≠ OpFinish i now) ∧ o ≠ OpRemove i) ops →
  is_Some (tasks (run_ops ops r) !! i) ∧ i ∉ _finished_ids (run_ops ops r).
Proof.
  intros Hreg Hnot Hops.
  assert (Hrun : running i r) by done. clear Hreg Hnot.
  revert r Hrun. induction Hops as [|o ops [Hfin Hrem] _ IH]; intros r Hrun; [done|].
  simpl. apply IH. by apply run_op_running.
Qed.

Lemma running_task_is_never_evicted_witness :
  is_Some (tasks (run_ops many_jobs (start_task 1 None 0 empty)) !! 1%Z)
  ∧ 1%Z ∉ _finished_ids (run_ops many_jobs (start_task 1 None 0 empty)).
Proof.
  apply (running_task_is_never_evicted 1 (start_task 1 None 0 empty) many_jobs).
  - vm_compute. eauto.
  - simpl. apply not_elem_of_nil.
  - set (l := many_jobs). vm_compute in l. subst l.
    repeat (constructor; [split; [intros ?|]; congruence|]).
    constructor.
Defined.

Lemma run_op_unflagged i o r :
  o ≠ OpCancel i → unflagged i r → unflagged i (run_op o r).
Proof.
  intros Hc Hr. destruct o as [j m now|j p msg|j|j now|j]; simpl.
  - intros t. simpl. destruct (decide (j = i)) as [->|Hne].
    + rewrite lookup_insert_eq. by intros [= <-].
    + rewrite lookup_insert_ne by done. apply Hr.
  - unfold update_progress. destruct (tasks r !! j) as [t0|] eqn:Hj; [|done].
    intros t. simpl. destruct (decide (j = i)) as [->|Hne].
    + rewrite lookup_insert_eq. intros [= <-].
      specialize (Hr t0 Hj). destruct msg as [m|]; [|done].
      by destruct (str_truthy m).
    + rewrite lookup_insert_ne by done. apply Hr.
  - assert (Hne : j ≠ i) by (intros ->; by apply Hc).
    unfold cancel_task. destruct (tasks r !! j) as [t0|] eqn:Hj; [|done].
    intros t. simpl. rewrite lookup_insert_ne by done. apply Hr.
  - destruct (tasks r !! j) as [t0|] eqn:Hj; [|unfold finish_task; by rewrite Hj].
    intros t Ht.
    destruct (finish_task_lookup r j now t0 i Hj) as [Hn|Heq];
      [by rewrite Hn in Ht|].
    rewrite Heq in Ht. destruct (decide (j = i)) as [->|Hne].
    + rewrite lookup_insert_eq in Ht. injection Ht as <-.
      simpl. by apply Hr.
    + rewrite lookup_insert_ne in Ht by done. by apply Hr.
  - intros t. simpl. destruct (decide (j = i)) as [->|Hne].
    + by rewrite lookup_delete_eq.
    + rewrite lookup_delete_ne by done. apply Hr.
Qed.

(** X3. No cancellation without a request: after [start_task i], and
    whatever operations follow that do not ask to cancel [i] (cancel
    requests for other tasks included), [check_cancel i] returns
    normally. *)
Theorem no_cancellation_without_request (i : Z) (m : option (gmap string string))
    (now : Z) (r : registry) (ops : list op) :
  Forall (fun o => o ≠ OpCancel i) ops →
  check_cancel i (run_ops ops (start_task i m now r)) = Ok tt.
Proof.
  intros Hops.
  assert (Hun : unflagged i (start_task i m now r)).
  { intros t. simpl. rewrite lookup_insert_eq. by intros [= <-]. }
  revert Hun. generalize (start_task i m now r). clear r.
  induction Hops as [|o ops Ho _ IH]; intros r Hun.
  - unfold check_cancel, is_cancelled. simpl.
    destruct (tasks r !! i) as [t|] eqn:Hi; [|done]. by rewrite (Hun t Hi).
  - simpl. apply IH. by apply run_op_unflagged.
Qed.

Lemma no_cancellation_without_request_witness :
  check_cancel 1
    (run_ops [OpStart 2 None 1; OpCancel 2; OpProgress 1 40 None; OpFinish 2 5]
             (start_task 1 None 0 (cancel_task 1 (start_task 1 None 0 empty)).2))
  = Ok tt.
Proof.
  apply (no_cancellation_without_request 1 None 0
           (cancel_task 1 (start_task 1 None 0 empty)).2
           [OpStart 2 None 1; OpCancel 2; OpProgress 1 40 None; OpFinish 2 5]).
  repeat constructor; discriminate.
Defined.

End TaskManagerFactsMore.

Module ASRClientFactsMore.
Import Store ASRClient ASRClientSpec ASRClientConfig ASRClientSpecMore ASRClientFacts.

Lemma scan_priority_Some c l e :
  scan_priority c l = Some e →
  e ∈ l ∧ skipped c e = false ∧ available c e = true.
Proof.
  induction l as [|x l IH]; simpl; [done|].
  destruct (skipped c x) eqn:Hs.
  - intros H. destruct (IH H) as (? & ? & ?). split; [by apply list_elem_of_further|done].
  - destruct (available c x) eqn:Ha.
    + intros [= <-]. split; [apply list_elem_of_here|done].
    + intros H. destruct (IH H) as (? & ? & ?).
      split; [by apply list_elem_of_further|done].
Qed.

Lemma scan_priority_None c l :
  scan_priority c l = None → none_usable c l.
Proof.
  induction l as [|x l IH]; simpl; [constructor|].
  destruct (skipped c x) eqn:Hs.
  - intros H. constructor; [by left|by apply IH].
  - destruct (available c x) eqn:Ha; [done|].
    intros H. constructor; [by right|by apply IH].
Qed.

Lemma truthy_inv o : truthy o = true → ∃ s, o = Some s ∧ s ≠ "".
Proof.
  destruct o as [s|]; [|done]. simpl. intros H. exists s. split; [done|].
  apply negb_true_iff, bool_decide_eq_false in H. done.
Qed.

(** X4. [select_worker] never returns an engine that is offline. With a
    caller override the engine returned is the requested one; without,
    it is an engine of the priority list or the pinned active engine,
    and it is a disabled engine only when it is the pinned active one. *)
Theorem select_worker_returns_available_engine (c : client)
    (preferred_engine : option string) (e : string) :
  select_worker c preferred_engine = Ok e →
  available c e = true
  ∧ (truthy preferred_engine = true → preferred_engine = Some e)
  ∧ (truthy preferred_engine = false →
       (e ∈ priority (cfg c) ∨ active_engine (cfg c) = Some e)
       ∧ (e ∈ disabled_engines (cfg c) → active_engine (cfg c) = Some e)).
Proof.
  unfold select_worker, _check_availability.
  destruct (truthy preferred_engine) eqn:Hp.
  - apply truthy_inv in Hp as (s & -> & Hs). simpl.
    destruct (available c s) eqn:Ha; [|done].
    intros [= <-]. done.
  - destruct (strict_mode (cfg c) && truthy (active_engine (cfg c))) eqn:Hstrict.
    + apply andb_true_iff in Hstrict as [_ Hact].
      apply truthy_inv in Hact as (s & Heq & Hs). rewrite Heq. simpl.
      destruct (available c s) eqn:Ha; [|done].
      intros [= <-]. split; [done|]. split; [done|]. intros _. split; [by right|done].
    + destruct (scan_priority c (priority (cfg c))) as [x|] eqn:Hscan.
      * intros [= <-]. apply scan_priority_Some in Hscan as (Hin & Hsk & Ha).
        split; [done|]. split; [done|]. intros _. split; [by left|].
        intros Hdis. unfold skipped in Hsk.
        rewrite bool_decide_eq_true_2 in Hsk by done. simpl in Hsk.
        apply negb_false_iff, bool_decide_eq_true in Hsk. done.
      * destruct (truthy (active_engine (cfg c))
                  && available c (default "" (active_engine (cfg c)))) eqn:Hf; [|done].
        apply andb_true_iff in Hf as [Hact Ha].
        apply truthy_inv in Hact as (s & Heq & Hs). rewrite Heq in *. simpl in *.
        intros [= <-]. split; [done|]. split; [done|]. intros _. split; [by right|done].
Qed.

Lemma select_worker_returns_available_engine_witness :
  available (abc false) "B" = true
  ∧ (truthy None = true → None = Some "B")
  ∧ (truthy None = false →
       ("B" ∈ priority (cfg (abc false)) ∨ active_engine (cfg (abc false)) = Some "B")
       ∧ ("B" ∈ disabled_engines (cfg (abc false)) →
          active_engine (cfg (abc false)) = Some "B")).
Proof.
  apply (select_worker_returns_available_engine (abc false) None "B").
  reflexivity.
Defined.

(** X5. Without a caller override and with strict mode off,
    [select_worker] fails exactly when every engine of the priority
    list is disabled (and not the pinned active one) or offline and the
    pinned active engine, if there is one, is offline; the error is then
    "No available ASR engines (checked priority list and skipped
    disabled ones).", and in every other case an engine is returned. *)
Theorem select_worker_fails_only_without_engine (c : client) :
  strict_mode (cfg c) = false →
  (select_worker c None
   = Raise (RuntimeError
       "No available ASR engines (checked priority list and skipped disabled ones).")
   ↔ none_usable c (priority (cfg c))
     ∧ ∀ s, active_engine (cfg c) = Some s → s ≠ "" → available c s = false)
  ∧ ((∃ e, select_worker c None = Ok e)
     ∨ select_worker c None
       = Raise (RuntimeError
           "No available ASR engines (checked priority list and skipped disabled ones).")).
Proof.
  intros Hstrict. unfold select_worker. simpl. rewrite Hstrict. simpl.
  destruct (scan_priority c (priority (cfg c))) as [x|] eqn:Hscan.
  - split; [|left; eauto]. split; [done|].
    intros [Hnone _]. by rewrite (scan_priority_none c _ Hnone) in Hscan.
  - apply scan_priority_None in Hscan.
    destruct (truthy (active_engine (cfg c))
              && available c (default "" (active_engine (cfg c)))) eqn:Hf.
    + split; [|left; eauto]. split; [done|].
      intros [_ Hact]. apply andb_true_iff in Hf as [Ht Ha].
      apply truthy_inv in Ht as (s & Heq & Hs). rewrite Heq in Ha. simpl in Ha.
      by rewrite (Hact s Heq Hs) in Ha.
    + split; [|by right]. split; [|done].
      intros _. split; [done|]. intros s Heq Hs. rewrite Heq in Hf. simpl in Hf.
      rewrite bool_decide_eq_false_2 in Hf by done. simpl in Hf. done.
Qed.

Lemma select_worker_fails_only_without_engine_witness :
  (select_worker (abc false) None
   = Raise (RuntimeError
       "No available ASR engines (checked priority list and skipped disabled ones).")
   ↔ none_usable (abc false) (priority (cfg (abc false)))
     ∧ ∀ s, active_engine (cfg (abc false)) = Some s → s ≠ "" →
            available (abc false) s = false)
  ∧ ((∃ e, select_worker (abc false) None = Ok e)
     ∨ select_worker (abc false) None
       = Raise (RuntimeError
           "No available ASR engines (checked priority list and skipped disabled ones).")).
Proof.
  apply (select_worker_fails_only_without_engine (abc false)). reflexivity.
Defined.

Section ConfigFacts.
Variable workers : list string.

Lemma add_missing_spec (l ws : list string) :
  (∀ x, x ∈ add_missing l ws ↔ x ∈ l ∨ x ∈ ws)
  ∧ (NoDup l → NoDup (add_missing l ws))
  ∧ l `prefix_of` add_missing l ws.
Proof.
  revert l. induction ws as [|w ws IH]; intros l; simpl.
  - split; [|done]. intros x. rewrite elem_of_nil. tauto.
  - case_bool_decide as Hw.
    + destruct (IH l) as (Hmem & Hnd & Hpre). split; [|done].
      intros x. rewrite Hmem, elem_of_cons. split; [tauto|].
      intros [?|[->|?]]; tauto.
    + destruct (IH (l ++ [w])) as (Hmem & Hnd & Hpre). split; [|split].
      * intros x. rewrite Hmem, elem_of_app, !elem_of_cons, elem_of_nil.
        tauto.
      * intros Hl. apply Hnd. apply NoDup_app. split; [done|]. split.
        -- intros x Hx ->%list_elem_of_singleton. done.
        -- apply NoDup_singleton.
      * etrans; [|exact Hpre]. by apply prefix_app_r.
Qed.

Lemma NoDup_List_filter_str (P : string → bool) (l : list string) :
  NoDup l → NoDup (List.filter P l).
Proof.
  induction 1 as [|x l Hx Hl IH]; simpl; [constructor|].
  destruct (P x); [|done]. constructor; [|done].
  rewrite list_elem_of_In, filter_In, <- list_elem_of_In. tauto.
Qed.

(** X6. The priority list [update_config] stores holds every worker
    and "bailian", and nothing else; it starts with the known engines
    of the requested list, in the requested order; and it has no
    duplicate when the requested list has none. *)
Theorem update_config_priority_is_complete (json_dumps : list string → string)
    (p : list string) (strict : option bool) (active : option string)
    (disabled : option (list string)) (c : config) (st : store) :
  let c' := (update_config workers json_dumps (Some p) strict active disabled c st).1 in
  (∀ e, e ∈ priority c' ↔ e ∈ workers ∨ e = "bailian")
  ∧ List.filter (known_engine workers) p `prefix_of` priority c'
  ∧ (NoDup p → NoDup (priority c')).
Proof.
  intros c'.
  assert (Hprio : priority c' = new_priority workers p).
  { unfold c', update_config. simpl.
    destruct strict, active as [a|], disabled; simpl;
      try destruct (known_engine workers a); done. }
  rewrite Hprio. unfold new_priority.
  set (valid := List.filter (known_engine workers) p).
  destruct (add_missing_spec valid workers) as (Hmem & Hnd & Hpre).
  assert (Hvalid : ∀ e, e ∈ valid → e ∈ workers ∨ e = "bailian").
  { intros e. unfold valid. rewrite list_elem_of_In, filter_In.
    intros [_ Hk]. unfold known_engine in Hk.
    apply orb_true_iff in Hk as [Hk|Hk]; apply bool_decide_eq_true in Hk; tauto. }
  case_bool_decide as Hb.
  - split; [|split; [done|]].
    + intros e. rewrite Hmem. split; [intros [?|?]; [auto|tauto]|].
      intros [? | ->]; [tauto|]. by apply Hmem.
    + intros Hp. apply Hnd. by apply NoDup_List_filter_str.
  - split; [|split].
    + intros e. rewrite elem_of_app, list_elem_of_singleton, Hmem.
      split; [intros [[?|?]|?]; auto|]. tauto.
    + etrans; [exact Hpre|]. by apply prefix_app_r.
    + intros Hp. apply NoDup_app. split; [|split].
      * apply Hnd. by apply NoDup_List_filter_str.
      * intros x Hx ->%list_elem_of_singleton. done.
      * apply NoDup_singleton.
Qed.

(** [update_config] changes the pinned active engine only to a known
    engine; the other fields take the values given. *)
Lemma update_config_guards_active_engine (json_dumps : list string → string)
    (p : option (list string)) (strict : option bool) (active : option string)
    (disabled : option (list string)) (c : config) (st : store) :
  let c' := (update_config workers json_dumps p strict active disabled c st).1 in
  active_engine c'
  = match active with
    | Some e => if known_engine workers e then Some e else active_engine c
    | None => active_engine c
    end
  ∧ strict_mode c' = default (strict_mode c) strict
  ∧ disabled_engines c' = default (disabled_engines c) disabled.
Proof.
  intros c'. unfold c', update_config. simpl.
  destruct p, strict, active as [a|], disabled; simpl;
    try destruct (known_engine workers a); done.
Qed.

Lemma system_configs_set k v st :
  system_configs (set_system_config k v st) = <[k := v]> (system_configs st).
Proof. done. Qed.

Lemma lower_bool b :
  bool_decide (Downloaders.lower (str_lower_of_bool b) = "true") = b.
Proof. by destruct b. Qed.

(** X7. What [_save_config_to_db] stores, [_load_config_from_db]
    reads back: when [json.loads] inverts [json.dumps] on the two lists
    of the configuration, loading after saving gives the saved priority,
    strict-mode flag and disabled engines, and the saved active engine
    when there is one. A configuration without active engine stores
    none, so the active engine then read is the one stored before, or
    the one of the configuration loaded into. *)
Theorem saved_config_is_loaded_back (json_dumps : list string → string)
    (json_loads : string → option (list string)) (c c0 : config) (st : store) :
  json_loads (json_dumps (priority c)) = Some (priority c) →
  json_loads (json_dumps (disabled_engines c)) = Some (disabled_engines c) →
  json_dumps (priority c) ≠ "" →
  json_dumps (disabled_engines c) ≠ "" →
  let c' := _load_config_from_db json_loads c0 (_save_config_to_db json_dumps c st) in
  priority c' = priority c
  ∧ strict_mode c' = strict_mode c
  ∧ disabled_engines c' = disabled_engines c
  ∧ (truthy (active_engine c) = true → active_engine c' = active_engine c)
  ∧ (truthy (active_engine c) = false →
     active_engine c'
     = if truthy (system_configs st !! "asr_active_engine")
       then system_configs st !! "asr_active_engine"
       else active_engine c0).
Proof.
  intros Hp Hd Hpne Hdne c'.
  assert (Hcfg : ∀ k,
    system_configs (_save_config_to_db json_dumps c st) !! k
    = if bool_decide (k = "asr_active_engine") && truthy (active_engine c)
      then active_engine c
      else if bool_decide (k = "asr_disabled_engines")
      then Some (json_dumps (disabled_engines c))
      else if bool_decide (k = "asr_strict_mode")
      then Some (str_lower_of_bool (strict_mode c))
      else if bool_decide (k = "asr_priority")
      then Some (json_dumps (priority c))
      else system_configs st !! k).
  { intros k. unfold _save_config_to_db.
    destruct (truthy (active_engine c)) eqn:Ha.
    - apply truthy_inv in Ha as (s & Heq & Hs). rewrite Heq. unfold set_system_config. simpl.
      repeat case_bool_decide; subst; simpl; try done;
        repeat (first [rewrite lookup_insert_eq | rewrite lookup_insert_ne by done]);
        done.
    - rewrite andb_false_r. unfold set_system_config. simpl.
      repeat case_bool_decide; subst; simpl; try done;
        repeat (first [rewrite lookup_insert_eq | rewrite lookup_insert_ne by done]);
        done. }
  unfold c', _load_config_from_db.
  rewrite !Hcfg. simpl.
  rewrite (bool_decide_eq_false_2 (json_dumps (priority c) = "")) by done.
  rewrite (bool_decide_eq_false_2 (json_dumps (disabled_engines c) = "")) by done.
  simpl. rewrite Hp, Hd. simpl. rewrite lower_bool.
  destruct (truthy (active_engine c)) eqn:Ha; simpl.
  - rewrite Ha. simpl. repeat split; done.
  - destruct (truthy (system_configs st !! "asr_active_engine")); simpl;
      repeat split; done.
Qed.

End ConfigFacts.

Lemma saved_config_is_loaded_back_witness :
  let c := Config ["whisper"; "sensevoice"; "bailian"] true (Some "whisper")
                  ["sensevoice"] in
  let c' := _load_config_from_db uncommas
              (Config ["sensevoice"; "whisper"; "bailian"] false None [])
              (_save_config_to_db commas c empty_store) in
  priority c' = priority c
  ∧ strict_mode c' = strict_mode c
  ∧ disabled_engines c' = disabled_engines c
  ∧ (truthy (active_engine c) = true → active_engine c' = active_engine c)
  ∧ (truthy (active_engine c) = false →
     active_engine c'
     = if truthy (system_configs empty_store !! "asr_active_engine")
       then system_configs empty_store !! "asr_active_engine"
       else None).
Proof.
  apply (saved_config_is_loaded_back commas uncommas
           (Config ["whisper"; "sensevoice"; "bailian"] true (Some "whisper")
                   ["sensevoice"])
           (Config ["sensevoice"; "whisper"; "bailian"] false None [])
           empty_store);
    vm_compute; first [reflexivity | discriminate].
Defined.

End ASRClientFactsMore.

Module DownloadersFactsMore.
Import Downloaders DownloadersSpec DownloadersSpecMore DownloadersFacts.

Lemma calls_app l1 l2 : calls (l1 ++ l2) = (calls l1 + calls l2)%nat.
Proof. unfold calls. by rewrite List.filter_app, length_app. Qed.

Lemma slept_app l1 l2 : slept (l1 ++ l2) = (slept l1 + slept l2)%Z.
Proof.
  induction l1 as [|[a|s] l1 IH]; simpl; [done|done|]. rewrite IH. lia.
Qed.

Lemma backoff_log d a m :
  calls (flat_map (fun j => [Call j; Sleep (d * 2 ^ Z.of_nat j)]) (seq a m)) = m
  ∧ slept (flat_map (fun j => [Call j; Sleep (d * 2 ^ Z.of_nat j)]) (seq a m))
    = (d * (2 ^ Z.of_nat (a + m) - 2 ^ Z.of_nat a))%Z.
Proof.
  revert a. induction m as [|m IH]; intros a.
  - simpl. rewrite Nat.add_0_r. split; [done|lia].
  - destruct (IH (S a)) as [Hc Hs]. cbn [seq flat_map].
    rewrite calls_app, slept_app, Hc, Hs. split; [done|].
    cbn [slept foldr app].
    replace (S a + m)%nat with (a + S m)%nat by lia.
    replace (Z.of_nat (S a)) with (Z.of_nat a + 1)%Z by lia.
    rewrite Z.pow_add_r by lia. lia.
Qed.

Lemma attempts_log_totals d k :
  calls (attempts_log d 0 k) = S k
  ∧ slept (attempts_log d 0 k) = (d * (2 ^ Z.of_nat k - 1))%Z.
Proof.
  unfold attempts_log. rewrite calls_app, slept_app, Nat.sub_0_r.
  destruct (backoff_log d 0 k) as [Hc Hs]. rewrite Hc, Hs.
  change (calls [Call k]) with 1%nat. change (slept [Call k]) with 0%Z.
  split; [lia|]. rewrite Nat.add_0_l. change (2 ^ Z.of_nat 0)%Z with 1%Z. lia.
Qed.

(** X8. For every number of attempts [max_retries] and base delay
    [retry_delay >= 0], the retry wrapper invokes the wrapped function
    at most [max_retries] times, sleeps [retry_delay * (2^(calls-1) - 1)]
    seconds in total, which is at most
    [retry_delay * (2^(max_retries-1) - 1)], and lets no exception
    through except a cancellation; with [max_retries = 0] it returns
    [None] without invoking the function. *)
Theorem retry_wrapper_is_bounded (max_retries : nat) (retry_delay : Z)
    (func : wrapped) :
  (0 <= retry_delay)%Z →
  let r := retry_on_network_error max_retries retry_delay func in
  (calls r.2 ≤ max_retries)%nat
  ∧ slept r.2 = (retry_delay * (2 ^ Z.of_nat (calls r.2 - 1) - 1))%Z
  ∧ (slept r.2 <= retry_delay * (2 ^ Z.of_nat (max_retries - 1) - 1))%Z
  ∧ (∀ e, r.1 = Raise e → is_cancellation e = true)
  ∧ (max_retries = 0%nat → r = (Ok None, [])).
Proof.
  intros Hd r. subst r. unfold retry_on_network_error.
  destruct max_retries as [|n].
  { simpl. repeat split; try done; lia. }
  destruct (wrapper_loop_spec func (S n) retry_delay (S n) 0 [])
    as (k & Hk & _ & _ & Heq); [lia|lia|].
  rewrite Heq. cbn [fst snd app].
  destruct (attempts_log_totals retry_delay k) as [Hc Hs].
  rewrite Hc, Hs.
  replace (S k - 1)%nat with k by lia.
  replace (S n - 1)%nat with n by lia.
  split; [lia|]. split; [done|]. split.
  - apply Z.mul_le_mono_nonneg_l; [done|].
    assert (2 ^ Z.of_nat k <= 2 ^ Z.of_nat n)%Z; [|lia].
    apply Z.pow_le_mono_r; lia.
  - split; [|done]. intros e. unfold final_result.
    destruct (func k) as [v|e']; [done|].
    destruct (is_cancellation e') eqn:Ec; [|done]. by intros [= <-].
Qed.

Lemma retry_wrapper_is_bounded_witness :
  let r := retry_on_network_error 5 2 always_times_out in
  (calls r.2 ≤ 5)%nat
  ∧ slept r.2 = (2 * (2 ^ Z.of_nat (calls r.2 - 1) - 1))%Z
  ∧ (slept r.2 <= 2 * (2 ^ Z.of_nat (5 - 1) - 1))%Z
  ∧ (∀ e, r.1 = Raise e → is_cancellation e = true)
  ∧ (5%nat = 0%nat → r = (Ok None, [])).
Proof.
  apply (retry_wrapper_is_bounded 5 2 always_times_out). lia.
Defined.

End DownloadersFactsMore.

Module MediaCacheFactsMore.
Import Store MediaCacheService MediaCacheSpec GcSpec MediaCacheIntegrity
       MediaCacheSpecMore MediaCacheFacts GcFacts.

(** *** Rows of the cache table *)

Lemma same_key_true_iff s q e : same_key s q e = true ↔ key e = (s, q).
Proof.
  unfold same_key, key. rewrite andb_true_iff, !bool_decide_eq_true.
  split; [intros [-> ->]; done|by intros [= -> ->]].
Qed.

Lemma find_same_key_Some s q l e :
  find (same_key s q) l = Some e → e ∈ l ∧ key e = (s, q).
Proof.
  intros H. apply find_some in H as [Hin Hk].
  split; [by apply list_elem_of_In|by apply same_key_true_iff].
Qed.

Lemma find_same_key_None s q l :
  find (same_key s q) l = None ↔ (s, q) ∉ key <$> l.
Proof.
  induction l as [|x l IH]; simpl.
  - split; [intros _; apply not_elem_of_nil|done].
  - destruct (same_key s q x) eqn:Hx.
    + split; [done|]. intros Hn. exfalso. apply Hn.
      apply same_key_true_iff in Hx. rewrite <- Hx. apply list_elem_of_here.
    + rewrite IH, not_elem_of_cons. split; [|tauto].
      intros Hn. split; [|done]. intros Heq.
      assert (same_key s q x = true) by (by apply same_key_true_iff).
      congruence.
Qed.

Lemma find_other_key_map s q s' q' row l :
  key row = (s, q) → (s', q') ≠ (s, q) →
  find (same_key s' q') (map (fun e => if same_key s q e then row else e) l)
  = find (same_key s' q') l.
Proof.
  intros Hrow Hne. induction l as [|x l IH]; simpl; [done|].
  destruct (same_key s q x) eqn:Hx.
  - assert (same_key s' q' row = false) as ->.
    { apply not_true_is_false. rewrite same_key_true_iff. congruence. }
    assert (same_key s' q' x = false) as ->; [|done].
    apply not_true_is_false. rewrite same_key_true_iff.
    apply same_key_true_iff in Hx. congruence.
  - by rewrite IH.
Qed.

Lemma find_other_key_app s' q' row l :
  same_key s' q' row = false →
  find (same_key s' q') (l ++ [row]) = find (same_key s' q') l.
Proof.
  intros Hrow. induction l as [|x l IH]; simpl; [by rewrite Hrow|].
  by destruct (same_key s' q' x).
Qed.

Lemma key_map_same s q row (l : list cache_entry) :
  key row = (s, q) →
  key <$> map (fun e => if same_key s q e then row else e) l = key <$> l.
Proof.
  intros Hrow. induction l as [|x l IH]; simpl; [done|]. f_equal; [|done].
  destruct (same_key s q x) eqn:Hx; [|done].
  apply same_key_true_iff in Hx. congruence.
Qed.

Lemma upsert_entries s q p sz now st :
  media_cache_entries (upsert_cache_entry s q p sz now st)
  = match get_cache_entry s q st with
    | Some _ => map (fun e => if same_key s q e then CacheEntry s q p sz now else e)
                    (media_cache_entries st)
    | None => media_cache_entries st ++ [CacheEntry s q p sz now]
    end.
Proof. unfold upsert_cache_entry. by destruct (get_cache_entry s q st). Qed.


(** X9. [upsert_cache_entry] and [get_cache_entry] round trip: after
    the upsert the row for [(s, q)] is the one written, the row of every
    other key is as before, the files are untouched, and the table keeps
    one row per key when it had one row per key. *)
Theorem upsert_then_get_cache_entry (s q p : string) (sz now : Z) (st : store) :
  let st' := upsert_cache_entry s q p sz now st in
  get_cache_entry s q st' = Some (CacheEntry s q p sz now)
  ∧ (∀ s' q', (s', q') ≠ (s, q) →
       get_cache_entry s' q' st' = get_cache_entry s' q' st)
  ∧ files st' = files st
  ∧ (NoDup (key <$> media_cache_entries st) →
     NoDup (key <$> media_cache_entries st')).
Proof.
  intros st'. split; [apply get_cache_entry_upsert|].
  split; [|split; [apply files_upsert|]].
  - intros s' q' Hne. unfold get_cache_entry. subst st'. rewrite upsert_entries.
    destruct (get_cache_entry s q st).
    + by apply find_other_key_map.
    + apply find_other_key_app. apply not_true_is_false.
      rewrite same_key_true_iff. unfold key. simpl. congruence.
  - intros Hnd. subst st'. rewrite upsert_entries.
    destruct (get_cache_entry s q st) eqn:Hg.
    + by rewrite key_map_same.
    + rewrite fmap_app. apply NoDup_app. split; [done|]. split.
      * intros k Hk ->%list_elem_of_singleton.
        by apply find_same_key_None in Hg.
      * apply NoDup_singleton.
Qed.

Lemma find_filter_other s q s' q' (l : list cache_entry) :
  (s', q') ≠ (s, q) →
  find (same_key s' q') (filter (fun e => same_key s q e = false) l)
  = find (same_key s' q') l.
Proof.
  intros Hne. induction l as [|x l IH]; [done|].
  rewrite filter_cons. destruct (same_key s q x) eqn:Hx.
  - rewrite decide_False by done. simpl.
    assert (same_key s' q' x = false) as ->; [|done].
    apply not_true_is_false. rewrite same_key_true_iff.
    apply same_key_true_iff in Hx. congruence.
  - rewrite decide_True by done. simpl. by rewrite IH.
Qed.

(** X10. [delete_cache_entry] removes the row of its key and nothing
    else: afterwards [get_cache_entry] finds no row for [(s, q)], finds
    for every other key what it found before, and the files are
    untouched (deleting the row never deletes the file). *)
Theorem delete_then_get_cache_entry (s q : string) (st : store) :
  let st' := delete_cache_entry s q st in
  get_cache_entry s q st' = None
  ∧ (∀ s' q', (s', q') ≠ (s, q) →
       get_cache_entry s' q' st' = get_cache_entry s' q' st)
  ∧ files st' = files st
  ∧ media_cache_entries st' `sublist_of` media_cache_entries st.
Proof.
  intros st'. subst st'. unfold get_cache_entry, delete_cache_entry. simpl.
  split; [|split; [|split; [done|apply sublist_filter]]].
  - apply find_same_key_None. intros Hin.
    apply list_elem_of_fmap in Hin as (e & Hk & He).
    apply list_elem_of_filter in He as [Hf _].
    assert (same_key s q e = true) by (by apply same_key_true_iff).
    congruence.
  - intros s' q' Hne. by apply find_filter_other.
Qed.

(** *** Looking a source up *)

Lemma first_live_Some s qs st p q :
  first_live s qs st = Some (p, q) →
  q ∈ qs ∧ p ≠ "" ∧ exists_ p st = true
  ∧ ∃ e, get_cache_entry s q st = Some e ∧ media_path e = p.
Proof.
  induction qs as [|q0 qs IH]; simpl; [done|].
  destruct (get_cache_entry s q0 st) as [row|] eqn:Hg.
  - destruct (str_truthy (media_path row) && exists_ (media_path row) st) eqn:Hl.
    + intros [= <- <-]. apply andb_true_iff in Hl as [Ht Hex].
      split; [apply list_elem_of_here|]. split.
      * unfold str_truthy in Ht. by apply negb_true_iff, bool_decide_eq_false in Ht.
      * split; [done|]. by exists row.
    + intros H. destruct (IH H) as (? & ? & ? & ?).
      split; [by apply list_elem_of_further|done].
  - intros H. destruct (IH H) as (? & ? & ? & ?).
    split; [by apply list_elem_of_further|done].
Qed.

Lemma latest_elem l e : latest l = Some e → e ∈ l.
Proof.
  revert e. induction l as [|x l IH]; intros e; simpl; [done|].
  destruct (latest l) as [e'|].
  - destruct (cached_at x <? cached_at e')%Z; intros [= <-].
    + apply list_elem_of_further. by apply IH.
    + apply list_elem_of_here.
  - intros [= <-]. apply list_elem_of_here.
Qed.

Lemma truthy_true_inv o : truthy o = true → ∃ s, o = Some s ∧ s ≠ "".
Proof.
  destruct o as [s|]; [|done]. simpl. intros H. exists s. split; [done|].
  by apply negb_true_iff, bool_decide_eq_false in H.
Qed.

Lemma find_existing_cache_row (src q : option string) (mode : string)
    (st : store) (p q' : string) :
  find_existing_cache src q mode st = Some (p, q') →
  p ≠ "" ∧ exists_ p st = true
  ∧ (∃ s e, src = Some s ∧ s ≠ "" ∧ e ∈ media_cache_entries st
            ∧ source_id e = s ∧ quality e = q' ∧ media_path e = p)
  ∧ (truthy q = true → q = Some q').
Proof.
  unfold find_existing_cache.
  destruct (truthy src) eqn:Hsrc; [|done]. simpl.
  apply truthy_true_inv in Hsrc as (s & -> & Hs). simpl.
  destruct (truthy q) eqn:Hq.
  - apply truthy_true_inv in Hq as (qq & -> & Hqq). simpl.
    destruct (get_cache_entry s qq st) as [entry|] eqn:Hg; [|done].
    destruct (str_truthy (media_path entry) && exists_ (media_path entry) st) eqn:Hl;
      [|done].
    intros [= <- <-]. apply andb_true_iff in Hl as [Ht Hex].
    apply find_same_key_Some in Hg as [Hin [= Hk1 Hk2]].
    split; [unfold str_truthy in Ht;
            by apply negb_true_iff, bool_decide_eq_false in Ht|].
    split; [done|]. split; [|done]. exists s, entry. done.
  - unfold get_best_cache_path.
    destruct (first_live s (priorities mode) st) as [[p0 q0]|] eqn:Hf.
    + intros [= <- <-].
      apply first_live_Some in Hf as (_ & Hp & Hex & e & Hg & Hpath).
      apply find_same_key_Some in Hg as [Hin [= Hk1 Hk2]].
      split; [done|]. split; [done|]. split; [|done]. exists s, e. done.
    + destruct (latest _) as [row|] eqn:Hlat; [|done].
      destruct (str_truthy (media_path row) && exists_ (media_path row) st) eqn:Hl;
        [|done].
      intros [= <- <-]. apply andb_true_iff in Hl as [Ht Hex].
      apply latest_elem in Hlat. apply list_elem_of_filter in Hlat as [Hsrc Hin].
      apply bool_decide_unpack in Hsrc.
      split; [unfold str_truthy in Ht;
              by apply negb_true_iff, bool_decide_eq_false in Ht|].
      split; [done|]. split; [|done]. exists s, row. done.
Qed.

(** X11. [find_existing_cache] never returns a dangling path: the path
    returned is not empty, names a file that is on disk, and is the path
    a row of the table records for the requested source under the
    returned quality; when a quality is requested, the returned quality
    is that one. *)
Theorem find_existing_cache_is_sound (src q : option string) (mode : string)
    (st : store) (p q' : string) :
  find_existing_cache src q mode st = Some (p, q') →
  p ≠ "" ∧ exists_ p st = true
  ∧ (∃ s e, src = Some s ∧ s ≠ "" ∧ e ∈ media_cache_entries st
            ∧ source_id e = s ∧ quality e = q' ∧ media_path e = p)
  ∧ (truthy q = true → q = Some q').
Proof. apply find_existing_cache_row. Qed.

Lemma find_existing_cache_is_sound_witness :
  "data/media_cache/a.mp4" ≠ ""
  ∧ exists_ "data/media_cache/a.mp4" st_messy = true
  ∧ (∃ s e, Some "A" = Some s ∧ s ≠ "" ∧ e ∈ media_cache_entries st_messy
            ∧ source_id e = s ∧ quality e = "best"
            ∧ media_path e = "data/media_cache/a.mp4")
  ∧ (truthy None = true → None = Some "best").
Proof.
  apply (find_existing_cache_is_sound (Some "A") None "transcription" st_messy).
  vm_compute. reflexivity.
Defined.

Lemma first_live_skip s l1 qs st :
  Forall (fun q' => not_live s q' st) l1 →
  first_live s (l1 ++ qs) st = first_live s qs st.
Proof.
  induction 1 as [|q' l1 Hq _ IH]; simpl; [done|].
  destruct (get_cache_entry s q' st) as [row|] eqn:Hg; [|done].
  destruct (Hq row Hg) as [Hp|Hex].
  - unfold str_truthy. rewrite Hp. simpl. done.
  - rewrite Hex, andb_false_r. done.
Qed.

(** X12. Without a requested quality, [find_existing_cache] takes the
    first quality of the mode's preference order whose row points to a
    file on disk: "audio_only", "worst", "medium", "best", "video" for
    transcription, "best", "medium", "video", "worst", "audio_only"
    otherwise. Rows whose file is missing are passed over. *)
Theorem find_existing_cache_follows_preference (s mode : string) (st : store)
    (l1 l2 : list string) (q : string) (e : cache_entry) :
  s ≠ "" →
  priorities mode = l1 ++ q :: l2 →
  Forall (fun q' => not_live s q' st) l1 →
  get_cache_entry s q st = Some e →
  media_path e ≠ "" → exists_ (media_path e) st = true →
  find_existing_cache (Some s) None mode st = Some (media_path e, q)
  ∧ priorities "transcription" = ["audio_only"; "worst"; "medium"; "best"; "video"]
  ∧ (mode ≠ "transcription" →
     priorities mode = ["best"; "medium"; "video"; "worst"; "audio_only"]).
Proof.
  intros Hs Hprio Hpre Hg Hp Hex. split; [|split; [done|]].
  - unfold find_existing_cache. simpl.
    rewrite bool_decide_eq_false_2 by done. simpl.
    unfold get_best_cache_path. rewrite Hprio, (first_live_skip s l1 _ st Hpre).
    simpl. rewrite Hg, Hex. unfold str_truthy.
    rewrite bool_decide_eq_false_2 by done. done.
  - intros Hm. unfold priorities. by rewrite bool_decide_eq_false_2.
Qed.

Lemma find_existing_cache_follows_preference_witness :
  find_existing_cache (Some "A") None "transcription" st_messy
  = Some ("data/media_cache/a.mp4", "best")
  ∧ priorities "transcription" = ["audio_only"; "worst"; "medium"; "best"; "video"]
  ∧ ("transcription" ≠ "transcription" →
     priorities "transcription" = ["best"; "medium"; "video"; "worst"; "audio_only"]).
Proof.
  apply (find_existing_cache_follows_preference "A" "transcription" st_messy
           ["audio_only"; "worst"; "medium"] ["video"] "best"
           (CacheEntry "A" "best" "data/media_cache/a.mp4" 5 100)).
  - discriminate.
  - reflexivity.
  - repeat (apply Forall_cons_2;
      [intros e He; vm_compute in He;
       first [discriminate | injection He as <-; right; vm_compute; reflexivity]|]).
    apply Forall_nil_2.
  - vm_compute. reflexivity.
  - discriminate.
  - vm_compute. reflexivity.
Defined.

End MediaCacheFactsMore.

Module CacheFileFacts.
Import Store MediaCacheService MediaCacheSpec GcSpec MediaCacheIntegrity
       MediaCacheSpecMore MediaCacheFacts GcFacts MediaCacheFactsMore.

(** *** Characters of the cached file's name *)

Lemma chars_app s1 s2 :
  PyStr.chars (s1 +:+ s2) = PyStr.chars s1 ++ PyStr.chars s2.
Proof. induction s1 as [|c s1 IH]; simpl; [done|]. by f_equal. Qed.

Lemma backslash_to_slash_id s :
  no_backslash s → PyStr.backslash_to_slash s = s.
Proof.
  unfold no_backslash, PyStr.backslash_to_slash, PyStr.chars, PyStr.str.
  induction s as [|c s IH]; simpl; [done|].
  intros [Hc Hs]%not_elem_of_cons.
  rewrite decide_False by done. f_equal. by apply IH.
Qed.

Lemma hex_digit_is_hex x : (0 <= x < 16)%Z → is_hex (MD5.hex_digit x).
Proof.
  intros Hx.
  assert (x ∈ (Z.of_nat <$> seq 0 16)) as Hin.
  { apply list_elem_of_fmap. exists (Z.to_nat x). split; [lia|].
    apply elem_of_seq. lia. }
  simpl in Hin.
  repeat (apply elem_of_cons in Hin as [->|Hin];
          [apply (bool_decide_unpack _); vm_compute; exact I|]).
  by apply elem_of_nil in Hin.
Qed.

Lemma hex_byte_is_hex x : (0 <= x < 256)%Z → Forall is_hex (MD5.hex_byte x).
Proof.
  intros Hx. unfold MD5.hex_byte.
  apply Forall_cons_2; [|apply Forall_cons_2; [|apply Forall_nil_2]];
    apply hex_digit_is_hex.
  - rewrite Z.shiftr_div_pow2 by lia. change (2 ^ 4)%Z with 16%Z.
    split; [apply Z.div_pos; lia|apply Z.div_lt_upper_bound; lia].
  - change 15%Z with (Z.ones 4). rewrite Z.land_ones by lia.
    change (2 ^ 4)%Z with 16%Z. apply Z.mod_pos_bound. lia.
Qed.

Lemma le_bytes_range n x : Forall (fun b => 0 <= b < 256)%Z (MD5.le_bytes n x).
Proof.
  unfold MD5.le_bytes. apply Forall_fmap, Forall_forall. intros i _. simpl.
  change 255%Z with (Z.ones 8). rewrite Z.land_ones by lia.
  change (2 ^ 8)%Z with 256%Z. apply Z.mod_pos_bound. lia.
Qed.

Lemma hexdigest_is_hex s :
  Forall is_hex (PyStr.chars (MD5.hexdigest s))
  ∧ length (PyStr.chars (MD5.hexdigest s)) = 32%nat.
Proof.
  unfold MD5.hexdigest.
  destruct (MD5.blocks _ _ _) as [[[a b] c] d].
  unfold PyStr.chars. rewrite String.list_ascii_of_string_of_list_ascii.
  split.
  - apply Forall_concat, Forall_fmap.
    assert (Hb : Forall (fun x => 0 <= x < 256)%Z
                   (MD5.le_bytes 4 a ++ MD5.le_bytes 4 b
                    ++ MD5.le_bytes 4 c ++ MD5.le_bytes 4 d)).
    { repeat (apply Forall_app; split); apply le_bytes_range. }
    eapply Forall_impl; [exact Hb|]. intros x Hx. simpl. by apply hex_byte_is_hex.
  - reflexivity.
Qed.

Lemma is_hex_plain c : is_hex c → c ≠ "\"%char ∧ c ≠ "/"%char.
Proof.
  unfold is_hex. intros Hin. simpl in Hin.
  repeat (apply elem_of_cons in Hin as [->|Hin]; [split; discriminate|]).
  by apply elem_of_nil in Hin.
Qed.

Lemma hexdigest_first s :
  ∃ c rest, MD5.hexdigest s = String c rest ∧ is_hex c.
Proof.
  destruct (hexdigest_is_hex s) as [Hhex Hlen].
  destruct (MD5.hexdigest s) as [|c rest]; [done|].
  exists c, rest. split; [done|]. by apply Forall_cons_1 in Hhex as [? _].
Qed.

Lemma new_filename_plain temp tid src q :
  src ≠ "" → no_backslash q → no_backslash (PyStr.splitext_ext temp) →
  no_backslash (new_filename temp tid (Some src) q)
  ∧ String.prefix "/" (new_filename temp tid (Some src) q) = false.
Proof.
  intros Hsrc Hq Hext. unfold new_filename. rewrite (truthy_Some _ Hsrc). simpl.
  destruct (hexdigest_is_hex src) as [Hhex _].
  assert (Hh : no_backslash (MD5.hexdigest src)).
  { unfold no_backslash. intros Hin.
    rewrite Forall_forall in Hhex. by destruct (is_hex_plain _ (Hhex _ Hin)). }
  destruct (hexdigest_first src) as (c & rest & Heq & Hc).
  destruct (is_hex_plain c Hc) as [_ Hslash].
  assert (Hpre : ∀ tail, String.prefix "/" (MD5.hexdigest src +:+ tail) = false).
  { intros tail. rewrite Heq. clear Heq Hc.
    destruct c as [[] [] [] [] [] [] [] []]; first [reflexivity | congruence]. }
  destruct (str_truthy q && negb (bool_decide (q = "best"))).
  - split; [|apply Hpre]. unfold no_backslash in *.
    rewrite !chars_app, !elem_of_app. simpl.
    rewrite elem_of_cons, elem_of_nil. intros [?|[[?|?]|[?|?]]]; done.
  - split; [|apply Hpre]. unfold no_backslash in *.
    rewrite chars_app, elem_of_app. tauto.
Qed.

Lemma target_is_relative name :
  no_backslash name → String.prefix "/" name = false →
  relative_path_of name = target_path_of name
  ∧ target_path_of name = "data/media_cache/" +:+ name.
Proof.
  intros Hname Hpre.
  assert (Ht : target_path_of name = "data/media_cache/" +:+ name).
  { unfold target_path_of, PyStr.path_join. by rewrite Hpre. }
  split; [|done]. unfold relative_path_of.
  change (PyStr.path_join "data" "media_cache") with MEDIA_CACHE_DIR.
  fold (target_path_of name). rewrite Ht.
  apply backslash_to_slash_id. unfold no_backslash in *.
  rewrite chars_app, elem_of_app. intros [Hin|Hin]; [|done].
  simpl in Hin.
  repeat (apply elem_of_cons in Hin as [Hin|Hin]; [discriminate|]).
  by apply elem_of_nil in Hin.
Qed.

Lemma str_truthy_true s : s ≠ "" → str_truthy s = true.
Proof. intros. unfold str_truthy. by rewrite bool_decide_eq_false_2. Qed.

(** X13. What [cache_file] stores, [find_existing_cache] finds: for a
    source that is not empty, an existing temporary file that is not
    the cache target itself, and a quality and an extension that hold
    no backslash, the call returns the relative path
    "data/media_cache/<name>", the file is on disk under that path, the
    row records that path with the size of the file, and a lookup of
    the source under that quality returns the path. *)
Theorem cached_file_is_found_again (st : store) (temp src q mode : string)
    (tid now : Z) :
  src ≠ "" → temp ≠ "" → q ≠ "" →
  exists_ temp st = true →
  no_backslash q → no_backslash (PyStr.splitext_ext temp) →
  temp ≠ target_path_of (new_filename temp tid (Some src) q) →
  let c := cache_file (Some temp) tid (Some src) q now st in
  let rel := "data/media_cache/" +:+ new_filename temp tid (Some src) q in
  c.1 = Some rel
  ∧ exists_ rel c.2 = true
  ∧ get_cache_entry src q c.2 = Some (CacheEntry src q rel (getsize rel c.2) now)
  ∧ find_existing_cache (Some src) (Some q) mode c.2 = Some (rel, q).
Proof.
  intros Hsrc Htemp Hq Hex Hqb Hextb Hne c rel. subst c rel.
  destruct (new_filename_plain temp tid src q Hsrc Hqb Hextb) as [Hplain Hpre].
  destruct (target_is_relative _ Hplain Hpre) as [Hrel Htarget].
  rewrite (cache_file_with_source temp tid src q now st Hsrc Htemp Hex).
  cbn [fst snd]. rewrite Hrel.
  set (name := new_filename temp tid (Some src) q) in *.
  rewrite <- Htarget. set (target := target_path_of name) in *.
  set (st1 := if exists_ target st then remove temp st else move temp target st).
  assert (∃ sz, files st1 !! target = Some sz) as [sz Hsz].
  { subst st1. destruct (exists_ target st) eqn:Et.
    - apply exists_true in Et as [sz Hsz]. exists sz.
      unfold remove. simpl. by rewrite lookup_delete_ne.
    - apply exists_true in Hex as [sz Hsz]. exists sz.
      unfold move. rewrite Hsz. simpl. apply lookup_insert_eq. }
  assert (Hext1 : exists_ target st1 = true) by (apply exists_true; eauto).
  rewrite Hext1.
  set (st2 := _reset_expired_policy src now _).
  assert (Hfiles : files st2 = files st1).
  { subst st2. by rewrite files_reset, files_upsert. }
  assert (Hex2 : exists_ target st2 = true).
  { apply exists_true. rewrite Hfiles. eauto. }
  assert (Hsize : getsize target st2 = getsize target st1).
  { unfold getsize. by rewrite Hfiles. }
  assert (Hrow : get_cache_entry src q st2
                 = Some (CacheEntry src q target (getsize target st1) now)).
  { subst st2. unfold get_cache_entry. rewrite entries_reset.
    apply get_cache_entry_upsert. }
  split; [done|]. split; [done|]. split; [by rewrite Hsize|].
  unfold find_existing_cache. rewrite !truthy_Some by done. simpl.
  rewrite Hrow. simpl. rewrite Hex2, str_truthy_true; [done|].
  rewrite Htarget. discriminate.
Qed.

Lemma cached_file_is_found_again_witness :
  let c := cache_file (Some "data/temp_downloads/x.mp3") 7 (Some "S")
             "audio_only" 100 st_download in
  let rel := "data/media_cache/"
             +:+ new_filename "data/temp_downloads/x.mp3" 7 (Some "S") "audio_only" in
  c.1 = Some rel
  ∧ exists_ rel c.2 = true
  ∧ get_cache_entry "S" "audio_only" c.2
    = Some (CacheEntry "S" "audio_only" rel (getsize rel c.2) 100)
  ∧ find_existing_cache (Some "S") (Some "audio_only") "transcription" c.2
    = Some (rel, "audio_only").
Proof.
  apply (cached_file_is_found_again st_download "data/temp_downloads/x.mp3" "S"
           "audio_only" "transcription" 7 100).
  - discriminate.
  - discriminate.
  - discriminate.
  - vm_compute. reflexivity.
  - apply (bool_decide_unpack _). vm_compute. exact I.
  - apply (bool_decide_unpack _). vm_compute. exact I.
  - vm_compute. discriminate.
Defined.

Lemma files_cache_file temp_path tid src q now st :
  files (cache_file temp_path tid src q now st).2
  = if negb (truthy temp_path) || negb (exists_ (default "" temp_path) st)
    then files st
    else let temp := default "" temp_path in
         let target := target_path_of (new_filename temp tid src q) in
         if exists_ target st && truthy src
         then delete temp (files st)
         else files (move temp target st).
Proof.
  unfold cache_file.
  destruct (negb (truthy temp_path) || negb (exists_ (default "" temp_path) st));
    [done|].
  cbv zeta. cbn [snd].
  match goal with
  | |- files (if ?b then _ else _) = _ => destruct b
  end; rewrite ?files_reset, ?files_upsert;
    by destruct (exists_ _ st && truthy src).
Qed.

(** X14. [cleanup_or_delete] always disposes of the temporary file:
    whatever the retention policy, the file is gone from its temporary
    path afterwards (moved into the cache, or deleted), unless that path
    is the cache target itself; and no file other than the temporary
    one and the cache target is touched. *)
Theorem cleanup_or_delete_disposes_of_temp (st : store) (temp : string) (tid : Z)
    (src : option string) (q : string) (now : Z) :
  temp ≠ "" →
  temp ≠ target_path_of (new_filename temp tid src q) →
  let st' := cleanup_or_delete (Some temp) tid src q now st in
  exists_ temp st' = false
  ∧ ∀ p, p ≠ temp → p ≠ target_path_of (new_filename temp tid src q) →
         files st' !! p = files st !! p.
Proof.
  intros Htemp Hne st'. subst st'. unfold cleanup_or_delete.
  rewrite (truthy_Some _ Htemp). simpl.
  destruct (exists_ temp st) eqn:Hex; simpl.
  2:{ split; [done|]. done. }
  destruct (should_keep st).
  - rewrite <- (not_true_iff_false (exists_ _ _)), exists_true.
    rewrite files_cache_file. rewrite (truthy_Some _ Htemp). simpl.
    rewrite Hex. simpl.
    set (target := target_path_of (new_filename temp tid src q)) in *.
    apply exists_true in Hex as [sz Hsz].
    destruct (exists_ target st && truthy src).
    + split.
      * rewrite lookup_delete_eq. by intros [? ?].
      * intros p Hp _. by rewrite lookup_delete_ne.
    + unfold move. rewrite Hsz. simpl. split.
      * rewrite lookup_insert_ne by done. rewrite lookup_delete_eq. by intros [? ?].
      * intros p Hp Hpt. rewrite lookup_insert_ne by done.
        by rewrite lookup_delete_ne.
  - split.
    + apply not_true_iff_false. rewrite exists_true. unfold remove. simpl.
      rewrite lookup_delete_eq. by intros [? ?].
    + intros p Hp _. unfold remove. simpl. by rewrite lookup_delete_ne.
Qed.

Lemma cleanup_or_delete_disposes_of_temp_witness :
  let st' := cleanup_or_delete (Some "data/temp_downloads/x.mp3") 7 (Some "S")
               "audio_only" 100 st_download in
  exists_ "data/temp_downloads/x.mp3" st' = false
  ∧ ∀ p, p ≠ "data/temp_downloads/x.mp3" →
         p ≠ target_path_of (new_filename "data/temp_downloads/x.mp3" 7
                               (Some "S") "audio_only") →
         files st' !! p = files st_download !! p.
Proof.
  apply (cleanup_or_delete_disposes_of_temp st_download
           "data/temp_downloads/x.mp3" 7 (Some "S") "audio_only" 100).
  - discriminate.
  - vm_compute. discriminate.
Defined.





End CacheFileFacts.

Module RetentionFacts.
Import Store MediaCacheService MediaCacheSpec GcSpec MediaCacheIntegrity
       MediaCacheSpecMore MediaCacheFacts GcFacts MediaCacheFactsMore.

Lemma get_retention_policy_keep_days st N :
  system_configs st !! "media_retention_policy" = Some ("keep_days:" +:+ N) →
  get_retention_policy st
  = match PyStr.int (until_colon N) with
    | Some days => ("keep_days", days)
    | None => ("delete_after_asr", 0%Z)
    end.
Proof.
  intros Hcfg. unfold get_retention_policy, get_system_config. rewrite Hcfg.
  cbn [from_option id]. rewrite keep_days_second_field.
  cbn [from_option id].
  assert (Hstart : PyStr.startswith ("keep_days:" +:+ N) "keep_days:" = true).
  { unfold PyStr.startswith. simpl. by destruct N. }
  by rewrite Hstart.
Qed.

(** X25. Under the policy "keep_days:N" with [N] an integer [d], a
    cached entry without a policy of its own is collected exactly when
    [d] is positive and the entry is more than [d] days old; with [d]
    zero or negative such an entry is never collected, although
    [should_keep] holds. *)
Theorem keep_days_expires_by_age (st : store) (N : string) (d now : Z)
    (e : cache_entry) :
  system_configs st !! "media_retention_policy" = Some ("keep_days:" +:+ N) →
  PyStr.int (until_colon N) = Some d →
  NoDup (key <$> media_cache_entries st) →
  e ∈ media_cache_entries st →
  vm_policy st e = None →
  should_keep st = true
  ∧ ((∃ c, c ∈ get_gc_candidates now st
           ∧ cand_source_id c = source_id e ∧ cand_quality c = quality e)
     ↔ (0 < d)%Z ∧ (cached_at e < now - d * 86400)%Z).
Proof.
  intros Hcfg Hint Hnd He Hvm.
  assert (Hpol : get_retention_policy st = ("keep_days", d)).
  { by rewrite (get_retention_policy_keep_days st N Hcfg), Hint. }
  assert (Hwhere : gc_where now st e
                   = (0 <? d)%Z && (cached_at e <? now - d * 86400)%Z).
  { unfold gc_where, not_keep_forever, custom_expired, global_expired.
    rewrite Hpol, Hvm. simpl.
    by destruct (0 <? d)%Z. }
  split; [unfold should_keep; by rewrite Hpol|]. split.
  - intros (c & Hc & Hs & Hq).
    apply get_gc_candidates_elem in Hc as (e' & -> & He' & Hw & _).
    destruct (cand_fields st e') as (H1 & H2 & _). rewrite H1 in Hs. rewrite H2 in Hq.
    assert (e' = e) as ->.
    { apply (key_inj_on (media_cache_entries st)); try done.
      unfold key. by rewrite Hs, Hq. }
    rewrite Hwhere in Hw. apply andb_true_iff in Hw as [Hd Hlt].
    split; [by apply Z.ltb_lt|by apply Z.ltb_lt].
  - intros [Hd Hlt]. exists (to_candidate st e).
    destruct (cand_fields st e) as (H1 & H2 & _).
    split; [|done]. apply get_gc_candidates_elem. exists e.
    split; [done|]. split; [done|]. split; [|by rewrite Hvm].
    rewrite Hwhere. apply andb_true_iff. split; by apply Z.ltb_lt.
Qed.

Lemma keep_days_expires_by_age_witness :
  should_keep st_keep_two_days = true
  ∧ ((∃ c, c ∈ get_gc_candidates 300000 st_keep_two_days
           ∧ cand_source_id c = "A" ∧ cand_quality c = "best")
     ↔ (0 < 2)%Z ∧ (100 < 300000 - 2 * 86400)%Z).
Proof.
  apply (keep_days_expires_by_age st_keep_two_days "2" 2 300000
           (CacheEntry "A" "best" "data/media_cache/a.mp4" 5 100)).
  - reflexivity.
  - vm_compute. reflexivity.
  - apply (bool_decide_unpack _). vm_compute. exact I.
  - apply list_elem_of_here.
  - reflexivity.
Defined.

End RetentionFacts.

Module IntegrityFacts.
Import Store MediaCacheService MediaCacheSpec GcSpec MediaCacheIntegrity
       MediaCacheSpecMore MediaCacheFacts GcFacts MediaCacheFactsMore.

(** *** Manual deletion of a source *)

Lemma bool_decide_ext_if {A} (P Q : Prop) `{Decision P, Decision Q} (a b : A) :
  (P ↔ Q) → (if bool_decide P then a else b) = (if bool_decide Q then a else b).
Proof. intros HPQ. by rewrite (bool_decide_ext P Q HPQ). Qed.

Lemma insert_by_cached_at_desc_perm e l :
  insert_by_cached_at_desc e l ≡ₚ e :: l.
Proof.
  induction l as [|x l IH]; simpl; [done|].
  destruct (cached_at x <? cached_at e)%Z; [done|].
  rewrite IH. apply Permutation_swap.
Qed.

Lemma get_cache_entries_elem s st e :
  e ∈ get_cache_entries s st ↔ e ∈ media_cache_entries st ∧ source_id e = s.
Proof.
  unfold get_cache_entries.
  assert (Hperm : ∀ l, foldr insert_by_cached_at_desc [] l ≡ₚ l).
  { induction l as [|x l IH]; simpl; [done|].
    by rewrite insert_by_cached_at_desc_perm, IH. }
  rewrite Hperm, list_elem_of_In, filter_In, <- list_elem_of_In.
  by rewrite bool_decide_eq_true.
Qed.

Lemma delete_entry_files_spec l : ∀ d st,
  let r := foldl delete_entry_file (d, st) l in
  media_cache_entries r.2 = media_cache_entries st
  ∧ (∀ p, files r.2 !! p
          = if bool_decide (p ∈ media_path <$> l) then None else files st !! p)
  ∧ (r.1 = true ↔ d = true ∨ ∃ e, e ∈ l ∧ exists_ (media_path e) st = true).
Proof.
  induction l as [|x l IH]; intros d st; simpl.
  - split; [done|]. split; [done|]. split; [by left|].
    intros [?|(e & He & _)]; [done|]. by apply elem_of_nil in He.
  - set (acc := if exists_ (media_path x) st then _ else _).
    assert (Hacc : acc.2 = remove (media_path x) st
                   ∧ acc.1 = (exists_ (media_path x) st || d)).
    { subst acc. destruct (exists_ (media_path x) st) eqn:Hx; simpl; [done|].
      split; [|done]. symmetry. by apply remove_absent. }
    destruct Hacc as [Hst Hd].
    destruct acc as [d1 st1]. simpl in Hst, Hd. subst d1 st1.
    destruct (IH (exists_ (media_path x) st || d) (remove (media_path x) st))
      as (Hent & Hfiles & Hflag).
    split; [by rewrite Hent|]. split.
    + intros p. rewrite Hfiles. unfold remove. simpl.
      destruct (decide (p = media_path x)) as [->|Hne].
      * rewrite lookup_delete_eq.
        rewrite (bool_decide_eq_true_2 (_ ∈ _ :: _)) by apply list_elem_of_here.
        by case_bool_decide.
      * rewrite lookup_delete_ne by done.
        apply bool_decide_ext_if. rewrite elem_of_cons.
        split; [by right|by intros [?|?]].
    + rewrite Hflag. split.
      * intros [Hor|(e & He & Hex)].
        -- apply orb_true_iff in Hor as [Hx|?]; [|by left].
           right. exists x. split; [apply list_elem_of_here|done].
        -- right. exists e. split; [by apply list_elem_of_further|].
           apply exists_true in Hex. apply exists_true.
           unfold remove in Hex. simpl in Hex.
           destruct (decide (media_path e = media_path x)) as [Heq|Hne].
           ++ rewrite Heq, lookup_delete_eq in Hex. by destruct Hex.
           ++ by rewrite lookup_delete_ne in Hex.
      * intros [->|(e & [->|He]%elem_of_cons & Hex)].
        -- left. apply orb_true_r.
        -- left. by rewrite Hex.
        -- destruct (exists_ (media_path x) st) eqn:Hx; [by left|].
           right. exists e. split; [done|]. by rewrite remove_absent.
Qed.

(** X16. [delete_cache_for_video] removes a source from the cache and
    nothing else: afterwards the table holds exactly the rows of the
    other sources, the files the rows of the source recorded are gone,
    every other file is untouched, no lookup of the source finds a
    cached file, and the result tells whether a file was deleted. *)
Theorem delete_cache_for_video_removes_source (s : string) (st : store) :
  let r := delete_cache_for_video s st in
  (∀ e, e ∈ media_cache_entries r.2
        ↔ e ∈ media_cache_entries st ∧ source_id e ≠ s)
  ∧ (∀ e, e ∈ media_cache_entries st → source_id e = s →
          files r.2 !! media_path e = None)
  ∧ (∀ p, (∀ e, e ∈ media_cache_entries st → source_id e = s →
                media_path e ≠ p) →
          files r.2 !! p = files st !! p)
  ∧ (∀ q mode, find_existing_cache (Some s) q mode r.2 = None)
  ∧ (r.1 = true ↔ ∃ e, e ∈ media_cache_entries st ∧ source_id e = s
                       ∧ exists_ (media_path e) st = true).
Proof.
  intros r. subst r. unfold delete_cache_for_video.
  pose proof (delete_entry_files_spec (get_cache_entries s st) false st) as Hspec.
  cbv zeta in Hspec.
  destruct (foldl delete_entry_file (false, st) (get_cache_entries s st))
    as [d st1]. simpl in Hspec. destruct Hspec as (Hent & Hfiles & Hflag).
  cbn [fst snd delete_all_cache_entries set_entries media_cache_entries files].
  assert (Hrows : ∀ e, e ∈ List.filter (fun e => negb (bool_decide (source_id e = s)))
                             (media_cache_entries st1)
                       ↔ e ∈ media_cache_entries st ∧ source_id e ≠ s).
  { intros e. rewrite list_elem_of_In, filter_In, <- list_elem_of_In, Hent.
    by rewrite negb_true_iff, bool_decide_eq_false. }
  split; [exact Hrows|]. split; [|split; [|split]].
  - intros e He Hs. rewrite Hfiles, bool_decide_eq_true_2; [done|].
    apply list_elem_of_fmap_2. by apply get_cache_entries_elem.
  - intros p Hp. rewrite Hfiles, bool_decide_eq_false_2; [done|].
    intros (e & -> & [He Hs]%get_cache_entries_elem)%list_elem_of_fmap.
    by apply (Hp e).
  - intros q mode.
    destruct (find_existing_cache _ _ _ _) as [[p q']|] eqn:Hfind; [|done].
    apply find_existing_cache_row in Hfind
      as (_ & _ & (s0 & e & [= <-] & _ & He & Hs & _) & _).
    simpl in He. apply Hrows in He as [_ Hne]. done.
  - rewrite Hflag. split.
    + intros [?|(e & [He Hs]%get_cache_entries_elem & Hex)]; [done|]. by exists e.
    + intros (e & He & Hs & Hex). right. exists e.
      split; [by apply get_cache_entries_elem|done].
Qed.

(** *** Integrity scan and repair *)

Lemma db_orphans_elem st e :
  e ∈ db_orphans st ↔ e ∈ media_cache_entries st ∧ exists_ (media_path e) st = false.
Proof.
  unfold db_orphans.
  by rewrite list_elem_of_In, filter_In, <- list_elem_of_In, negb_true_iff.
Qed.

Lemma delete_db_orphans_spec st :
  files (delete_db_orphans st).2 = files st
  ∧ ∀ e, e ∈ media_cache_entries (delete_db_orphans st).2
         ↔ e ∈ media_cache_entries st ∧ exists_ (media_path e) st = true.
Proof.
  split; [done|]. intros e. unfold delete_db_orphans, scan_integrity. simpl.
  rewrite list_elem_of_difference, db_orphans_elem.
  destruct (exists_ (media_path e) st); intuition congruence.
Qed.

Lemma fs_orphans_elem st p sz :
  (p, sz) ∈ fs_orphans st ↔ files st !! p = Some sz ∧ is_orphan st p = true.
Proof.
  unfold fs_orphans. rewrite elem_of_map_to_list, map_lookup_filter_Some. done.
Qed.

Lemma delete_fs_orphan_loop target l : ∀ c st,
  let r := foldl (delete_fs_orphan target) (c, st) l in
  media_cache_entries r.2 = media_cache_entries st
  ∧ ∀ p, files r.2 !! p
         = if bool_decide (p ∈ (List.filter (chosen target) l).*1)
           then None else files st !! p.
Proof.
  induction l as [|[path size] l IH]; intros [count freed] st; [done|].
  cbv zeta. cbn [foldl List.filter].
  set (acc := delete_fs_orphan target (count, freed, st) (path, size)).
  assert (Hacc : acc.2 = if chosen target (path, size) then remove path st else st).
  { subst acc. unfold delete_fs_orphan, chosen. simpl.
    destruct target as [names|]; simpl.
    - destruct (bool_decide (filename_of path ∈ names)); simpl; [|done].
      destruct (exists_ path st) eqn:Hex; simpl; [done|].
      symmetry. by apply remove_absent.
    - destruct (exists_ path st) eqn:Hex; simpl; [done|].
      symmetry. by apply remove_absent. }
  destruct acc as [c1 st1]. simpl in Hacc. subst st1.
  destruct (IH c1 (if chosen target (path, size) then remove path st else st))
    as [Hent Hfiles].
  split.
  - rewrite Hent. by destruct (chosen target (path, size)).
  - intros p. rewrite Hfiles.
    destruct (chosen target (path, size)); simpl; [|done].
    destruct (decide (p = path)) as [->|Hne].
    + rewrite lookup_delete_eq.
      rewrite (bool_decide_eq_true_2 (_ ∈ _ :: _)) by apply list_elem_of_here.
      by case_bool_decide.
    + rewrite lookup_delete_ne by done.
      apply bool_decide_ext_if. rewrite elem_of_cons.
      split; [by right|by intros [?|?]].
Qed.

Lemma is_orphan_entries st st' p :
  media_cache_entries st' = media_cache_entries st →
  is_orphan st' p = is_orphan st p.
Proof. intros H. unfold is_orphan. by rewrite H. Qed.

Lemma delete_fs_orphans_all st :
  let st' := (delete_fs_orphans None st).2 in
  media_cache_entries st' = media_cache_entries st
  ∧ ∀ p, files st' !! p = if is_orphan st p then None else files st !! p.
Proof.
  intros st'. subst st'. unfold delete_fs_orphans, scan_integrity. cbn [snd].
  destruct (delete_fs_orphan_loop None (fs_orphans st) (0, 0)%Z st)
    as [Hent Hfiles].
  split; [done|]. intros p. rewrite Hfiles.
  assert (Hall : ∀ l : list (string * Z), List.filter (chosen None) l = l).
  { induction l as [|x l IH]; simpl; [done|]. by rewrite IH. }
  rewrite Hall.
  destruct (is_orphan st p) eqn:Ho.
  - destruct (files st !! p) as [sz|] eqn:Hp; [|by case_bool_decide].
    rewrite bool_decide_eq_true_2; [done|].
    apply list_elem_of_fmap. exists (p, sz). split; [done|].
    by apply fs_orphans_elem.
  - rewrite bool_decide_eq_false_2; [done|].
    intros ([p' sz] & -> & [_ Ho']%fs_orphans_elem)%list_elem_of_fmap.
    simpl in Ho. congruence.
Qed.

(** X18. [delete_fs_orphans] with a list of file names deletes
    exactly the files the scan reports as orphans (files of the cache
    directory that no row records) whose name is in the list: a file
    that has a row, a file outside the cache directory and an orphan
    that is not listed are all kept, and no row is changed. *)
Theorem delete_fs_orphans_only_listed (names : list string) (st : store) :
  let st' := (delete_fs_orphans (Some names) st).2 in
  media_cache_entries st' = media_cache_entries st
  ∧ ∀ p, files st' !! p
         = if is_orphan st p && bool_decide (filename_of p ∈ names)
           then None else files st !! p.
Proof.
  intros st'. subst st'. unfold delete_fs_orphans, scan_integrity. cbn [snd].
  destruct (delete_fs_orphan_loop (Some names) (fs_orphans st) (0, 0)%Z st)
    as [Hent Hfiles].
  split; [done|]. intros p. rewrite Hfiles.
  destruct (is_orphan st p && bool_decide (filename_of p ∈ names)) eqn:Hb.
  - apply andb_true_iff in Hb as [Ho Hn].
    destruct (files st !! p) as [sz|] eqn:Hp;
      [|by destruct (bool_decide (p ∈ _))].
    rewrite bool_decide_eq_true_2; [done|].
    apply list_elem_of_fmap. exists (p, sz). split; [done|].
    apply list_elem_of_In, filter_In. split; [|done].
    by apply list_elem_of_In, fs_orphans_elem.
  - rewrite bool_decide_eq_false_2; [done|].
    intros ([p' sz] & -> & Hin)%list_elem_of_fmap.
    apply list_elem_of_In, filter_In in Hin as [Hin Hc].
    apply list_elem_of_In, fs_orphans_elem in Hin as [_ Ho].
    simpl in *. unfold chosen in Hc. simpl in Hc. rewrite Ho, Hc in Hb. done.
Qed.

Lemma is_orphan_true st p :
  is_orphan st p = true
  ↔ in_cache_dir p = true ∧ ∀ e, e ∈ media_cache_entries st → media_path e ≠ p.
Proof.
  unfold is_orphan. rewrite andb_true_iff, negb_true_iff, bool_decide_eq_false.
  split; intros [Hd Hn]; (split; [done|]).
  - intros e He Heq. apply Hn. rewrite <- Heq, list_elem_of_In. apply in_map.
    by apply list_elem_of_In.
  - rewrite list_elem_of_In, in_map_iff. intros (e & Heq & He).
    apply (Hn e); [by apply list_elem_of_In|done].
Qed.

Lemma sync_integrity_store b st :
  (sync_integrity b st).2
  = if b then (delete_fs_orphans None (delete_db_orphans st).2).2
    else (delete_db_orphans st).2.
Proof.
  unfold sync_integrity.
  destruct (delete_db_orphans st) as [n st1]. cbn [snd].
  destruct b.
  - by destruct (delete_fs_orphans None st1) as [[c f] st2].
  - done.
Qed.

(** X17. [sync_integrity(delete_orphans=True)] repairs the cache:
    afterwards every row has its file and every file of the cache
    directory has a row, so that a new scan reports nothing. It deletes
    exactly the rows whose file was missing, keeps the file of every
    remaining row, and touches no file outside the cache directory.
    With [delete_orphans=False] no file is deleted. *)
Theorem sync_integrity_repairs (st : store) :
  let st' := (sync_integrity true st).2 in
  no_db_orphan st' ∧ no_fs_orphan st'
  ∧ scan_integrity st' = ([], [])
  ∧ (∀ e, e ∈ media_cache_entries st'
          ↔ e ∈ media_cache_entries st ∧ exists_ (media_path e) st = true)
  ∧ (∀ e, e ∈ media_cache_entries st' →
          files st' !! media_path e = files st !! media_path e)
  ∧ (∀ p, in_cache_dir p = false → files st' !! p = files st !! p)
  ∧ files (sync_integrity false st).2 = files st.
Proof.
  intros st'. subst st'. rewrite !sync_integrity_store.
  destruct (delete_db_orphans_spec st) as [Hf1 He1].
  set (st1 := (delete_db_orphans st).2) in *.
  destruct (delete_fs_orphans_all st1) as [He2 Hf2].
  set (st2 := (delete_fs_orphans None st1).2) in *.
  assert (Hrows : ∀ e, e ∈ media_cache_entries st2
                       ↔ e ∈ media_cache_entries st
                         ∧ exists_ (media_path e) st = true).
  { intros e. by rewrite He2, He1. }
  assert (Hkeep : ∀ e, e ∈ media_cache_entries st2 →
                       files st2 !! media_path e = files st !! media_path e).
  { intros e He. rewrite Hf2, Hf1.
    destruct (is_orphan st1 (media_path e)) eqn:Ho; [|done].
    apply is_orphan_true in Ho as [_ Hn]. exfalso.
    apply (Hn e); [by rewrite <- He2|done]. }
  assert (Hdb : no_db_orphan st2).
  { intros e He. apply exists_true. rewrite (Hkeep e He).
    apply Hrows in He as [_ Hex]. by apply exists_true. }
  assert (Hfs : no_fs_orphan st2).
  { intros p [sz Hp] Hdir. rewrite Hf2 in Hp.
    destruct (is_orphan st1 p) eqn:Ho; [done|].
    unfold is_orphan in Ho. rewrite Hdir in Ho. simpl in Ho.
    apply negb_false_iff, bool_decide_eq_true in Ho.
    apply list_elem_of_In, in_map_iff in Ho as (e & Heq & He).
    exists e. split; [|done]. rewrite He2. by apply list_elem_of_In. }
  split; [done|]. split; [done|]. split; [|split; [done|split; [done|split]]].
  - unfold scan_integrity. f_equal.
    + unfold db_orphans.
      assert (Hnone : ∀ l, Forall (fun e => exists_ (media_path e) st2 = true) l →
                List.filter (fun e => negb (exists_ (media_path e) st2)) l = []).
      { induction 1 as [|x l Hx _ IH]; simpl; [done|]. by rewrite Hx. }
      apply (Hnone (media_cache_entries st2)). apply Forall_forall. exact Hdb.
    + unfold fs_orphans.
      assert (Hempty : filter (fun kv : string * Z => is_orphan st2 kv.1 = true)
                              (files st2) = ∅).
      { apply map_empty. intros p. apply map_lookup_filter_None. right.
        intros sz Hp Ho. simpl in Ho.
        apply is_orphan_true in Ho as [Hdir Hn].
        destruct (Hfs p (mk_is_Some _ _ Hp) Hdir) as (e & He & Heq).
        by apply (Hn e). }
      rewrite Hempty. apply map_to_list_empty.
  - intros p Hdir. rewrite Hf2, Hf1.
    unfold is_orphan. by rewrite Hdir.
  - done.
Qed.

End IntegrityFacts.

Module GcFactsMore.
Import Store MediaCacheService MediaCacheSpec GcSpec MediaCacheIntegrity
       MediaCacheSpecMore MediaCacheFacts GcFacts MediaCacheFactsMore.

(** *** Targeted collection *)

Lemma same_key_false_iff_key s q x : same_key s q x = false ↔ GcSpec.key x ≠ (s, q).
Proof. by rewrite <- not_true_iff_false, same_key_true_iff. Qed.

Lemma gc_delete_candidate_step target acc item :
  (gc_delete_candidate target acc item).2
  = if targeted target item
    then remove (cand_media_path item)
           (delete_cache_entry (cand_source_id item) (cand_quality item) acc.2)
    else acc.2.
Proof.
  destruct acc as [[n f] st]. unfold gc_delete_candidate, targeted. simpl.
  destruct target as [ids|]; simpl.
  - destruct (bool_decide (cand_source_id item ∈ ids)); simpl; [|done].
    destruct (exists_ _ _) eqn:Hex; simpl; [done|].
    symmetry. by apply remove_absent.
  - destruct (exists_ _ _) eqn:Hex; simpl; [done|].
    symmetry. by apply remove_absent.
Qed.

Lemma gc_delete_candidates_frame target l : ∀ acc,
  let st' := (foldl (gc_delete_candidate target) acc l).2 in
  media_cache_entries st' `sublist_of` media_cache_entries acc.2
  ∧ (∀ x, x ∈ media_cache_entries acc.2 →
          (∀ c, c ∈ l → targeted target c = true →
                key x ≠ (cand_source_id c, cand_quality c)) →
          x ∈ media_cache_entries st')
  ∧ (∀ p, (∀ c, c ∈ l → targeted target c = true → cand_media_path c ≠ p) →
          files st' !! p = files acc.2 !! p)
  ∧ video_meta st' = video_meta acc.2
  ∧ system_configs st' = system_configs acc.2.
Proof.
  induction l as [|c l IH]; intros acc; [done|].
  cbv zeta. cbn [foldl].
  destruct (IH (gc_delete_candidate target acc c)) as (Hsub & Hkeep & Hfiles & Hvm & Hcfg).
  rewrite gc_delete_candidate_step in Hsub, Hkeep, Hfiles, Hvm, Hcfg.
  split; [|split; [|split; [|split]]].
  - etrans; [exact Hsub|]. destruct (targeted target c); [|done].
    apply sublist_filter.
  - intros x Hx Hc. apply Hkeep.
    + destruct (targeted target c) eqn:Ht; [|done]. simpl.
      apply list_elem_of_filter. split; [|done].
      apply same_key_false_iff_key. apply (Hc c); [apply list_elem_of_here|done].
    + intros c' Hc'. apply Hc. by apply list_elem_of_further.
  - intros p Hp. rewrite Hfiles.
    + destruct (targeted target c) eqn:Ht; [|done]. simpl.
      apply lookup_delete_ne. apply (Hp c); [apply list_elem_of_here|done].
    + intros c' Hc'. apply Hp. by apply list_elem_of_further.
  - rewrite Hvm. by destruct (targeted target c).
  - rewrite Hcfg. by destruct (targeted target c).
Qed.

(** X19. A targeted [run_gc] touches nothing but expired entries of
    the targeted sources: a row is kept unless a candidate of
    [get_gc_candidates] with a targeted source has its source and
    quality, a file is kept unless it is the file of such a candidate,
    and neither the orphan pass nor the capacity pass runs (an orphan
    file and an over-budget cache are left as they are). *)
Theorem targeted_gc_touches_only_its_targets (float_of_str : string → option Q)
    (ids : list string) (now : Z) (st : store) :
  let st' := (run_gc float_of_str (Some ids) now st).2 in
  (∀ x, x ∈ media_cache_entries st →
        (∀ c, c ∈ get_gc_candidates now st → cand_source_id c ∈ ids →
              (source_id x, quality x) ≠ (cand_source_id c, cand_quality c)) →
        x ∈ media_cache_entries st')
  ∧ (∀ x, x ∈ media_cache_entries st' → x ∈ media_cache_entries st)
  ∧ (∀ p, (∀ c, c ∈ get_gc_candidates now st → cand_source_id c ∈ ids →
                cand_media_path c ≠ p) →
          files st' !! p = files st !! p).
Proof.
  intros st'. subst st'. unfold run_gc, gc_expired. cbn [snd].
  destruct (gc_delete_candidates_frame (Some ids) (get_gc_candidates now st)
              ((0, 0)%Z, st)) as (Hsub & Hkeep & Hfiles & _).
  cbn [snd] in *.
  split; [|split].
  - intros x Hx Hc. apply Hkeep; [done|].
    intros c Hin Ht. apply Hc; [done|].
    unfold targeted in Ht. by apply bool_decide_eq_true in Ht.
  - intros x Hx. exact (elem_of_sublist _ _ _ Hx Hsub).
  - intros p Hp. apply Hfiles. intros c Hin Ht. apply Hp; [done|].
    unfold targeted in Ht. by apply bool_decide_eq_true in Ht.
Qed.

(** *** No orphan file after a full collection *)

Lemma gc_orphans_no_fs_orphan acc : no_fs_orphan (gc_orphans acc).2.
Proof.
  destruct acc as [[n f] st]. unfold gc_orphans. cbn [snd].
  intros p [sz Hp] Hdir. simpl in Hp.
  apply map_lookup_filter_Some in Hp as [_ Ho]. simpl in Ho.
  unfold is_orphan in Ho. rewrite Hdir in Ho. simpl in Ho.
  apply negb_false_iff, bool_decide_eq_true in Ho.
  apply list_elem_of_In, in_map_iff in Ho as (e & Heq & He).
  exists e. split; [by apply list_elem_of_In|done].
Qed.

Lemma capacity_loop_no_fs_orphan rows bytes_to_free : ∀ freed acc,
  NoDup (key <$> media_cache_entries acc.2) →
  (∀ e, e ∈ rows → ∀ x, x ∈ media_cache_entries acc.2 → key x = key e → x = e) →
  no_fs_orphan acc.2 →
  no_fs_orphan (capacity_loop rows bytes_to_free freed acc).2.
Proof.
  induction rows as [|row rows IH]; intros freed acc Hnd Hrows Hno; [done|].
  cbn [capacity_loop].
  destruct (bytes_to_free <=? freed)%Z; [done|].
  destruct acc as [[n f] st]. cbn [snd] in *.
  set (st1 := delete_cache_entry (source_id row) (quality row) st).
  assert (Hsub : media_cache_entries st1 `sublist_of` media_cache_entries st)
    by apply sublist_filter.
  assert (Hnd1 : NoDup (key <$> media_cache_entries st1)).
  { eapply sublist_NoDup; [exact Hnd|]. by apply fmap_sublist. }
  assert (Hstep : ∀ st2, media_cache_entries st2 = media_cache_entries st1 →
            (∀ p, is_Some (files st2 !! p) →
                  is_Some (files st !! p) ∧ p ≠ media_path row) →
            no_fs_orphan st2).
  { intros st2 Hent Hf p Hp Hdir. destruct (Hf p Hp) as [Hp0 Hne].
    destruct (Hno p Hp0 Hdir) as (e & He & Heq).
    exists e. split; [|done]. rewrite Hent. unfold st1, delete_cache_entry. simpl.
    apply list_elem_of_filter. split; [|done].
    apply same_key_false_iff. intros Hk.
    apply Hne. rewrite <- Heq.
    by rewrite (Hrows row (list_elem_of_here _ _) e He Hk). }
  assert (Hrows1 : ∀ st2, media_cache_entries st2 = media_cache_entries st1 →
            ∀ e, e ∈ rows → ∀ x, x ∈ media_cache_entries st2 →
                 key x = key e → x = e).
  { intros st2 Hent e He x Hx. apply Hrows; [by apply list_elem_of_further|].
    rewrite Hent in Hx. exact (elem_of_sublist _ _ _ Hx Hsub). }
  destruct (exists_ (media_path row) st1) eqn:Hex.
  - apply IH; cbn [snd].
    + done.
    + by apply Hrows1.
    + apply Hstep; [done|]. intros p. unfold remove, st1, delete_cache_entry.
      simpl. intros Hp. destruct (decide (p = media_path row)) as [->|Hne].
      * rewrite lookup_delete_eq in Hp. by destruct Hp.
      * by rewrite lookup_delete_ne in Hp.
  - apply IH; cbn [snd].
    + done.
    + by apply Hrows1.
    + apply Hstep; [done|]. intros p Hp. split; [done|]. intros ->.
      apply exists_true in Hp. congruence.
Qed.

(** X20. A full [run_gc] leaves no orphan file: when the table has
    one row per (source, quality), every file that is in the cache
    directory after the run is the file some row records. *)
Theorem full_gc_leaves_no_orphan_file (float_of_str : string → option Q)
    (now : Z) (st : store) :
  NoDup (key <$> media_cache_entries st) →
  no_fs_orphan (run_gc float_of_str None now st).2.
Proof.
  intros Hnd. unfold run_gc.
  set (acc1 := gc_expired None now ((0, 0)%Z, st)).
  assert (Hsub1 : media_cache_entries acc1.2 `sublist_of` media_cache_entries st).
  { unfold acc1, gc_expired.
    by destruct (gc_delete_candidates_frame None (get_gc_candidates now st)
                   ((0, 0)%Z, st)) as (Hsub & _). }
  set (acc2 := gc_orphans acc1).
  assert (Hent2 : media_cache_entries acc2.2 = media_cache_entries acc1.2).
  { by destruct (gc_orphans_store acc1) as [? _]. }
  assert (Hnd2 : NoDup (key <$> media_cache_entries acc2.2)).
  { rewrite Hent2. eapply sublist_NoDup; [exact Hnd|]. by apply fmap_sublist. }
  pose proof (gc_orphans_no_fs_orphan acc1) as Hno. fold acc2 in Hno.
  unfold gc_capacity.
  destruct (Qlt_le_dec 0 (capacity_gb float_of_str acc2.2)); [|done].
  destruct (_ <? _)%Z; [|done].
  apply capacity_loop_no_fs_orphan; [done| |done].
  intros e He x Hx Hk.
  apply capacity_candidates_elem in He as [He _].
  by apply (key_inj_on (media_cache_entries acc2.2)).
Qed.

Lemma full_gc_leaves_no_orphan_file_witness :
  no_fs_orphan (run_gc float_of_int_str None 1000 st_messy).2.
Proof.
  apply (full_gc_leaves_no_orphan_file float_of_int_str 1000 st_messy).
  apply (bool_decide_unpack _). vm_compute. exact I.
Defined.

End GcFactsMore.

Module PipelineFactsMore.
Import Store MediaCacheService Pipeline PipelineSpec PipelineSpecMore
       TaskManagerSpec TaskManagerFacts MediaCacheFacts PipelineFacts.

Lemma bind_run {A B} (m : M A) (f : A → M B) (s : pstate) :
  (m ≫= f) s
  = match m s with
    | (Ok x, s1) => f x s1
    | (Raise e, s1) => (Raise e, s1)
    end.
Proof. reflexivity. Qed.

Lemma ret_bind {A B} (x : A) (f : A → M B) (s : pstate) :
  (mret x ≫= f) s = f x s.
Proof. reflexivity. Qed.

Lemma after_check_cache_unfold env a :
  after_check_cache env a
  = (hook_stage env a ≫= fun returned : bool =>
       if returned then mret tt else after_hook env a).
Proof. reflexivity. Qed.

Lemma hook_stage_cached env a l w :
  using_cache l = true → hook_stage env a (l, w) = (Ok false, (l, w)).
Proof.
  intros H. unfold hook_stage. rewrite bind_run. unfold get_locals. cbn [fst snd].
  destruct (pre_asr_hook env); [|done]. by rewrite H.
Qed.

Lemma download_stage_cached env a l w :
  using_cache l = true → download_stage env a (l, w) = (Ok tt, (l, w)).
Proof.
  intros H. unfold download_stage. rewrite bind_run. unfold get_locals.
  cbn [fst snd]. by rewrite H.
Qed.

Lemma check_cache_result a l w :
  check_cache a (l, w)
  = match find_existing_cache (Some (source_key a)) None "transcription" (db w) with
    | Some (c, q) =>
        if exists_ c (db w)
        then (Ok tt,
              (Locals (Some c) true false,
               update_progress (transcription_id a) 30
                 ("Using cached media (" +:+ q +:+ ")...")
                 (set_db (assign_cache (transcription_id a) c q (clock w) (db w)) w)))
        else (Ok tt, (l, w))
    | None => (Ok tt, (l, w))
    end.
Proof.
  unfold check_cache. rewrite bind_run. unfold get_world. cbn [fst snd].
  destruct (find_existing_cache _ _ _ _) as [[c q]|]; [|done].
  by destruct (exists_ c (db w)).
Qed.

Lemma find_existing_cache_started a w :
  find_existing_cache (Some (source_key a)) None "transcription" (db (started a w))
  = find_existing_cache (Some (source_key a)) None "transcription" (db w).
Proof. by apply find_existing_cache_ext. Qed.

(** X21. After a cache hit the pipeline neither downloads nor asks
    the pre-ASR hook: when [find_existing_cache] finds media for the
    source, the run is the same whatever downloader and hook are
    passed. *)
Theorem cache_hit_skips_download_and_hook (env : collaborators)
    (d : Z → world → result string * world)
    (h : option (Z → world → result (option string) * world))
    (a : args) (w : world) (c q : string) :
  find_existing_cache (Some (source_key a)) None "transcription" (db w)
  = Some (c, q) →
  run_transcription_pipeline (with_download env d h) a w
  = run_transcription_pipeline env a w.
Proof.
  intros Hhit.
  assert (Hbody : pipeline_body (with_download env d h) a (initial_locals, w)
                  = pipeline_body env a (initial_locals, w)).
  { rewrite !pipeline_body_unfold, !bind_run, check_cache_result.
    rewrite find_existing_cache_started, Hhit.
    assert (Hex : exists_ c (db (started a w)) = true).
    { eapply find_existing_cache_exists. by rewrite find_existing_cache_started. }
    rewrite Hex.
    set (l1 := Locals (Some c) true false). set (w1 := update_progress _ _ _ _).
    rewrite !after_check_cache_unfold, !bind_run, !hook_stage_cached by done.
    unfold after_hook. destruct (only_get_subtitles a); [done|].
    rewrite !ret_bind. cbv beta.
    rewrite !bind_run, !download_stage_cached by done. reflexivity. }
  unfold run_transcription_pipeline. by rewrite Hbody.
Qed.

Lemma cache_hit_skips_download_and_hook_witness :
  run_transcription_pipeline
    (with_download (env_of download_ok None no_vocals) download_fails
                   (Some hook_raises))
    (job false) w_cached
  = run_transcription_pipeline (env_of download_ok None no_vocals)
                               (job false) w_cached.
Proof.
  apply (cache_hit_skips_download_and_hook (env_of download_ok None no_vocals)
           download_fails (Some hook_raises) (job false) w_cached
           "data/media_cache/s_audio_only.mp3" "audio_only").
  vm_compute. reflexivity.
Defined.

Lemma hook_stage_returns env a s :
  ∃ b s', hook_stage env a s = (Ok b, s').
Proof.
  unfold hook_stage. rewrite bind_run. unfold get_locals. cbn [fst snd].
  destruct (pre_asr_hook env) as [hook|]; [|by eexists _, _].
  destruct (negb (using_cache s.1)); [|by eexists _, _].
  unfold try_except.
  match goal with
  | |- context [match ?m s with _ => _ end] => destruct (m s) as [[b|e] s1]
  end; by eexists _, _.
Qed.

(** X22. A job that only asks for subtitles never downloads, isolates
    vocals or calls the ASR: its run is the same whatever downloader,
    vocal separation and ASR call are passed, and the body of the
    pipeline either returns from the pre-ASR hook stage or raises
    "只获取字幕模式下未能找到或不支持提取原生字幕" (also when the media is
    in the cache, where the hook is not asked). *)
Theorem subtitles_only_never_downloads (env : collaborators)
    (d : Z → world → result string * world)
    (v : Z → option string → world → result (option string) * world)
    (r : Z → option string → string → option string → string →
         world → result string * world)
    (a : args) (w : world) :
  only_get_subtitles a = true →
  run_transcription_pipeline (with_media_stages env d v r) a w
  = run_transcription_pipeline env a w
  ∧ ((pipeline_body env a (initial_locals, w)).1 = Ok tt
     ∨ (pipeline_body env a (initial_locals, w)).1 = Raise subtitles_missing).
Proof.
  intros Honly.
  assert (Hafter : ∀ env0 s,
    after_check_cache env0 a s
    = match hook_stage env0 a s with
      | (Ok true, s1) => (Ok tt, s1)
      | (Ok false, s1) => (Raise subtitles_missing, s1)
      | (Raise e, s1) => (Raise e, s1)
      end).
  { intros env0 s. rewrite after_check_cache_unfold, bind_run.
    destruct (hook_stage env0 a s) as [[[|]|e] s1]; [done| |done].
    unfold after_hook. rewrite Honly. by rewrite bind_run. }
  assert (Hcc : ∀ s, ∃ s', check_cache a s = (Ok tt, s')).
  { intros [l w0]. rewrite check_cache_result.
    destruct (find_existing_cache _ _ _ _) as [[c q]|]; [|by eexists].
    destruct (exists_ c (db w0)); by eexists. }
  assert (Hbody : pipeline_body (with_media_stages env d v r) a (initial_locals, w)
                  = pipeline_body env a (initial_locals, w)).
  { rewrite !pipeline_body_unfold, !bind_run.
    destruct (Hcc (initial_locals, started a w)) as [s' ->].
    by rewrite !Hafter. }
  split.
  - unfold run_transcription_pipeline. by rewrite Hbody.
  - rewrite pipeline_body_unfold, bind_run.
    destruct (Hcc (initial_locals, started a w)) as [s' ->].
    rewrite Hafter. destruct (hook_stage_returns env a s') as (b & s1 & ->).
    destruct b; [by left|by right].
Qed.

Lemma subtitles_only_never_downloads_witness :
  run_transcription_pipeline
    (with_media_stages (env_of download_ok (Some hook_raises) no_vocals)
                       download_fails vocals_ok asr_hello)
    job_subtitles_only w0
  = run_transcription_pipeline (env_of download_ok (Some hook_raises) no_vocals)
                               job_subtitles_only w0
  ∧ ((pipeline_body (env_of download_ok (Some hook_raises) no_vocals)
                    job_subtitles_only (initial_locals, w0)).1 = Ok tt
     ∨ (pipeline_body (env_of download_ok (Some hook_raises) no_vocals)
                      job_subtitles_only (initial_locals, w0)).1
       = Raise subtitles_missing).
Proof.
  apply (subtitles_only_never_downloads
           (env_of download_ok (Some hook_raises) no_vocals)
           download_fails vocals_ok asr_hello job_subtitles_only w0).
  reflexivity.
Defined.

Lemma registry_cleanup a l w : registry (cleanup a l w) = registry w.
Proof.
  unfold cleanup. destruct (is_temp_derived l).
  - by destruct (_ && _).
  - by destruct (negb (using_cache l)).
Qed.

Lemma registry_handle a e w :
  registry (handle a e w)
  = TaskManager.finish_task (transcription_id a) (clock w) (registry w).
Proof. unfold handle. by destruct (is_TaskCancelled e). Qed.

Lemma outcome_row_status e row : tstatus (outcome_row e row) = outcome_status e.
Proof. unfold outcome_row, outcome_status. by destruct (is_TaskCancelled e). Qed.

(** X23. A run that fails or is cancelled is still reported as
    completed by the in-memory registry: when the body of the pipeline
    raises while the task is registered, not yet finished, and neither
    "cancelled" nor "failed" there (no operation of the registry writes
    these), the run leaves the registry with status [completed] and
    progress 100 for the task, while the status of the job's row is
    "failed", or "cancelled" for a cancellation. *)
Theorem failed_run_is_reported_completed (env : collaborators) (a : args)
    (w : world) (e : exn) :
  let r := pipeline_body env a (initial_locals, w) in
  let final := run_transcription_pipeline env a w in
  r.1 = Raise e →
  (∃ t, TaskManager.tasks (registry r.2.2) !! transcription_id a = Some t
        ∧ TaskManager.status t ≠ TaskManager.cancelled
        ∧ TaskManager.status t ≠ TaskManager.failed) →
  transcription_id a ∉ TaskManager._finished_ids (registry r.2.2) →
  (∃ t', TaskManager.get_task_status (transcription_id a) (registry final) = Some t'
         ∧ TaskManager.status t' = TaskManager.completed
         ∧ TaskManager.progress t' = 100%Z)
  ∧ tstatus <$> transcriptions (db final) !! transcription_id a
    = (fun _ => outcome_status e) <$> transcriptions (db r.2.2) !! transcription_id a.
Proof.
  intros r final Hr (t & Ht & Hc & Hf) Hnot. subst final.
  unfold run_transcription_pipeline. fold r.
  destruct r as [[u|e'] [l w1]] eqn:Er; [done|]. simpl in Hr, Ht, Hnot |- *.
  injection Hr as ->.
  split.
  - unfold TaskManager.get_task_status.
    rewrite registry_cleanup, registry_handle.
    rewrite (finish_task_tasks _ _ _ t Ht).
    rewrite evict_oldest_keeps_last by done.
    rewrite lookup_insert_eq. eexists. split; [done|].
    unfold finished_record. rewrite !decide_False by tauto. done.
  - rewrite transcriptions_cleanup, transcriptions_handle.
    destruct (transcriptions (db w1) !! transcription_id a) as [row|]; [|done].
    simpl. by rewrite outcome_row_status.
Qed.

Lemma failed_run_is_reported_completed_witness :
  let final := run_transcription_pipeline (env_of download_fails None no_vocals)
                 (job false) w0 in
  let r := pipeline_body (env_of download_fails None no_vocals) (job false)
             (initial_locals, w0) in
  (∃ t', TaskManager.get_task_status 7 (registry final) = Some t'
         ∧ TaskManager.status t' = TaskManager.completed
         ∧ TaskManager.progress t' = 100%Z)
  ∧ tstatus <$> transcriptions (db final) !! 7%Z
    = (fun _ => outcome_status (Exception "Failed to download audio from Bilibili"))
        <$> transcriptions (db r.2.2) !! 7%Z.
Proof.
  apply (failed_run_is_reported_completed (env_of download_fails None no_vocals)
           (job false) w0 (Exception "Failed to download audio from Bilibili")).
  - vm_compute. reflexivity.
  - vm_compute. eexists. split; [reflexivity|]. split; discriminate.
  - vm_compute. apply not_elem_of_nil.
Defined.

Lemma set_db_same w : set_db (db w) w = w.
Proof. by destruct w. Qed.

(** X24. Subtitles found by the pre-ASR hook end the job at once:
    without a cache hit, when the hook returns a text that is not
    empty and no automatic analysis is asked for, the run is the world
    the hook left with the text stored in the job's row, the model set
    to "Subtitle", the subtitle flag set, the status "completed" and the
    task finished; nothing is downloaded, transcribed or cached. *)
Theorem subtitles_from_hook_end_the_job (env : collaborators) (a : args)
    (w w1 : world) (hook : Z → world → result (option string) * world)
    (text : string) :
  find_existing_cache (Some (source_key a)) None "transcription" (db w) = None →
  pre_asr_hook env = Some hook →
  hook (transcription_id a) (started a w) = (Ok (Some text), w1) →
  text ≠ "" →
  truthy (auto_analyze_prompt a) = false →
  run_transcription_pipeline env a w = subtitles_outcome a text w1.
Proof.
  intros Hmiss Hhook Hres Htext Hauto.
  unfold run_transcription_pipeline.
  rewrite pipeline_body_unfold, bind_run, check_cache_result.
  rewrite find_existing_cache_started, Hmiss.
  rewrite after_check_cache_unfold, bind_run.
  assert (Hstage : hook_stage env a (initial_locals, started a w)
                   = (Ok true, (initial_locals, subtitles_outcome a text w1))).
  { unfold hook_stage. rewrite bind_run. unfold get_locals. cbn [fst snd].
    rewrite Hhook. cbn [initial_locals using_cache negb].
    unfold try_except. rewrite bind_run. unfold call. cbn [snd fst].
    rewrite Hres. rewrite (truthy_Some _ Htext). rewrite Hauto.
    reflexivity. }
  rewrite Hstage. cbn [mret M_ret].
  unfold cleanup. cbn [initial_locals is_temp_derived using_cache negb audio_path].
  unfold cleanup_or_delete. cbn [truthy negb]. apply set_db_same.
Qed.

Lemma subtitles_from_hook_end_the_job_witness :
  run_transcription_pipeline (env_of download_fails (Some hook_subtitles) no_vocals)
                             (job false) w0
  = subtitles_outcome (job false) "[00:01] hello"
                      (started (job false) w0).
Proof.
  apply (subtitles_from_hook_end_the_job
           (env_of download_fails (Some hook_subtitles) no_vocals) (job false)
           w0 (started (job false) w0) hook_subtitles
           "[00:01] hello").
  - vm_compute. reflexivity.
  - reflexivity.
  - reflexivity.
  - discriminate.
  - reflexivity.
Defined.

End PipelineFactsMore.
